(** * go-metrics: EWMA, Meter and Histogram

A shallow embedding of [metrics/ewma.go], of the Meter and of the
Histogram of the go-metrics library, with the properties that the
library's specification states about them.

The Go code computes on [float64].  Its functions are written once, over
an interface of the float operations they use ([Float64Ops]), and read at
two instances:

- [binary64]: IEEE-754 double precision, bit for bit, on the
  [spec_float] of the Standard Library (round to nearest even, signed
  zeros, infinities, NaN).  It is executable; the concrete runs and the
  inputs on which the specification fails are evaluated there.
- [xreal]: exact real arithmetic, with one exceptional value for the
  results that are undefined over the reals (division by zero, square
  root of a negative number).  The algebraic properties (sums, minimum,
  Welford's recurrences, interpolation) are proved there.

Go's [int] is taken to be 64 bits wide; integer arithmetic wraps. *)

From Stdlib Require Import ZArith List Bool Lia Lra Psatz.
From Stdlib Require Import QArith Qreals Reals R_Ifp.
From Stdlib Require Import SpecFloat.
From Stdlib Require Import Permutation Sorted.
Import ListNotations.

Local Close Scope Q_scope.
Local Close Scope R_scope.
Local Open Scope Z_scope.

(* ================================================================== *)
(** * Machine integers *)

(** Go's [int] (two's complement, 64 bits). *)
Definition min_int : Z := - 2 ^ 63.
Definition max_int : Z := 2 ^ 63 - 1.
Definition wrap_int (z : Z) : Z := (z + 2 ^ 63) mod 2 ^ 64 - 2 ^ 63.

(** Go's [uint64] and [uint32]. *)
Definition wrap_uint64 (z : Z) : Z := z mod 2 ^ 64.
Definition wrap_uint32 (z : Z) : Z := z mod 2 ^ 32.

(** Go's [int64], the carrier of [time.Duration]. *)
Definition min_int64 : Z := - 2 ^ 63.
Definition max_int64 : Z := 2 ^ 63 - 1.

(* ================================================================== *)
(** * The float64 operations the code uses *)

Class Float64Ops (F : Type) : Type := {
  (** a numeric constant of the source text, which Go keeps exact until it is
      converted to [float64] *)
  f_const : Q -> F;
  (** [float64(i)] for an integer [i] *)
  f_of_int : Z -> F;
  f_add : F -> F -> F;
  f_sub : F -> F -> F;
  f_mul : F -> F -> F;
  f_div : F -> F -> F;
  (** [math.Sqrt], [math.Floor], [math.NaN()] *)
  f_sqrt : F -> F;
  f_floor : F -> F;
  f_nan : F;
  (** [x < y] and [x == y] *)
  f_ltb : F -> F -> bool;
  f_eqb : F -> F -> bool;
  (** [int(x)]: the integer part of [x], towards zero.  [None] where the
      value does not fit an [int]: the Go specification leaves the result of
      the conversion to the implementation there. *)
  f_to_int : F -> option Z
}.

Declare Scope float_scope.
Delimit Scope float_scope with flt.
Infix ".+" := f_add (at level 50, left associativity) : float_scope.
Infix ".-" := f_sub (at level 50, left associativity) : float_scope.
Infix ".*" := f_mul (at level 40, left associativity) : float_scope.
Infix "./" := f_div (at level 40, left associativity) : float_scope.
Infix ".<" := f_ltb (at level 70, no associativity) : float_scope.
Infix ".==" := f_eqb (at level 70, no associativity) : float_scope.

(** [x > y] is [y < x]; [x != x] is how Go's [sort] package tests for NaN. *)
Definition f_gtb {F} `{Float64Ops F} (x y : F) : bool := f_ltb y x.
Definition f_isNaN {F} `{Float64Ops F} (x : F) : bool := negb (f_eqb x x).
Definition f_zero {F} `{Float64Ops F} : F := f_of_int 0.

(* ------------------------------------------------------------------ *)
(** ** IEEE-754 binary64 *)

Module B64.

Definition prec : Z := 53.
Definition emax : Z := 1024.

Definition of_int (z : Z) : spec_float := binary_normalize prec emax z 0 false.

(** The rational [n/d] rounded once to the nearest double: the division of
    the Standard Library's specification, applied to the two integers. *)
Definition of_Q (q : Q) : spec_float :=
  match Qnum q with
  | Z0 => S754_zero false
  | Zpos n => SFdiv prec emax (S754_finite false n 0) (S754_finite false (Qden q) 0)
  | Zneg n => SFdiv prec emax (S754_finite true n 0) (S754_finite false (Qden q) 0)
  end.

(** The largest integer not above [x], for a finite [x = ±m·2^e]. *)
Definition floorZ (s : bool) (m : positive) (e : Z) : Z :=
  Z.shiftl (cond_Zopp s (Zpos m)) e.

(** The integer part of [x] towards zero. *)
Definition truncZ (s : bool) (m : positive) (e : Z) : Z :=
  cond_Zopp s (Z.shiftl (Zpos m) e).

(** [math.Floor]: the special values are returned as they are. *)
Definition floor (x : spec_float) : spec_float :=
  match x with
  | S754_finite s m e => binary_normalize prec emax (floorZ s m e) 0 s
  | _ => x
  end.

Definition to_int (x : spec_float) : option Z :=
  match x with
  | S754_zero _ => Some 0
  | S754_finite s m e =>
      let z := truncZ s m e in
      if (min_int <=? z) && (z <=? max_int) then Some z else None
  | S754_infinity _ | S754_nan => None
  end.

End B64.

#[export] Instance binary64 : Float64Ops spec_float := {
  f_const := B64.of_Q;
  f_of_int := B64.of_int;
  f_add := SFadd B64.prec B64.emax;
  f_sub := SFsub B64.prec B64.emax;
  f_mul := SFmul B64.prec B64.emax;
  f_div := SFdiv B64.prec B64.emax;
  f_sqrt := SFsqrt B64.prec B64.emax;
  f_floor := B64.floor;
  f_nan := S754_nan;
  f_ltb := SFltb;
  f_eqb := SFeqb;
  f_to_int := B64.to_int
}.

(* ------------------------------------------------------------------ *)
(** ** Exact real arithmetic *)

Inductive xreal : Type :=
| Xnan : xreal
| Xreal (r : R) : xreal.

Module XR.

Definition lift2 (f : R -> R -> R) (x y : xreal) : xreal :=
  match x, y with
  | Xreal a, Xreal b => Xreal (f a b)
  | _, _ => Xnan
  end.

Definition div (x y : xreal) : xreal :=
  match x, y with
  | Xreal a, Xreal b => if Req_dec_T b 0 then Xnan else Xreal (a / b)%R
  | _, _ => Xnan
  end.

Definition sqrt (x : xreal) : xreal :=
  match x with
  | Xreal a => if Rlt_dec a 0 then Xnan else Xreal (R_sqrt.sqrt a)
  | Xnan => Xnan
  end.

Definition floor (x : xreal) : xreal :=
  match x with
  | Xreal a => Xreal (IZR (Int_part a))
  | Xnan => Xnan
  end.

Definition ltb (x y : xreal) : bool :=
  match x, y with
  | Xreal a, Xreal b => if Rlt_dec a b then true else false
  | _, _ => false
  end.

Definition eqb (x y : xreal) : bool :=
  match x, y with
  | Xreal a, Xreal b => if Req_dec_T a b then true else false
  | _, _ => false
  end.

(** The integer part towards zero. *)
Definition truncZ (a : R) : Z :=
  if Rlt_dec a 0 then (- Int_part (- a))%Z else Int_part a.

Definition to_int (x : xreal) : option Z :=
  match x with
  | Xreal a =>
      let z := truncZ a in
      if (min_int <=? z) && (z <=? max_int) then Some z else None
  | Xnan => None
  end.

End XR.

#[export] Instance exact : Float64Ops xreal := {
  f_const := fun q => Xreal (Q2R q);
  f_of_int := fun z => Xreal (IZR z);
  f_add := XR.lift2 Rplus;
  f_sub := XR.lift2 Rminus;
  f_mul := XR.lift2 Rmult;
  f_div := XR.div;
  f_sqrt := XR.sqrt;
  f_floor := XR.floor;
  f_nan := Xnan;
  f_ltb := XR.ltb;
  f_eqb := XR.eqb;
  f_to_int := XR.to_int
}.

(** A constant of the source text as a double. *)
Definition b64 (q : Q) : spec_float := f_const q.

(* ================================================================== *)
(** * metrics/ewma.go *)

Module EWMA.

(** [1 - math.Exp(-5 / 60.0)] and the like, as the source spells them. *)
Definition M1_ALPHA : Q :=
  (7995558537067670723530454779393039643764495849609 # 100000000000000000000000000000000000000000000000000)%Q.
Definition M5_ALPHA : Q :=
  (1652854617838250828043555884505622088909149169922 # 100000000000000000000000000000000000000000000000000)%Q.
Definition M15_ALPHA : Q :=
  (554015199510327072118798241717740893363952636719 # 100000000000000000000000000000000000000000000000000)%Q.

Section Def.
Context {F : Type} `{Float64Ops F}.
Local Open Scope float_scope.

Record t : Type := mk {
  interval : Z;   (* uint32: expected tick interval in seconds *)
  alpha : F;      (* the smoothing constant *)
  uncounted : F;
  rate : F
}.

Definition NewEWMA (interval : Z) (alpha : F) : t :=
  mk interval alpha f_zero f_zero.

Definition Update (self : t) (value : F) : t :=
  mk (interval self) (alpha self) (uncounted self .+ value) (rate self).

Definition Tick (self : t) : t :=
  let count := uncounted self in
  let instantRate := count ./ f_of_int (interval self) in
  if rate self .== f_zero
  then mk (interval self) (alpha self) f_zero instantRate
  else mk (interval self) (alpha self) f_zero
          (rate self .+ alpha self .* (instantRate .- rate self)).

Definition Rate (self : t) : F := rate self.

End Def.

Arguments t F : clear implicits.

Section Spec.
Context {F : Type} `{Float64Ops F}.
Local Open Scope float_scope.

(** The instantaneous rate that [Tick] computes from the accumulator. *)
Definition instantRate (e : t F) : F :=
  uncounted e ./ f_of_int (interval e).

(** What the specification says a tick after the first one does to the
    rate: [rate += alpha * (instantRate - rate)]. *)
Definition smoothed (e : t F) : F :=
  rate e .+ alpha e .* (instantRate e .- rate e).

(** The calls made on an EWMA, oldest first. *)
Inductive call : Type :=
| DoUpdate (value : F)
| DoTick.

Definition do_call (e : t F) (c : call) : t F :=
  match c with
  | DoUpdate v => Update e v
  | DoTick => Tick e
  end.

Definition calls (e : t F) (cs : list call) : t F :=
  fold_left do_call cs e.

End Spec.

End EWMA.

(* ================================================================== *)
(** * The parts of Go's [time] package that the Meter uses

A [Time] is the number of nanoseconds since the zero [Time] (January 1,
year 1, 00:00:00 UTC), which is the value of a [time.Time] field that was
never assigned.  A [Duration] is an [int64] count of nanoseconds. *)

Module time.

Definition Time : Type := Z.
Definition Duration : Type := Z.

Definition zero : Time := 0.
Definition Second : Duration := 1000000000.

(** The Unix epoch, 1970-01-01T00:00:00Z, in seconds after the zero Time. *)
Definition unixToInternal : Z := 62135596800.
Definition Unix (sec : Z) : Time := (unixToInternal + sec) * Second.

(** [t.Sub(u)]: the duration [t - u]; the largest (smallest) duration when
    the difference does not fit. *)
Definition Sub (t u : Time) : Duration :=
  let d := t - u in
  if d <? min_int64 then min_int64
  else if max_int64 <? d then max_int64
  else d.

(** [d.Seconds()]: Go's [/] and [%] on integers truncate towards zero. *)
Definition Seconds {F} `{Float64Ops F} (d : Duration) : F :=
  let sec := Z.quot d Second in
  let nsec := Z.rem d Second in
  (f_of_int sec .+ f_of_int nsec ./ f_const (1000000000 # 1))%flt.

End time.

(* ================================================================== *)
(** * The Meter *)

(** What makes a Go program stop with a run-time panic in this code. *)
Inductive panic : Type :=
| CloseOfClosedChannel
| CloseOfNilChannel
| IndexOutOfRange.

Inductive result (A : Type) : Type :=
| Ok (a : A)
| Panic (p : panic).
Arguments Ok {A} a.
Arguments Panic {A} p.

Definition bind {A B} (r : result A) (k : A -> result B) : result B :=
  match r with
  | Ok a => k a
  | Panic p => Panic p
  end.

Module Meter.

(** A pointer to the one ticker, and the one channel, that [NewMeter]
    makes; [None] is [nil]. *)
Inductive Ref : Type := Obj.

Section Def.
Context {F : Type} `{Float64Ops F}.
Local Open Scope float_scope.

Record t : Type := mk {
  m1Rate : EWMA.t F;
  m5Rate : EWMA.t F;
  m15Rate : EWMA.t F;
  count : Z;                      (* uint64 *)
  startTime : time.Time;
  ticker : option Ref;            (* *time.Ticker *)
  tickerStopChan : option Ref     (* chan bool *)
}.

(** [NewMeter]'s composite literal names five fields; [count] and
    [startTime] keep their zero values.  The interval is five seconds.
    (The Meter's source passes it to [NewEWMA] as a [time.Duration] and
    calls the constants [M1Alpha], ...; [ewma.go] takes seconds and
    calls them [M1_ALPHA], ....) *)
Definition NewMeter : t :=
  let interval := 5 in
  mk (EWMA.NewEWMA interval (f_const EWMA.M1_ALPHA))
     (EWMA.NewEWMA interval (f_const EWMA.M5_ALPHA))
     (EWMA.NewEWMA interval (f_const EWMA.M15_ALPHA))
     0 time.zero (Some Obj) (Some Obj).

Definition tick (m : t) : t :=
  mk (EWMA.Tick (m1Rate m)) (EWMA.Tick (m5Rate m)) (EWMA.Tick (m15Rate m))
     (count m) (startTime m) (ticker m) (tickerStopChan m).

Definition Update (m : t) (delta : Z) : t :=
  mk (EWMA.Update (m1Rate m) (f_of_int delta))
     (EWMA.Update (m5Rate m) (f_of_int delta))
     (EWMA.Update (m15Rate m) (f_of_int delta))
     (wrap_uint64 (count m + delta)) (startTime m) (ticker m) (tickerStopChan m).

Definition Count (m : t) : Z := count m.

(** [time.Now()] is the argument [now]. *)
Definition MeanRate (m : t) (now : time.Time) : F :=
  let tdelta := time.Sub now (startTime m) in
  let count := Count m in
  f_of_int count ./ time.Seconds tdelta.

Definition OneMinuteRate (m : t) : F := EWMA.Rate (m1Rate m).
Definition FiveMinuteRate (m : t) : F := EWMA.Rate (m5Rate m).
Definition FifteenMinuteRate (m : t) : F := EWMA.Rate (m15Rate m).

(** ** The Meter with its goroutine

[NewMeter] starts [tickWatcher] in a goroutine of its own, so a run
of the program interleaves the caller's calls with the steps of that
goroutine.  The ticker and the channel are objects on the heap: they
keep their state when the Meter's fields that point to them are set
to [nil]. *)

Inductive watcher_pc : Type :=
| AtSelect          (* in the [for] loop, blocked in [select] *)
| AfterLoop         (* left the loop, before [m.ticker = nil] *)
| TickerCleared     (* before [m.tickerStopChan = nil] *)
| Exited.

Record world : Type := mkWorld {
  meter : t;
  tickerStopped : bool;     (* the ticker object: [Stop] was called on it *)
  chanClosed : bool;        (* the channel object *)
  watcher : watcher_pc
}.

Definition start : world := mkWorld NewMeter false false AtSelect.

Definition set_meter (w : world) (m : t) : world :=
  mkWorld m (tickerStopped w) (chanClosed w) (watcher w).

(** [m.Stop()], run by the caller without interruption. *)
Definition Stop (w : world) : result world :=
  match ticker (meter w) with
  | Some _ =>
      (* m.ticker.Stop() *)
      let w1 := mkWorld (meter w) true (chanClosed w) (watcher w) in
      (* close(m.tickerStopChan) *)
      match tickerStopChan (meter w1) with
      | None => Panic CloseOfNilChannel
      | Some _ =>
          if chanClosed w1 then Panic CloseOfClosedChannel
          else Ok (mkWorld (meter w1) (tickerStopped w1) true (watcher w1))
      end
  | None => Ok w
  end.

(** One step of the goroutine that runs [tickWatcher], other than the
    receipt of a tick: the receive from the closed channel with the
    [break] out of the loop, then the two assignments. *)
Definition tickWatcher_step (w : world) : world :=
  match watcher w with
  | AtSelect =>
      if chanClosed w
      then mkWorld (meter w) (tickerStopped w) (chanClosed w) AfterLoop
      else w
  | AfterLoop =>
      let m := meter w in
      mkWorld (mk (m1Rate m) (m5Rate m) (m15Rate m) (count m) (startTime m)
                  None (tickerStopChan m))
              (tickerStopped w) (chanClosed w) TickerCleared
  | TickerCleared =>
      let m := meter w in
      mkWorld (mk (m1Rate m) (m5Rate m) (m15Rate m) (count m) (startTime m)
                  (ticker m) None)
              (tickerStopped w) (chanClosed w) Exited
  | Exited => w
  end.

(** The ticker fires and the goroutine, in its [select], takes the tick
    and runs [m.tick()]. *)
Definition ticker_fires (w : world) : world :=
  match watcher w with
  | AtSelect => if tickerStopped w then w else set_meter w (tick (meter w))
  | _ => w
  end.

Inductive event : Type :=
| CallStop
| CallUpdate (delta : Z)
| Watcher
| TickerFires.

Definition step (w : world) (e : event) : result world :=
  match e with
  | CallStop => Stop w
  | CallUpdate delta => Ok (set_meter w (Update (meter w) delta))
  | Watcher => Ok (tickWatcher_step w)
  | TickerFires => Ok (ticker_fires w)
  end.

Fixpoint run (w : world) (es : list event) : result world :=
  match es with
  | [] => Ok w
  | e :: es' => bind (step w e) (fun w' => run w' es')
  end.

End Def.

Arguments t F : clear implicits.
Arguments world F : clear implicits.

End Meter.

(* ================================================================== *)
(** * The Sample interface *)

Module Sample.

(** [type Sample interface { Clear(); Len() int; Values() []float64;
    Update(value float64) }], on a sample state [S]. *)
Class ops (F S : Type) : Type := {
  Clear : S -> S;
  Len : S -> Z;
  Values : S -> list F;
  Update : S -> F -> S
}.

(** What the specification (section 4.3) asks of every Sample, on the states
    [wf] that its constructor and its operations produce: [Clear] "resets to
    empty"; after an [Update] something is retained ("while under capacity,
    insert unconditionally", with a positive capacity); and [Values] is a Go
    slice, so its length is an [int]. *)
Class contract (F S : Type) `{ops F S} : Type := {
  wf : S -> Prop;
  wf_Clear : forall s, wf s -> wf (Clear s);
  wf_Update : forall s v, wf s -> wf (Update s v);
  Values_Clear : forall s, Values (Clear s) = [];
  Values_Update : forall s v, wf s -> Values (Update s v) <> [];
  Values_len : forall s, wf s -> Z.of_nat (length (Values s)) < max_int
}.

End Sample.

Module UniformSample.

Section Def.
Context {F : Type}.

(** Modelled from the spec: the uniform reservoir of section 4.3
    (Algorithm R), whose source file is not among the sources.  "Maintain
    capacity N and a running count of all items ever seen.  For the i-th
    item overall (1-indexed): if i <= N, always insert.  If i > N, draw a
    uniformly random integer r in [0, i); if r < N, overwrite reservoir
    slot r with the new value, otherwise discard it."  The capacity is
    positive (section 7).  The random numbers are an input: [rnd i] is
    the number drawn for the [i]-th item. *)
Record t : Type := mk {
  reservoirSize : positive;
  count : Z;
  values : list F;
  rnd : Z -> Z
}.

Definition NewUniformSample (reservoirSize : positive) (rnd : Z -> Z) : t :=
  mk reservoirSize 0 [] rnd.

Fixpoint set_nth (l : list F) (n : nat) (v : F) : list F :=
  match l, n with
  | [], _ => []
  | _ :: l', O => v :: l'
  | x :: l', S n' => x :: set_nth l' n' v
  end.

Definition Clear (s : t) : t := mk (reservoirSize s) 0 [] (rnd s).
Definition Len (s : t) : Z := Z.of_nat (length (values s)).
Definition Values (s : t) : list F := values s.
Definition Update (s : t) (value : F) : t :=
  let i := count s + 1 in
  if i <=? Zpos (reservoirSize s)
  then mk (reservoirSize s) i (values s ++ [value]) (rnd s)
  else
    let r := rnd s i mod i in
    if r <? Zpos (reservoirSize s)
    then mk (reservoirSize s) i (set_nth (values s) (Z.to_nat r) value) (rnd s)
    else mk (reservoirSize s) i (values s) (rnd s).

(** The states of a reservoir: it holds the first [reservoirSize] items
    seen, or all of them while they are fewer. *)
Definition wf (s : t) : Prop :=
  0 <= count s /\
  Z.of_nat (length (values s)) = Z.min (count s) (Zpos (reservoirSize s)) /\
  Zpos (reservoirSize s) < max_int.

End Def.

Arguments t F : clear implicits.

#[global] Instance sample_ops {F} : Sample.ops F (t F) := {
  Sample.Clear := Clear;
  Sample.Len := Len;
  Sample.Values := Values;
  Sample.Update := Update
}.

End UniformSample.

(* ================================================================== *)
(** * The Histogram *)

Module Histogram.

Section Def.
Context {F : Type} `{Float64Ops F}.
Context {S : Type} `{Sample.ops F S}.
Local Open Scope float_scope.

Record t : Type := mk {
  sample : S;
  min : F;
  max : F;
  sum : F;
  count : Z;          (* int *)
  varianceM : F;
  varianceS : F
}.

Definition NewHistogram (sample : S) : t :=
  mk sample f_zero f_zero f_zero 0 f_zero f_zero.

Definition Clear (self : t) : t :=
  mk (Sample.Clear (sample self)) f_zero f_zero f_zero 0 f_zero f_zero.

Definition Update (self : t) (value : F) : t :=
  let count := wrap_int (count self + 1) in
  let sum := sum self .+ value in
  let sample := Sample.Update (sample self) value in
  if count =? 1 then
    mk sample value value sum count value (varianceS self)
  else
    let min := if value .< min self then value else min self in
    let max := if f_gtb value (max self) then value else max self in
    let old_m := varianceM self in
    let new_m := old_m .+ ((value .- old_m) ./ f_of_int count) in
    mk sample min max sum count new_m
       (varianceS self .+ (value .- old_m) .* (value .- new_m)).

Definition Count (self : t) : Z := count self.

Definition Sum (self : t) : F := sum self.

Definition Min (self : t) : F :=
  if count self =? 0 then f_nan else min self.

Definition Max (self : t) : F :=
  if count self =? 0 then f_nan else max self.

Definition Mean (self : t) : F :=
  if 0 <? count self then sum self ./ f_of_int (count self) else f_zero.

Definition StdDev (self : t) : F :=
  if 0 <? count self
  then f_sqrt (varianceS self ./ f_of_int (wrap_int (count self - 1)))
  else f_zero.

Definition Variance (self : t) : F :=
  if count self <=? 1 then f_zero
  else varianceS self ./ f_of_int (wrap_int (count self - 1)).

(** [sort.Float64Slice.Less]: ascending, NaN before the other values. *)
Definition Less (x y : F) : bool :=
  (x .< y) || (f_isNaN x && negb (f_isNaN y)).

(** [sort.Sort] on a [sort.Float64Slice], as an insertion sort.  Go's
    sort is not stable: values that [Less] does not tell apart (the two
    zeros of binary64) may come out in the other order.  [Values] returns
    a snapshot (section 4.3 of the specification), so sorting it leaves the
    Sample as it is. *)
Fixpoint insert (x : F) (l : list F) : list F :=
  match l with
  | [] => [x]
  | y :: l' => if Less y x then y :: insert x l' else x :: y :: l'
  end.

Fixpoint sort (l : list F) : list F :=
  match l with
  | [] => []
  | x :: l' => insert x (sort l')
  end.

(** [values[k]]: an index out of range panics. *)
Definition index (values : list F) (k : Z) : result F :=
  if k <? 0 then Panic IndexOutOfRange
  else match nth_error values (Z.to_nat k) with
       | Some v => Ok v
       | None => Panic IndexOutOfRange
       end.

Definition len (values : list F) : Z := Z.of_nat (length values).

(** [int(x)]; [int_impl] is what the implementation gives where [x] does
    not fit an [int]. *)
Variable int_impl : F -> Z.

Definition int (x : F) : Z :=
  match f_to_int x with
  | Some z => z
  | None => int_impl x
  end.

(** The body of the loop of [Percentiles]: the score for [p]. *)
Definition score (values : list F) (p : F) : result F :=
  let pos := p .* f_of_int (wrap_int (len values + 1)) in
  let ipos := int pos in
  if ipos <? 1 then index values 0
  else if len values <=? ipos then index values (wrap_int (len values - 1))
  else
    bind (index values (wrap_int (ipos - 1))) (fun lower =>
    bind (index values ipos) (fun upper =>
    Ok (lower .+ (pos .- f_floor pos) .* (upper .- lower)))).

Fixpoint scores_of (values : list F) (percentiles : list F) : result (list F) :=
  match percentiles with
  | [] => Ok []
  | p :: ps =>
      bind (score values p) (fun s =>
      bind (scores_of values ps) (fun ss => Ok (s :: ss)))
  end.

Definition Percentiles (self : t) (percentiles : list F) : result (list F) :=
  let scores := repeat f_zero (length percentiles) in
  if count self =? 0 then Ok scores
  else
    let values := sort (Sample.Values (sample self)) in
    scores_of values percentiles.

Definition Values (self : t) : list F := Sample.Values (sample self).

(** ** What the properties are stated on *)

(** The Histogram after the calls [Update(v)] for the [v] in [vs], in
    order. *)
Definition updates (self : t) (vs : list F) : t := fold_left Update vs self.

(** The Histograms that the constructor and the two mutators produce. *)
Inductive reachable `{!Sample.contract F S} : t -> Prop :=
| reach_New : forall s, Sample.wf s -> reachable (NewHistogram s)
| reach_Update : forall h v, reachable h -> reachable (Update h v)
| reach_Clear : forall h, reachable h -> reachable (Clear h).

End Def.

Arguments t F S : clear implicits.

End Histogram.

(** A reservoir of 1028 floats, as [NewUnbiasedHistogram] makes it; the
    random numbers are all 0. *)
Definition sample1028 : UniformSample.t spec_float :=
  UniformSample.NewUniformSample 1028 (fun _ => 0).

(** What the Go implementation on amd64 gives for [int(x)] where [x] does
    not fit: the smallest [int]. *)
Definition amd64 (x : spec_float) : Z := min_int.

(* ================================================================== *)
(** * The statistics that the specification names, over the reals *)

Module Stats.
Local Open Scope R_scope.

(** [v1 + ... + vn] *)
Definition Rsum (rs : list R) : R := fold_right Rplus 0 rs.

Definition n_of (rs : list R) : R := INR (length rs).

Definition mean (rs : list R) : R := Rsum rs / n_of rs.

(** The sum of the squared deviations from the mean. *)
Definition sum_sq_dev (rs : list R) : R :=
  Rsum (map (fun x => (x - mean rs) * (x - mean rs)) rs).

(** [v1^2 + ... + vn^2] *)
Definition Rsumsq (rs : list R) : R := Rsum (map (fun x => x * x) rs).

(** The sample variance: the divisor is [n - 1]. *)
Definition sample_variance (rs : list R) : R := sum_sq_dev rs / (n_of rs - 1).

Definition is_min (rs : list R) (m : R) : Prop :=
  In m rs /\ forall x, In x rs -> m <= x.

Definition is_max (rs : list R) (m : R) : Prop :=
  In m rs /\ forall x, In x rs -> x <= m.

(** The element of rank [k] (from 1) of a list. *)
Definition at_rank (l : list R) (k : Z) (v : R) : Prop :=
  (1 <= k)%Z /\ nth_error l (Z.to_nat (k - 1)) = Some v.

(** The percentile of section 4.4, on the snapshot sorted ascending:
    [pos = p * (n + 1)]; the minimum if [pos < 1]; the maximum if
    [pos >= n]; otherwise the interpolation between the elements of ranks
    [floor(pos)] and [floor(pos) + 1], weighted by the fractional part of
    [pos]. *)
Definition percentile (sorted : list R) (p : R) (r : R) : Prop :=
  let n := n_of sorted in
  let pos := p * (n + 1) in
  (pos < 1 -> is_min sorted r) /\
  (n <= pos -> is_max sorted r) /\
  (1 <= pos < n ->
   exists lower upper,
     at_rank sorted (Int_part pos) lower /\
     at_rank sorted (Int_part pos + 1) upper /\
     r = lower + (pos - IZR (Int_part pos)) * (upper - lower)).

(** The percentiles whose position [p * (n + 1)] is in the range of
    [int]. *)
Definition in_int_range (n : R) (p : R) : Prop :=
  IZR min_int <= p * (n + 1) < IZR max_int + 1.

(** The numbers [1, 2, ..., n]. *)
Definition one_to (n : nat) : list R := map (fun k => IZR (Z.of_nat k)) (seq 1 n).

End Stats.

(** The state of a Histogram that has seen the real numbers [rs]: what the
    specification says its fields hold. *)
Definition welford {S : Type} (rs : list R) (h : Histogram.t xreal S) : Prop :=
  Histogram.count h = Z.of_nat (length rs) /\
  Histogram.sum h = Xreal (Stats.Rsum rs) /\
  (exists m, Histogram.min h = Xreal m /\ Stats.is_min rs m) /\
  (exists m, Histogram.max h = Xreal m /\ Stats.is_max rs m) /\
  Histogram.varianceM h = Xreal (Stats.mean rs) /\
  Histogram.varianceS h = Xreal (Stats.sum_sq_dev rs).

(** The reservoir of 1028 values, in exact arithmetic. *)
Definition sample1028x : UniformSample.t xreal :=
  UniformSample.NewUniformSample 1028 (fun _ => 0).

(** The Histogram of the specification's example: a reservoir of 1028
    doubles fed 1, 2, ..., 100. *)
Definition h100 : Histogram.t spec_float (UniformSample.t spec_float) :=
  Histogram.updates (Histogram.NewHistogram sample1028)
    (map (fun k => f_of_int (Z.of_nat k)) (seq 1 100)).

(* ================================================================== *)
(** * Periods of an EWMA *)

(** One period of an EWMA: the events of the period are counted by one
    [Update], then comes the [Tick]. *)
Definition EWMA_period {F} `{Float64Ops F} (value : F) (e : EWMA.t F) : EWMA.t F :=
  EWMA.Tick (EWMA.Update e value).

(** A double that is a number: a zero or a finite value. *)
Definition is_number (x : spec_float) : bool :=
  match x with
  | S754_zero _ | S754_finite _ _ _ => true
  | S754_infinity _ | S754_nan => false
  end.

(** What a schedule of a Meter asks for: the sum of the deltas of its
    [Update]s, the number of its [Stop]s, whether the ticker fires in it. *)
Fixpoint deltas (es : list Meter.event) : Z :=
  match es with
  | [] => 0
  | Meter.CallUpdate delta :: es' => delta + deltas es'
  | _ :: es' => deltas es'
  end.

Fixpoint stops (es : list Meter.event) : nat :=
  match es with
  | [] => O
  | Meter.CallStop :: es' => S (stops es')
  | _ :: es' => stops es'
  end.

Fixpoint fires (es : list Meter.event) : bool :=
  match es with
  | [] => false
  | Meter.TickerFires :: _ => true
  | _ :: es' => fires es'
  end.

(** The three rates of a Meter. *)
Definition rates {F} `{Float64Ops F} (m : Meter.t F) : F * F * F :=
  (Meter.OneMinuteRate m, Meter.FiveMinuteRate m, Meter.FifteenMinuteRate m).

(** What the fields [min] and [max] of a Histogram hold after the doubles
    [vs]. *)
Definition extremes {S : Type} (vs : list spec_float) (h : Histogram.t spec_float S) : Prop :=
  Histogram.count h = Z.of_nat (length vs) /\
  In (Histogram.min h) vs /\ In (Histogram.max h) vs /\
  forall x, In x vs ->
    SFltb x (Histogram.min h) = false /\ SFltb (Histogram.max h) x = false.

(** A Histogram, in exact arithmetic, that was fed 3, 1 and 2. *)
Definition h312 : Histogram.t xreal (UniformSample.t xreal) :=
  Histogram.updates (Histogram.NewHistogram sample1028x) (map Xreal [3; 1; 2]%R).

(* ================================================================== *)
(** * The StatHat reporter *)

From Stdlib Require String Ascii.

Module StatHatReporter.
Import Ascii String.

(** [strings.Replace(name, "/", ".", -1)]: every slash becomes a dot. *)
Fixpoint dots (name : string) : string :=
  match name with
  | EmptyString => EmptyString
  | String c rest => String (if Ascii.eqb c "/"%char then "."%char else c) (dots rest)
  end.

(** [map[string]int]: the last binding of a key counts, and a key without
    binding reads as 0. *)
Definition counters : Type := list (string * Z).

Definition get (m : counters) (key : string) : Z :=
  match find (fun kv => String.eqb (fst kv) key) m with
  | Some kv => snd kv
  | None => 0
  end.

Definition set (m : counters) (key : string) (v : Z) : counters := (key, v) :: m.

(** What stops a reporter: a panic of the Go run time, or the panic of
    [time.NewTicker] on an interval that is not positive. *)
Inductive fault : Type :=
| Panics (p : panic)
| NewTickerPanics.

Inductive outcome (A : Type) : Type :=
| Done (a : A)
| Fault (f : fault).
Arguments Done {A} a.
Arguments Fault {A} f.

Section Def.
Context {F : Type} `{Float64Ops F}.
Context {S : Type} `{Sample.ops F S}.

(** [metrics.DefaultPercentiles] and [metrics.DefaultPercentileNames] are
    declared in a file that is not among the sources, as are the types of
    the metrics that are not structs of this development. *)
Variable DefaultPercentiles : list F.
Variable DefaultPercentileNames : list string.
Variable int_impl : F -> Z.

(** The metrics that the registry hands to the reporter, by the cases of
    its type switch, each with what the case reads from it: the integer of
    a [CounterValue], the [float64] of a [GaugeValue], the [Count()] of a
    [Counter]. *)
Inductive metric : Type :=
| CounterValue (m : Z)
| GaugeValue (m : F)
| Counter (count : Z)
| AnEWMA (m : EWMA.t F)
| AMeter (m : Meter.t F)
| AHistogram (m : Histogram.t F S)
| Unrecognized.

(** The calls to the StatHat client: [PostEZCount(statName, email, count)]
    and [PostEZValue(statName, email, value)].  Their errors are logged and
    have no other effect. *)
Inductive post : Type :=
| PostEZCount (statName email : string) (count : Z)
| PostEZValue (statName email : string) (value : F).

Record t : Type := mk {
  source : string;
  email : string;
  interval : time.Duration;
  ticker : option nat;        (* *time.Ticker: the ticker's address *)
  closeChan : option nat;     (* chan bool: the channel's address *)
  percentiles : list F;
  percentileNames : list string;
  previousCounters : counters
}.

(** [percentiles] is the map in the order in which [range] goes through
    it, [None] for [nil]. *)
Definition NewStatHatReporter (interval : time.Duration) (email source : string)
    (percentiles : option (list (string * F))) : t :=
  let per :=
    match percentiles with
    | None => DefaultPercentiles
    | Some m => map snd m
    end in
  let perNames :=
    match percentiles with
    | None => DefaultPercentileNames
    | Some m => map fst m
    end in
  mk source email interval None None per perNames [].

(** ** Start and Stop

The tickers and the channels that [Start] makes live on the heap:
[tickers] tells of each ticker whether it was stopped, [chans] of each
channel whether it was closed; [goroutines] counts the goroutines
started. *)

Record world : Type := mkWorld {
  reporter : t;
  tickers : list bool;
  chans : list bool;
  goroutines : nat
}.

Fixpoint mark (l : list bool) (n : nat) : list bool :=
  match l, n with
  | [], _ => []
  | _ :: l', O => true :: l'
  | b :: l', Datatypes.S n' => b :: mark l' n'
  end.

Definition with_pointers (r : t) (tk ch : option nat) : t :=
  mk (source r) (email r) (interval r) tk ch
     (percentiles r) (percentileNames r) (previousCounters r).

Definition Start (w : world) : outcome world :=
  let r := reporter w in
  match ticker r with
  | None =>
      (* time.NewTicker(r.interval) *)
      if interval r <=? 0 then Fault NewTickerPanics
      else
        let tk := List.length (tickers w) in
        (* make(chan bool) *)
        let ch := List.length (chans w) in
        Done (mkWorld (with_pointers r (Some tk) (Some ch))
                      (tickers w ++ [false]) (chans w ++ [false])
                      (Datatypes.S (goroutines w)))
  | Some _ => Done w
  end.

Definition Stop (w : world) : outcome world :=
  let r := reporter w in
  match ticker r with
  | Some tk =>
      (* r.ticker.Stop() *)
      let tickers' := mark (tickers w) tk in
      (* close(r.closeChan) *)
      match closeChan r with
      | None => Fault (Panics CloseOfNilChannel)
      | Some ch =>
          if nth ch (chans w) false then Fault (Panics CloseOfClosedChannel)
          else
            (* r.ticker = nil *)
            Done (mkWorld (with_pointers r None (closeChan r))
                          tickers' (mark (chans w) ch) (goroutines w))
      end
  | None => Done w
  end.

Inductive call : Type := CallStart | CallStop.

Definition do_call (w : world) (c : call) : outcome world :=
  match c with
  | CallStart => Start w
  | CallStop => Stop w
  end.

Fixpoint run (w : world) (cs : list call) : outcome world :=
  match cs with
  | [] => Done w
  | c :: cs' =>
      match do_call w c with
      | Done w' => run w' cs'
      | Fault f => Fault f
      end
  end.

Definition start (r : t) : world := mkWorld r [] [] O.

(** ** The function that the goroutine gives to [registry.Do] *)

(** The two counter cases, from [count]: the difference to the previous
    count of the name is posted, and [count] becomes the previous one. *)
Definition report_count (r : t) (name : string) (count : Z) : t * list post :=
  let prev := get (previousCounters r) name in
  (mk (source r) (email r) (interval r) (ticker r) (closeChan r)
      (percentiles r) (percentileNames r) (set (previousCounters r) name count),
   [PostEZCount name (email r) (wrap_int (count - prev))]).

(** [for i, perc := range percentiles { ... r.percentileNames[i] ... }]:
    the posts made, and the panic when a name is missing. *)
Fixpoint post_percentiles (name email : string) (names : list string)
    (scores : list F) : list post * option panic :=
  match scores, names with
  | [], _ => ([], None)
  | _ :: _, [] => ([], Some IndexOutOfRange)
  | perc :: scores', n :: names' =>
      let '(posts, p) := post_percentiles name email names' scores' in
      (PostEZValue (name ++ "." ++ n) email perc :: posts, p)
  end.

(** The post of one percentile of a Histogram: the stat is the name of the
    Histogram, a dot and the name of the percentile. *)
Definition percentile_post (name email : string) (named_score : string * F) : post :=
  PostEZValue (name ++ "." ++ fst named_score) email (snd named_score).

(** One call of the function: the reporter after it, the posts made, and
    the panic that ended it, if one did. *)
Definition report (r : t) (name : string) (m : metric) : t * list post * option panic :=
  let name := dots name in
  match m with
  | CounterValue m =>
      let count := wrap_int m in
      let '(r', posts) := report_count r name count in (r', posts, None)
  | GaugeValue m => (r, [PostEZValue name (email r) m], None)
  | Counter c =>
      let count := wrap_int c in
      let '(r', posts) := report_count r name count in (r', posts, None)
  | AnEWMA m => (r, [PostEZValue name (email r) (EWMA.Rate m)], None)
  | AMeter m =>
      (r, [PostEZValue (name ++ ".1m") (email r) (Meter.OneMinuteRate m);
           PostEZValue (name ++ ".5m") (email r) (Meter.FiveMinuteRate m);
           PostEZValue (name ++ ".15m") (email r) (Meter.FifteenMinuteRate m)], None)
  | AHistogram m =>
      let count := Histogram.Count m in
      if 0 <? count then
        let mean := PostEZValue (name ++ ".mean") (email r) (Histogram.Mean m) in
        match Histogram.Percentiles int_impl m (percentiles r) with
        | Panic p => (r, [mean], Some p)
        | Ok scores =>
            let '(posts, p) :=
              post_percentiles name (email r) (percentileNames r) scores in
            (r, mean :: posts, p)
        end
      else (r, [], None)
  | Unrecognized => (r, [], None)
  end.

(** [registry.Do]: the function is called on each named metric in turn; a
    panic ends the run. *)
Fixpoint report_all (r : t) (items : list (string * metric)) : t * list post * option panic :=
  match items with
  | [] => (r, [], None)
  | (name, m) :: items' =>
      match report r name m with
      | (r', posts, Some p) => (r', posts, Some p)
      | (r', posts, None) =>
          let '(r'', posts', p) := report_all r' items' in
          (r'', posts ++ posts', p)
      end
  end.

(** The counts posted under a stat name. *)
Fixpoint counts_posted (statName : string) (posts : list post) : list Z :=
  match posts with
  | [] => []
  | PostEZCount n _ count :: posts' =>
      if String.eqb n statName then count :: counts_posted statName posts'
      else counts_posted statName posts'
  | PostEZValue _ _ _ :: posts' => counts_posted statName posts'
  end.

End Def.

Arguments t F : clear implicits.
Arguments world F : clear implicits.
Arguments metric F S : clear implicits.
Arguments post F : clear implicits.

End StatHatReporter.

(** The count that the last counter reported under a stat name had, 0 when
    none was reported. *)
Fixpoint last_count {F S : Type} (statName : String.string)
    (items : list (String.string * StatHatReporter.metric F S)) (before : Z) : Z :=
  match items with
  | [] => before
  | (name, StatHatReporter.CounterValue m) :: items' =>
      last_count statName items'
        (if String.eqb (StatHatReporter.dots name) statName then wrap_int m else before)
  | (name, StatHatReporter.Counter c) :: items' =>
      last_count statName items'
        (if String.eqb (StatHatReporter.dots name) statName then wrap_int c else before)
  | _ :: items' => last_count statName items' before
  end.

(** The channels of a reporter that are not closed. *)
Definition open_channels {F : Type} (w : StatHatReporter.world F) : nat :=
  length (filter negb (StatHatReporter.chans w)).

(** The tickers of a reporter that are not stopped. *)
Definition running_tickers {F : Type} (w : StatHatReporter.world F) : nat :=
  length (filter negb (StatHatReporter.tickers w)).

(** The sum of a list of integers. *)
Definition sumZ (l : list Z) : Z := fold_right Z.add 0 l.

(** The previous counts of a reporter are ints. *)
Definition all_int (m : StatHatReporter.counters) : Prop :=
  forall k, wrap_int (StatHatReporter.get m k) = StatHatReporter.get m k.

(** The worlds that [Start] and [Stop] produce: all the tickers and
    channels made are stopped and closed, but the last ones while the
    reporter runs. *)
Inductive lifecycle {F : Type} : StatHatReporter.world F -> bool -> Prop :=
| life_stopped : forall w,
    StatHatReporter.ticker (StatHatReporter.reporter w) = None ->
    Forall (eq true) (StatHatReporter.tickers w) -> Forall (eq true) (StatHatReporter.chans w) ->
    lifecycle w false
| life_running : forall w tl cl,
    StatHatReporter.ticker (StatHatReporter.reporter w) = Some (length tl) ->
    StatHatReporter.closeChan (StatHatReporter.reporter w) = Some (length cl) ->
    StatHatReporter.tickers w = tl ++ [false] -> StatHatReporter.chans w = cl ++ [false] ->
    Forall (eq true) tl -> Forall (eq true) cl ->
    lifecycle w true.


(** Every Histogram among the metrics is one that [NewHistogram], [Update]
    and [Clear] produce. *)
Definition histograms_reachable {F S : Type} `{Float64Ops F} `{Sample.ops F S}
    `{!Sample.contract F S}
    (items : list (String.string * StatHatReporter.metric F S)) : Prop :=
  Forall (fun item =>
            match snd item with
            | StatHatReporter.AHistogram h => Histogram.reachable h
            | _ => True
            end) items.

(** The steps of the goroutine of a Meter in a schedule, and those that
    come after the first [Stop]. *)
Fixpoint watcher_steps (es : list Meter.event) : nat :=
  match es with
  | [] => O
  | Meter.Watcher :: es' => S (watcher_steps es')
  | _ :: es' => watcher_steps es'
  end.

Fixpoint watcher_steps_after_Stop (es : list Meter.event) : nat :=
  match es with
  | [] => O
  | Meter.CallStop :: es' => watcher_steps es'
  | _ :: es' => watcher_steps_after_Stop es'
  end.

(** Where [tickWatcher] is after its channel was closed and it has made
    [n] steps. *)
Definition pc_after (n : nat) : Meter.watcher_pc :=
  match n with
  | 0%nat => Meter.AtSelect
  | 1%nat => Meter.AfterLoop
  | 2%nat => Meter.TickerCleared
  | _ => Meter.Exited
  end.

(** A Meter that was not stopped, and one that was stopped [n] steps of
    its goroutine ago. *)
Definition not_stopped {F} `{Float64Ops F} (w : Meter.world F) : Prop :=
  Meter.watcher w = Meter.AtSelect /\
  Meter.ticker (Meter.meter w) <> None /\ Meter.tickerStopChan (Meter.meter w) <> None /\
  Meter.tickerStopped w = false /\ Meter.chanClosed w = false.

Definition stopped {F} `{Float64Ops F} (w : Meter.world F) (n : nat) : Prop :=
  Meter.tickerStopped w = true /\ Meter.chanClosed w = true /\
  Meter.watcher w = pc_after n /\
  (Meter.ticker (Meter.meter w) = None <-> (2 <= n)%nat) /\
  (Meter.tickerStopChan (Meter.meter w) = None <-> (3 <= n)%nat).

(** The calls that change an EWMA, and a sequence of them. *)
Inductive EWMA_call (F : Type) : Type :=
| EWMA_Update (value : F)
| EWMA_Tick.
Arguments EWMA_Update {F} value.
Arguments EWMA_Tick {F}.

Definition EWMA_do {F} `{Float64Ops F} (e : EWMA.t F) (c : EWMA_call F) : EWMA.t F :=
  match c with
  | EWMA_Update value => EWMA.Update e value
  | EWMA_Tick => EWMA.Tick e
  end.

Definition EWMA_calls {F} `{Float64Ops F} (e : EWMA.t F) (cs : list (EWMA_call F)) : EWMA.t F :=
  fold_left EWMA_do cs e.

(* ================================================================== *)
(** * Meter.Stop, statement by statement *)

(** [Stop] reads [m.ticker] twice and [m.tickerStopChan] once, with no
    synchronisation, and the goroutine that runs [tickWatcher] sets both
    fields to nil once it has left its loop.  Here the caller runs a
    program of calls one statement at a time, and the steps of the
    goroutine come in between any two of them; the memory is taken as
    sequentially consistent. *)

Module Statements.

(** What ends a run: a panic of the run time on a channel, or the call of
    the ticker's [Stop] on a nil pointer, which dereferences it. *)
Inductive fault : Type :=
| Panics (p : panic)
| NilDereference.

Inductive outcome (A : Type) : Type :=
| Done (a : A)
| Fault (f : fault).
Arguments Done {A} a.
Arguments Fault {A} f.

(** The calls of the caller's program. *)
Inductive call : Type :=
| CallStop
| CallUpdate (delta : Z).

(** Where the caller is in [Stop]. *)
Inductive stop_pc : Type :=
| Outside          (* between two calls *)
| Tested           (* [m.ticker != nil] was true; before [m.ticker.Stop()] *)
| TickerStopped.   (* before [close(m.tickerStopChan)] *)

(** Who makes the next step: the caller, the goroutine of [tickWatcher],
    or the goroutine as it takes a tick in its [select]. *)
Inductive event : Type :=
| Caller
| Goroutine
| Tick.

Section Def.
Context {F : Type} `{Float64Ops F}.

Record world : Type := mkWorld {
  shared : Meter.world F;
  pc : stop_pc;
  program : list call
}.

Definition start (prog : list call) : world :=
  mkWorld Meter.start Outside prog.

(** The next statement of the caller.  [Update] neither reads nor writes
    the two pointers and is taken as one step. *)
Definition caller_step (w : world) : outcome world :=
  let s := shared w in
  match pc w with
  | Outside =>
      match program w with
      | [] => Done w
      | CallUpdate delta :: rest =>
          Done (mkWorld (Meter.set_meter s (Meter.Update (Meter.meter s) delta))
                        Outside rest)
      | CallStop :: rest =>
          (* if m.ticker != nil *)
          match Meter.ticker (Meter.meter s) with
          | Some _ => Done (mkWorld s Tested rest)
          | None => Done (mkWorld s Outside rest)
          end
      end
  | Tested =>
      (* m.ticker.Stop() *)
      match Meter.ticker (Meter.meter s) with
      | Some _ =>
          Done (mkWorld (Meter.mkWorld (Meter.meter s) true (Meter.chanClosed s)
                                       (Meter.watcher s))
                        TickerStopped (program w))
      | None => Fault NilDereference
      end
  | TickerStopped =>
      (* close(m.tickerStopChan) *)
      match Meter.tickerStopChan (Meter.meter s) with
      | Some _ =>
          if Meter.chanClosed s then Fault (Panics CloseOfClosedChannel)
          else Done (mkWorld (Meter.mkWorld (Meter.meter s) (Meter.tickerStopped s) true
                                            (Meter.watcher s))
                             Outside (program w))
      | None => Fault (Panics CloseOfNilChannel)
      end
  end.

(** The goroutine takes a tick: one that the ticker sends, or, after
    [m.ticker.Stop()], one that was waiting in the ticker's channel. *)
Definition take_tick (s : Meter.world F) : Meter.world F :=
  match Meter.watcher s with
  | Meter.AtSelect => Meter.set_meter s (Meter.tick (Meter.meter s))
  | _ => s
  end.

Definition step (w : world) (e : event) : outcome world :=
  match e with
  | Caller => caller_step w
  | Goroutine => Done (mkWorld (Meter.tickWatcher_step (shared w)) (pc w) (program w))
  | Tick => Done (mkWorld (take_tick (shared w)) (pc w) (program w))
  end.

Fixpoint run (w : world) (es : list event) : outcome world :=
  match es with
  | [] => Done w
  | e :: es' =>
      match step w e with
      | Done w' => run w' es'
      | Fault f => Fault f
      end
  end.

(** The calls of [Stop] in a program. *)
Fixpoint Stop_calls (prog : list call) : nat :=
  match prog with
  | [] => O
  | CallStop :: rest => S (Stop_calls rest)
  | CallUpdate _ :: rest => Stop_calls rest
  end.

(** While the channel is open the goroutine is in its loop and both
    pointers are set. *)
Definition pointers_set (w : world) : Prop :=
  Meter.chanClosed (shared w) = false ->
  Meter.watcher (shared w) = Meter.AtSelect /\
  Meter.ticker (Meter.meter (shared w)) <> None /\
  Meter.tickerStopChan (Meter.meter (shared w)) <> None.

(** The calls of [Stop] that the program must still hold for a run from
    [w] to fail. *)
Definition Stops_needed (w : world) : nat :=
  match Meter.chanClosed (shared w), pc w with
  | true, Outside => 1
  | true, _ => 0
  | false, Outside => 2
  | false, _ => 1
  end.

End Def.

Arguments world F : clear implicits.

End Statements.

(* ================================================================== *)
(** * Properties *)

(* ------------------------------------------------------------------ *)
(** ** EWMA *)

Section EWMA_facts.
Import EWMA.
Local Open Scope float_scope.

Lemma updates_keep_rate {F} `{Float64Ops F} (vs : list F) (e : EWMA.t F) :
  rate (fold_left Update vs e) = rate e.
Proof.
  revert e; induction vs as [|v vs IH]; intro e; simpl; [reflexivity|].
  rewrite IH. reflexivity.
Qed.

(** C1, as the specification states it, fails: one tick has been made, so
    the next one is a later tick, and yet it stores the instantaneous rate
    2 instead of smoothing towards it, because the rate is still 0. *)
Lemma C1_later_tick_not_smoothed :
  let history := [DoTick; DoUpdate (b64 10)] in
  let e := calls (NewEWMA 5 (b64 M1_ALPHA)) history in
  In DoTick history /\
  Rate (Tick e) = b64 2 /\
  smoothed e = S754_finite false 5761407111705112 (-55) /\
  Rate (Tick e) <> smoothed e.
Proof.
  cbv zeta. split; [left; reflexivity|].
  split; [vm_compute; reflexivity|].
  split; [vm_compute; reflexivity|].
  vm_compute. discriminate.
Qed.

(** C1, amended: [Tick] turns the accumulator into the instantaneous rate
    [uncounted / interval], resets the accumulator to zero, and stores the
    instantaneous rate when the current rate equals 0, which is the case
    at the first tick of a new EWMA whatever was accumulated; when the
    current rate is not 0 it adds [alpha * (instantRate - rate)] to the
    rate. *)
Theorem C1_tick (e : EWMA.t spec_float) (i : Z) (a : spec_float)
    (vs : list spec_float) :
  uncounted (Tick e) = S754_zero false /\
  interval (Tick e) = interval e /\
  alpha (Tick e) = alpha e /\
  Rate (Tick e) = (if rate e .== S754_zero false then instantRate e else smoothed e) /\
  Rate (Tick (fold_left Update vs (NewEWMA i a))) =
    instantRate (fold_left Update vs (NewEWMA i a)).
Proof.
  repeat split.
  - unfold Tick. destruct (rate e .== f_zero); reflexivity.
  - unfold Tick. destruct (rate e .== f_zero); reflexivity.
  - unfold Tick. destruct (rate e .== f_zero); reflexivity.
  - unfold Tick, Rate. change (@f_zero spec_float _) with (S754_zero false).
    destruct (rate e .== S754_zero false); reflexivity.
  - unfold Tick, Rate. rewrite updates_keep_rate. reflexivity.
Qed.

End EWMA_facts.

(* ------------------------------------------------------------------ *)
(** ** Meter: Stop *)

Section Meter_stop.
Import Meter.

(** Once the goroutine has set [m.ticker] to [nil], [Stop] does nothing. *)
Lemma Stop_after_cleanup {F} `{Float64Ops F} (w : world F) :
  ticker (meter w) = None -> Stop w = Ok w.
Proof. intro E. unfold Stop. rewrite E. reflexivity. Qed.

Lemma Stop_twice_after_cleanup :
  run (F := spec_float) start [CallStop; Watcher; Watcher; CallStop] =
  run start [CallStop; Watcher; Watcher].
Proof. vm_compute. reflexivity. Qed.

(** In whatever state a [Stop] finds the ticker and goes through, a [Stop]
    that follows it at once panics. *)
Lemma Stop_again_panics {F} `{Float64Ops F} (w w' : world F) :
  ticker (meter w) <> None -> Stop w = Ok w' ->
  Stop w' = Panic CloseOfClosedChannel.
Proof.
  unfold Stop. destruct (ticker (meter w)) eqn:Et; [intros _|contradiction].
  simpl. destruct (tickerStopChan (meter w)) eqn:Ec; [|discriminate].
  destruct (chanClosed w); [discriminate|].
  intro E. inversion E; subst; clear E. simpl. rewrite Et, Ec. reflexivity.
Qed.

(** C2: the code does not do what the claim says.  A second [Stop] that
    comes before the goroutine of [tickWatcher] has set [m.ticker] to
    [nil] finds the ticker still there and closes the channel a second
    time, which panics; it does so too when the goroutine has only left
    its loop. *)
Theorem C2_second_Stop_panics :
  run (F := spec_float) start [CallStop; CallStop] = Panic CloseOfClosedChannel /\
  run (F := spec_float) start [CallStop; Watcher; CallStop] = Panic CloseOfClosedChannel /\
  (exists w, run (F := spec_float) start [CallStop] = Ok w /\
             ticker (meter w) = Some Obj /\ chanClosed w = true).
Proof.
  split; [vm_compute; reflexivity|].
  split; [vm_compute; reflexivity|].
  eexists. split; [vm_compute; reflexivity|]. split; reflexivity.
Qed.

End Meter_stop.

(* ------------------------------------------------------------------ *)
(** ** binary64: the conversion of a positive integer is not zero *)

Section B64_of_int.

Lemma digits2_pos_lt (p : positive) : Zpos p < 2 ^ Zpos (digits2_pos p).
Proof.
  induction p as [p IH|p IH|]; simpl digits2_pos.
  - rewrite Pos2Z.inj_succ, Z.pow_succ_r by lia. lia.
  - rewrite Pos2Z.inj_succ, Z.pow_succ_r by lia. lia.
  - reflexivity.
Qed.

Lemma digits2_pos_le (p : positive) : 2 ^ Zpos (digits2_pos p) <= 2 * Zpos p.
Proof.
  induction p as [p IH|p IH|]; simpl digits2_pos.
  - rewrite Pos2Z.inj_succ, Z.pow_succ_r by lia. lia.
  - rewrite Pos2Z.inj_succ, Z.pow_succ_r by lia. lia.
  - simpl. lia.
Qed.

Lemma shr_1_m (r : shr_record) : 0 <= shr_m r -> shr_m (shr_1 r) = shr_m r / 2.
Proof.
  destruct r as [m b s]. simpl shr_m. intro Hm.
  destruct m as [|p|p]; [reflexivity| |lia].
  destruct p as [p|p|]; simpl shr_m.
  - rewrite Pos2Z.inj_xI. apply Z.div_unique with (r := 1); lia.
  - rewrite Pos2Z.inj_xO. apply Z.div_unique with (r := 0); lia.
  - reflexivity.
Qed.

Lemma pow2_xO (n : positive) : 2 ^ Zpos n~0 = 2 ^ Zpos n * 2 ^ Zpos n.
Proof. rewrite <- Z.pow_add_r by lia. f_equal. lia. Qed.

Lemma pow2_xI (n : positive) : 2 ^ Zpos n~1 = 2 * (2 ^ Zpos n * 2 ^ Zpos n).
Proof.
  rewrite <- Z.pow_add_r by lia. rewrite <- Z.pow_succ_r by lia. f_equal. lia.
Qed.

Lemma iter_shr_1_m (n : positive) :
  forall r, 0 <= shr_m r ->
  shr_m (iter_pos shr_1 n r) = shr_m r / 2 ^ Zpos n.
Proof.
  induction n as [n IH|n IH|]; intros r Hr; simpl iter_pos.
  - assert (H1 : 0 <= shr_m (shr_1 r)).
    { rewrite shr_1_m by exact Hr. apply Z.div_pos; lia. }
    assert (H2 : 0 <= shr_m (iter_pos shr_1 n (shr_1 r))).
    { rewrite IH by exact H1. apply Z.div_pos; [exact H1|]. apply Z.pow_pos_nonneg; lia. }
    rewrite IH by exact H2. rewrite IH by exact H1. rewrite shr_1_m by exact Hr.
    rewrite !Z.div_div by (try apply Z.pow_pos_nonneg; lia).
    f_equal. rewrite pow2_xI. ring.
  - assert (H2 : 0 <= shr_m (iter_pos shr_1 n r)).
    { rewrite IH by exact Hr. apply Z.div_pos; [exact Hr|]. apply Z.pow_pos_nonneg; lia. }
    rewrite IH by exact H2. rewrite IH by exact Hr.
    rewrite !Z.div_div by (try apply Z.pow_pos_nonneg; lia).
    f_equal. rewrite pow2_xO. ring.
  - apply shr_1_m. exact Hr.
Qed.

Lemma shr_record_of_loc_m (m : Z) (l : location) : shr_m (shr_record_of_loc m l) = m.
Proof. destruct l as [|[ | | ]]; reflexivity. Qed.

(** Above the smallest exponent, the shift that aligns a positive mantissa
    leaves a positive mantissa. *)
Lemma shr_fexp_pos (m e : Z) (l : location) :
  0 < m -> emin B64.prec B64.emax <= e ->
  0 < shr_m (fst (shr_fexp B64.prec B64.emax m e l)) /\
  emin B64.prec B64.emax <= snd (shr_fexp B64.prec B64.emax m e l).
Proof.
  intros Hm He. unfold shr_fexp, shr.
  unfold emin, B64.prec, B64.emax in He |- *.
  destruct m as [|p|p]; try lia. simpl Zdigits2.
  pose proof (digits2_pos_le p) as Hd.
  set (d := Zpos (digits2_pos p)) in *.
  assert (Hn : fexp 53 1024 (d + e) - e < d).
  { unfold fexp, emin. unfold d. lia. }
  destruct (fexp 53 1024 (d + e) - e) as [|n|n] eqn:En; simpl fst; simpl snd.
  - rewrite shr_record_of_loc_m. lia.
  - rewrite iter_shr_1_m by (rewrite shr_record_of_loc_m; lia).
    rewrite shr_record_of_loc_m. split; [|lia].
    apply Z.div_str_pos. split; [apply Z.pow_pos_nonneg; lia|].
    assert (2 ^ Zpos n * 2 <= 2 ^ d).
    { replace d with (Zpos n + (d - Zpos n)) by lia.
      rewrite Z.pow_add_r by lia.
      apply Z.mul_le_mono_nonneg_l; [apply Z.pow_nonneg; lia|].
      change 2 with (2 ^ 1) at 1. apply Z.pow_le_mono_r; lia. }
    lia.
  - rewrite shr_record_of_loc_m. lia.
Qed.

Lemma round_nearest_even_ge (m : Z) (l : location) : m <= round_nearest_even m l.
Proof. destruct l as [|[ | | ]]; simpl; try lia. destruct (Z.even m); lia. Qed.

Lemma binary_round_aux_pos (s : bool) (m e : Z) (l : location) :
  0 < m -> emin B64.prec B64.emax <= e ->
  (exists m' e', binary_round_aux B64.prec B64.emax s m e l = S754_finite s m' e') \/
  binary_round_aux B64.prec B64.emax s m e l = S754_infinity s.
Proof.
  intros Hm He. unfold binary_round_aux.
  destruct (shr_fexp_pos m e l Hm He) as [H1 H1e].
  destruct (shr_fexp B64.prec B64.emax m e l) as [mrs' e'] eqn:E1.
  simpl fst in H1; simpl snd in H1e.
  pose proof (round_nearest_even_ge (shr_m mrs') (loc_of_shr_record mrs')) as Hr.
  set (m1 := round_nearest_even (shr_m mrs') (loc_of_shr_record mrs')) in *.
  destruct (shr_fexp_pos m1 e' loc_Exact ltac:(lia) H1e) as [H2 _].
  destruct (shr_fexp B64.prec B64.emax m1 e' loc_Exact) as [mrs'' e''] eqn:E2.
  simpl fst in H2.
  destruct (shr_m mrs'') as [|q|q]; try lia.
  destruct (e'' <=? B64.emax - B64.prec)%Z; [left; eauto|right; reflexivity].
Qed.

Lemma of_int_pos (p : positive) :
  (exists m e, B64.of_int (Zpos p) = S754_finite false m e) \/
  B64.of_int (Zpos p) = S754_infinity false.
Proof.
  unfold B64.of_int, binary_normalize, binary_round.
  destruct (shl_align p 0 (fexp B64.prec B64.emax (Zpos (digits2_pos p) + 0))) as [mz ez] eqn:E.
  apply binary_round_aux_pos; [lia|].
  unfold shl_align in E.
  destruct (fexp B64.prec B64.emax (Zpos (digits2_pos p) + 0) - 0) as [|d|d] eqn:Ed;
    inversion E; subst; clear E; unfold emin, B64.prec, B64.emax; try lia.
  unfold fexp, B64.prec, B64.emax, emin. lia.
Qed.

End B64_of_int.

(* ------------------------------------------------------------------ *)
(** ** Exact arithmetic: the operations on real arguments *)

Section XR_facts.
Local Open Scope R_scope.

Lemma XR_div_real (a b : R) : b <> 0 -> XR.div (Xreal a) (Xreal b) = Xreal (a / b).
Proof. intro Hb. unfold XR.div. destruct (Req_dec_T b 0); [contradiction|reflexivity]. Qed.

Lemma XR_div_zero (a : R) : XR.div (Xreal a) (Xreal 0) = Xnan.
Proof. unfold XR.div. destruct (Req_dec_T 0 0); [reflexivity|contradiction]. Qed.

Lemma XR_ltb_true (a b : R) : XR.ltb (Xreal a) (Xreal b) = true <-> a < b.
Proof. unfold XR.ltb. destruct (Rlt_dec a b); split; intro; try discriminate; tauto. Qed.

Lemma XR_ltb_false (a b : R) : XR.ltb (Xreal a) (Xreal b) = false <-> b <= a.
Proof.
  unfold XR.ltb. destruct (Rlt_dec a b); split; intro;
    try discriminate; try reflexivity; lra.
Qed.

Lemma XR_eqb_refl (a : R) : XR.eqb (Xreal a) (Xreal a) = true.
Proof. unfold XR.eqb. destruct (Req_dec_T a a); [reflexivity|contradiction]. Qed.

Lemma XR_sqrt_real (a : R) : 0 <= a -> XR.sqrt (Xreal a) = Xreal (sqrt a).
Proof. intro Ha. unfold XR.sqrt. destruct (Rlt_dec a 0); [lra|reflexivity]. Qed.

End XR_facts.

(* ------------------------------------------------------------------ *)
(** ** Meter: MeanRate *)

Section Meter_MeanRate.
Import Meter.

Lemma Q2R_1e9 : Q2R (1000000000 # 1) = 1000000000%R.
Proof. unfold Q2R. simpl. lra. Qed.

(** In exact arithmetic [d.Seconds()] is [d / 10^9]. *)
Lemma Seconds_exact (d : Z) :
  time.Seconds d = Xreal (IZR d / 1000000000)%R.
Proof.
  unfold time.Seconds. cbn [f_of_int f_add f_div f_const exact XR.lift2].
  rewrite Q2R_1e9, XR_div_real by lra. cbn [XR.lift2]. f_equal.
  pose proof (Z.quot_rem' d time.Second) as E.
  apply (f_equal IZR) in E. rewrite plus_IZR, mult_IZR in E.
  change (IZR time.Second) with 1000000000%R in E.
  rewrite E. field.
Qed.

(** [NewMeter] leaves [startTime] at the zero Time, and no method assigns
    it: ten seconds after the construction of a Meter in January 2020,
    with fifty events counted, the elapsed time that [MeanRate] divides by
    is the largest Duration (some 292 years), not ten seconds. *)
Lemma NewMeter_startTime_unset :
  startTime (NewMeter (F := spec_float)) = time.zero /\
  let m := Update (NewMeter (F := spec_float)) 50 in
  let now := time.Unix 1577836810 in
  startTime m = time.zero /\
  time.Sub now (startTime m) = max_int64 /\
  (MeanRate m now .< b64 (1 # 100000000))%flt = true /\
  MeanRate m now <> b64 5.
Proof.
  split; [reflexivity|]. cbv zeta.
  split; [reflexivity|].
  split; [vm_compute; reflexivity|].
  split; [vm_compute; reflexivity|].
  vm_compute. discriminate.
Qed.

(** In exact arithmetic [MeanRate] is the count over the seconds between
    [startTime] and now, by a division that no test guards: it is
    undefined when the two times are the same. *)
Lemma MeanRate_exact (m : Meter.t xreal) (now : time.Time) :
  let d := time.Sub now (startTime m) in
  MeanRate m now =
    if d =? 0 then Xnan else Xreal (IZR (Count m) / (IZR d / 1000000000))%R.
Proof.
  intro d. unfold MeanRate. fold d. rewrite Seconds_exact.
  cbn [f_of_int f_div exact].
  destruct (Z.eqb_spec d 0) as [E|E].
  - rewrite E. replace (0 / 1000000000)%R with 0%R by lra. apply XR_div_zero.
  - apply XR_div_real. assert (IZR d <> 0%R) by (apply not_0_IZR; exact E).
    intro Hq. apply H. lra.
Qed.

(** In binary64 the quotient by a zero elapsed time is NaN for a count of
    0 and +Inf for a positive count. *)
Lemma MeanRate_zero_elapsed (m : Meter.t spec_float) (now : time.Time) :
  time.Sub now (startTime m) = 0 ->
  (Count m = 0 -> MeanRate m now = S754_nan) /\
  (0 < Count m -> MeanRate m now = S754_infinity false).
Proof.
  intro E. unfold MeanRate. rewrite E.
  change (time.Seconds 0) with (S754_zero false).
  split; intro Hc.
  - rewrite Hc. reflexivity.
  - destruct (Count m) as [|p|p] eqn:Ec; try lia.
    cbn [f_of_int f_div binary64].
    destruct (of_int_pos p) as [(m' & e' & E')|E']; rewrite E'; reflexivity.
Qed.

(** No call and no step of the goroutine assigns [startTime]. *)
Lemma step_startTime {F : Type} {FO : Float64Ops F} (w w' : world F) (e : event) :
  step w e = Ok w' -> startTime (meter w') = startTime (meter w).
Proof.
  destruct e as [|delta| |]; simpl; intro E.
  - unfold Stop in E. destruct (ticker (meter w)); [|inversion E; reflexivity].
    simpl in E. destruct (tickerStopChan (meter w)); [|discriminate].
    destruct (chanClosed w); [discriminate|]. inversion E; reflexivity.
  - inversion E; reflexivity.
  - inversion E; subst. unfold tickWatcher_step.
    destruct (watcher w); try reflexivity. destruct (chanClosed w); reflexivity.
  - inversion E; subst. unfold ticker_fires.
    destruct (watcher w); try reflexivity. destruct (tickerStopped w); reflexivity.
Qed.

Lemma run_startTime {F : Type} {FO : Float64Ops F} (es : list event) :
  forall w w' : world F, run w es = Ok w' -> startTime (meter w') = startTime (meter w).
Proof.
  induction es as [|e es IH]; intros w w' E.
  - inversion E; reflexivity.
  - simpl in E. destruct (step w e) as [w1|p] eqn:E1; [|discriminate]. simpl in E.
    rewrite (IH _ _ E). apply (step_startTime _ _ _ E1).
Qed.

(** C3: [MeanRate] does not divide by the time since the construction of
    the Meter.  [NewMeter] does not assign [startTime] and nothing else
    does, so after every run of a new Meter the field is the zero Time
    (January 1 of year 1), and [MeanRate] divides the count by the seconds
    from the zero Time to now, capped at the largest Duration.  For a
    Meter made at any time [t0] after the zero Time, with a count other
    than 0, a call [d] nanoseconds after the construction returns, in exact
    arithmetic, [count / (min (t0 + d) maxDuration / 10^9)], which is not
    the [count / (d / 10^9)] of the specification. *)
Theorem C3_MeanRate_not_since_construction
    (es : list event) (w : world xreal) (t0 : time.Time) (d : time.Duration) :
  run start es = Ok w ->
  Count (meter w) <> 0 ->
  0 < t0 -> 0 < d < max_int64 ->
  startTime (meter w) = time.zero /\
  time.Sub (t0 + d) (startTime (meter w)) = Z.min (t0 + d) max_int64 /\
  MeanRate (meter w) (t0 + d) =
    Xreal (IZR (Count (meter w)) / (IZR (Z.min (t0 + d) max_int64) / 1000000000))%R /\
  MeanRate (meter w) (t0 + d) <>
    Xreal (IZR (Count (meter w)) / (IZR d / 1000000000))%R.
Proof.
  intros E Hc Ht Hd.
  assert (Es : startTime (meter w) = time.zero) by (apply (run_startTime es _ _ E)).
  assert (Esub : time.Sub (t0 + d) (startTime (meter w)) = Z.min (t0 + d) max_int64).
  { rewrite Es. unfold time.Sub, time.zero. rewrite Z.sub_0_r.
    unfold min_int64, max_int64 in *.
    destruct (Z.ltb_spec (t0 + d) (- 2 ^ 63)); [lia|].
    destruct (Z.ltb_spec (2 ^ 63 - 1) (t0 + d)); lia. }
  assert (Em : MeanRate (meter w) (t0 + d) =
               Xreal (IZR (Count (meter w)) /
                      (IZR (Z.min (t0 + d) max_int64) / 1000000000))%R).
  { rewrite MeanRate_exact. cbv zeta. rewrite Esub.
    destruct (Z.eqb_spec (Z.min (t0 + d) max_int64) 0) as [E0|_]; [|reflexivity].
    unfold max_int64 in *. lia. }
  split; [exact Es|]. split; [exact Esub|]. split; [exact Em|].
  rewrite Em. intro H. injection H as H.
  set (e := Z.min (t0 + d) max_int64) in *.
  assert (He : d < e) by (unfold e, max_int64 in *; lia).
  assert (Hc' : IZR (Count (meter w)) <> 0%R) by (apply not_0_IZR; exact Hc).
  assert (Hd' : (0 < IZR d)%R) by (apply IZR_lt; lia).
  assert (He' : (IZR d < IZR e)%R) by (apply IZR_lt; exact He).
  unfold Rdiv in H. apply Rmult_eq_reg_l in H; [|exact Hc'].
  apply (f_equal Rinv) in H. rewrite !Rinv_inv in H. lra.
Qed.

Lemma C3_MeanRate_not_since_construction_witness :
  let m := Update (NewMeter (F := xreal)) 50 in
  let t0 := time.Unix 1577836800 in
  let d := 10 * time.Second in
  startTime m = time.zero /\
  MeanRate m (t0 + d) <> Xreal (IZR 50 / (IZR 10000000000 / 1000000000))%R.
Proof.
  cbv zeta.
  destruct (C3_MeanRate_not_since_construction [CallUpdate 50]
              (set_meter start (Update (meter start) 50))
              (time.Unix 1577836800) (10 * time.Second)) as (Es & _ & _ & Hne).
  - reflexivity.
  - apply Z.eqb_neq. reflexivity.
  - apply Z.ltb_lt. reflexivity.
  - split; apply Z.ltb_lt; reflexivity.
  - split; [exact Es|exact Hne].
Defined.

End Meter_MeanRate.

(* ------------------------------------------------------------------ *)
(** ** The uniform reservoir meets the contract of a Sample *)

Section UniformSample_facts.
Context {F : Type}.
Import UniformSample.

Lemma set_nth_length (l : list F) (n : nat) (v : F) :
  length (set_nth l n v) = length l.
Proof.
  revert n; induction l as [|x l IH]; intros [|n]; simpl; try reflexivity.
  rewrite IH. reflexivity.
Qed.

Lemma wf_NewUniformSample (n : positive) (rnd : Z -> Z) :
  Zpos n < max_int -> wf (NewUniformSample (F := F) n rnd).
Proof. intro Hn. unfold wf, NewUniformSample; simpl. repeat split; lia. Qed.

Lemma wf_Clear (s : t F) : wf s -> wf (Clear s).
Proof. intros (_ & _ & Hn). unfold wf, Clear; simpl. repeat split; lia. Qed.

Lemma wf_Update (s : t F) (v : F) : wf s -> wf (Update s v).
Proof.
  intros (Hc & Hl & Hn). unfold wf, Update.
  destruct (Z.leb_spec (count s + 1) (Zpos (reservoirSize s))) as [Hi|Hi].
  - simpl. rewrite length_app. simpl. repeat split; lia.
  - destruct (_ <? _); simpl; rewrite ?set_nth_length; repeat split; lia.
Qed.

Lemma Values_Update_nonempty (s : t F) (v : F) : wf s -> Values (Update s v) <> [].
Proof.
  intros Hs. pose proof (wf_Update s v Hs) as (Hc & Hl & Hn).
  assert (count (Update s v) = count s + 1) as Ec.
  { unfold Update. destruct (_ <=? _); [reflexivity|]. destruct (_ <? _); reflexivity. }
  destruct Hs as (Hc0 & _ & _). unfold Values.
  intro E. rewrite E in Hl. simpl in Hl. lia.
Qed.

Lemma Values_length (s : t F) : wf s -> Z.of_nat (length (Values s)) < max_int.
Proof. intros (Hc & Hl & Hn). unfold Values. lia. Qed.

#[global] Instance uniform_contract : Sample.contract F (t F) := {
  Sample.wf := wf;
  Sample.wf_Clear := wf_Clear;
  Sample.wf_Update := wf_Update;
  Sample.Values_Clear := fun s => eq_refl;
  Sample.Values_Update := Values_Update_nonempty;
  Sample.Values_len := Values_length
}.

End UniformSample_facts.

Lemma wf_sample1028 : UniformSample.wf sample1028.
Proof. apply wf_NewUniformSample. reflexivity. Qed.

(* ------------------------------------------------------------------ *)
(** ** Histogram: the accessors on an empty and on a cleared Histogram *)

Lemma wrap_int_small (z : Z) : min_int <= z <= max_int -> wrap_int z = z.
Proof.
  unfold min_int, max_int, wrap_int. intro Hz.
  rewrite Z.mod_small by lia. lia.
Qed.

Section Histogram_basic.
Import Histogram.
Context {F : Type} {FO : Float64Ops F}.
Context {S : Type} {SO : Sample.ops F S}.

Lemma empty_accessors (int_impl : F -> Z) (h : Histogram.t F S) (ps : list F) :
  count h = 0 ->
  Count h = 0 /\ Min h = f_nan /\ Max h = f_nan /\ Mean h = f_zero /\
  Variance h = f_zero /\ StdDev h = f_zero /\
  Percentiles int_impl h ps = Ok (repeat f_zero (length ps)).
Proof.
  intro E. unfold Count, Min, Max, Mean, Variance, StdDev, Percentiles.
  rewrite E. simpl. repeat split; reflexivity.
Qed.

Lemma Update_count_sum (h : Histogram.t F S) (v : F) :
  count (Update h v) = wrap_int (count h + 1) /\
  sum (Update h v) = (sum h .+ v)%flt.
Proof. unfold Update. destruct (_ =? 1); split; reflexivity. Qed.

(** In every arithmetic: the count is the number of Updates and the sum is
    the sum of the values, added in the order of the Updates. *)
Lemma updates_count_sum (vs : list F) :
  forall h : Histogram.t F S,
  0 <= count h -> count h + Z.of_nat (length vs) <= max_int ->
  count (updates h vs) = count h + Z.of_nat (length vs) /\
  sum (updates h vs) = fold_left f_add vs (sum h).
Proof.
  induction vs as [|v vs IH]; intros h H0 Hmax.
  - simpl. split; [lia|reflexivity].
  - simpl length in *. unfold updates. simpl fold_left.
    destruct (Update_count_sum h v) as [Ec Es].
    rewrite wrap_int_small in Ec by (unfold min_int, max_int in *; lia).
    destruct (IH (Update h v)) as [IHc IHs]; [lia|lia|].
    unfold updates in IHc, IHs. rewrite IHc, IHs, Ec, Es. split; [lia|reflexivity].
Qed.

(** Where the two guards agree, [StdDev] is the square root of
    [Variance]. *)
Lemma StdDev_sqrt_Variance (h : Histogram.t F S) :
  2 <= count h -> StdDev h = f_sqrt (Variance h).
Proof.
  intro Hc. unfold StdDev, Variance.
  destruct (Z.ltb_spec 0 (count h)); [|lia].
  destruct (Z.leb_spec (count h) 1); [lia|]. reflexivity.
Qed.

End Histogram_basic.

Section Histogram_claims_basic.
Import Histogram.

(** C4: the code does not do what the claim says.  After the first
    [Update], whatever the value, [count] is 1 and [varianceS] is still 0:
    [Variance] is 0, and so is its square root, but [StdDev], whose guard is
    [count > 0], computes [sqrt(0 / float64(0))], which is NaN. *)
Theorem C4_StdDev_after_one_Update {S : Type} `{Sample.ops spec_float S}
    (s : S) (v : spec_float) :
  let h := Update (NewHistogram s) v in
  Count h = 1 /\
  Variance h = S754_zero false /\
  f_sqrt (Variance h) = S754_zero false /\
  StdDev h = S754_nan.
Proof. cbv zeta. repeat split; reflexivity. Qed.

(** C7: on a Histogram whose count is 0, [Min] and [Max] return NaN, and
    [Mean], [Variance] and [StdDev] return 0. *)
Theorem C7_empty_Histogram {S : Type} `{Sample.ops spec_float S}
    (h : Histogram.t spec_float S) :
  count h = 0 ->
  Min h = S754_nan /\ Max h = S754_nan /\
  Mean h = S754_zero false /\ Variance h = S754_zero false /\
  StdDev h = S754_zero false.
Proof.
  intro E. destruct (empty_accessors (fun _ => 0) h [] E) as (_ & ? & ? & ? & ? & ? & _).
  repeat split; assumption.
Qed.

Lemma C7_empty_Histogram_witness :
  let h := NewHistogram sample1028 in
  Min h = S754_nan /\ Max h = S754_nan /\
  Mean h = S754_zero false /\ Variance h = S754_zero false /\
  StdDev h = S754_zero false.
Proof. apply (C7_empty_Histogram (NewHistogram sample1028)). reflexivity. Defined.

(** C9: after [Clear], every accessor returns what it returns on a new
    Histogram with an empty Sample, for every Sample whose [Clear] empties
    it. *)
Theorem C9_Clear_as_new {F : Type} `{Float64Ops F} {S : Type} `{Sample.ops F S}
    `{!Sample.contract F S}
    (int_impl : F -> Z) (h : Histogram.t F S) (s0 : S) (ps : list F) :
  Sample.Values s0 = [] ->
  let c := Clear h in
  let n := NewHistogram s0 in
  Count c = Count n /\ Sum c = Sum n /\ Min c = Min n /\ Max c = Max n /\
  Mean c = Mean n /\ Variance c = Variance n /\ StdDev c = StdDev n /\
  Percentiles int_impl c ps = Percentiles int_impl n ps /\
  Values c = Values n /\
  Values c = [].
Proof.
  intros E0 c n. unfold c, n, Values, Clear, NewHistogram; simpl.
  rewrite E0, Sample.Values_Clear. repeat split; reflexivity.
Qed.

Lemma C9_Clear_as_new_witness :
  let h := updates (NewHistogram sample1028) [b64 3; b64 1; b64 2] in
  Count h = 3 /\
  Count (Clear h) = 0 /\
  Percentiles (fun _ => min_int) (Clear h) [b64 (1 # 2)] =
    Percentiles (fun _ => min_int) (NewHistogram sample1028) [b64 (1 # 2)] /\
  Values (Clear h) = [].
Proof.
  cbv zeta. split; [reflexivity|].
  pose proof (C9_Clear_as_new (fun _ => min_int)
                (updates (NewHistogram sample1028) [b64 3; b64 1; b64 2])
                sample1028 [b64 (1 # 2)] eq_refl) as P.
  cbv zeta in P. destruct P as (P1 & _ & _ & _ & _ & _ & _ & P8 & _ & P10).
  split; [exact P1|]. split; [exact P8|exact P10].
Defined.

End Histogram_claims_basic.

(* ------------------------------------------------------------------ *)
(** ** Histogram: Percentiles returns one score per percentile *)

Section Percentiles_total.
Import Histogram.
Context {F : Type} {FO : Float64Ops F}.
Context {S : Type} {SO : Sample.ops F S} {SC : Sample.contract F S}.
Variable int_impl : F -> Z.

Lemma insert_length (x : F) (l : list F) : length (insert x l) = Datatypes.S (length l).
Proof.
  induction l as [|y l IH]; simpl; [reflexivity|].
  destruct (Less y x); simpl; [rewrite IH|]; reflexivity.
Qed.

Lemma sort_length (l : list F) : length (sort l) = length l.
Proof.
  induction l as [|x l IH]; simpl; [reflexivity|].
  rewrite insert_length, IH. reflexivity.
Qed.

Lemma index_in_range (values : list F) (k : Z) :
  0 <= k < len values -> exists v, index values k = Ok v.
Proof.
  intros [Hk0 Hk]. unfold index, len in *.
  destruct (Z.ltb_spec k 0); [lia|].
  destruct (nth_error values (Z.to_nat k)) as [v|] eqn:E; [eauto|].
  apply nth_error_None in E. lia.
Qed.

(** With a value in the snapshot, no index of [score] is out of range,
    whatever [int(pos)] is. *)
Lemma score_total (values : list F) (p : F) :
  0 < len values <= max_int -> exists s, score int_impl values p = Ok s.
Proof.
  intros [Hn Hmax]. unfold score.
  set (pos := (p .* f_of_int (wrap_int (len values + 1)))%flt).
  set (ipos := int int_impl pos).
  unfold max_int in Hmax.
  destruct (Z.ltb_spec ipos 1) as [H1|H1].
  - apply index_in_range. lia.
  - destruct (Z.leb_spec (len values) ipos) as [H2|H2].
    + apply index_in_range. rewrite wrap_int_small by (unfold min_int, max_int; lia). lia.
    + destruct (index_in_range values (wrap_int (ipos - 1))) as [lower El].
      { rewrite wrap_int_small by (unfold min_int, max_int; lia). lia. }
      destruct (index_in_range values ipos) as [upper Eu]; [lia|].
      rewrite El, Eu. simpl. eauto.
Qed.

Lemma scores_of_total (values : list F) (ps : list F) :
  0 < len values <= max_int ->
  exists scores, scores_of int_impl values ps = Ok scores /\
                 Forall2 (fun p s => score int_impl values p = Ok s) ps scores.
Proof.
  intro Hv. induction ps as [|p ps (ss & Ess & Hss)]; simpl.
  - exists []. split; [reflexivity|constructor].
  - destruct (score_total values p Hv) as [s Es]. rewrite Es, Ess. simpl.
    exists (s :: ss). split; [reflexivity|]. constructor; assumption.
Qed.

(** A Histogram that has counted something has something in its Sample. *)
Lemma reachable_sample (h : Histogram.t F S) :
  reachable h ->
  Sample.wf (sample h) /\ (count h <> 0 -> Sample.Values (sample h) <> []).
Proof.
  induction 1 as [s Hs|h v Hh [IHw IHv]|h Hh [IHw IHv]].
  - split; [exact Hs|]. simpl. intro E; contradiction.
  - unfold Update. destruct (_ =? 1); simpl;
      (split; [apply Sample.wf_Update; exact IHw|intros _; apply Sample.Values_Update; exact IHw]).
  - split; [apply Sample.wf_Clear; exact IHw|]. simpl. intro E; contradiction.
Qed.

Lemma reachable_snapshot (h : Histogram.t F S) :
  reachable h -> count h <> 0 ->
  0 < len (sort (Sample.Values (sample h))) < max_int.
Proof.
  intros Hh Hc. destruct (reachable_sample h Hh) as [Hw Hv].
  specialize (Hv Hc). pose proof (Sample.Values_len _ Hw) as Hl.
  unfold len. rewrite sort_length.
  destruct (Sample.Values (sample h)); [contradiction|]. simpl length in *. lia.
Qed.

End Percentiles_total.

(** C6: with a count of 0, [Percentiles] returns zeros, one for each
    requested percentile; with another count (so for every positive one) it
    returns the scores of the requested percentiles, one for each and in
    the order of the request. *)
Theorem C6_Percentiles_one_per_request
    {F : Type} `{Float64Ops F} {S : Type} `{Sample.ops F S} `{!Sample.contract F S}
    (int_impl : F -> Z) (h : Histogram.t F S) (ps : list F) :
  Histogram.reachable h ->
  (Histogram.count h = 0 ->
   Histogram.Percentiles int_impl h ps = Ok (repeat f_zero (length ps)) /\
   length (repeat (f_zero (F := F)) (length ps)) = length ps) /\
  (Histogram.count h <> 0 ->
   exists scores,
     Histogram.Percentiles int_impl h ps = Ok scores /\
     length scores = length ps /\
     Forall2 (fun p s =>
                Histogram.score int_impl
                  (Histogram.sort (Sample.Values (Histogram.sample h))) p = Ok s)
             ps scores).
Proof.
  intro Hh. split; intro Hc.
  - split; [|apply repeat_length].
    unfold Histogram.Percentiles. rewrite Hc. reflexivity.
  - pose proof (reachable_snapshot h Hh Hc) as Hv.
    destruct (scores_of_total int_impl _ ps (conj (proj1 Hv) (Z.lt_le_incl _ _ (proj2 Hv))))
      as (scores & Es & Hs).
    exists scores. split.
    + unfold Histogram.Percentiles. destruct (Z.eqb_spec (Histogram.count h) 0); [contradiction|].
      exact Es.
    + split; [|exact Hs]. symmetry. eapply Forall2_length. exact Hs.
Qed.

(* ------------------------------------------------------------------ *)
(** ** Sums of real numbers *)

Section Stats_facts.
Import Stats.
Local Open Scope R_scope.

Lemma Rsum_app (l : list R) (x : R) : Rsum (l ++ [x]) = Rsum l + x.
Proof. induction l as [|y l IH]; simpl; [lra|]. rewrite IH. lra. Qed.

Lemma Rsumsq_app (l : list R) (x : R) : Rsumsq (l ++ [x]) = Rsumsq l + x * x.
Proof. unfold Rsumsq. rewrite map_app. simpl map. apply Rsum_app. Qed.

Lemma n_of_app (l : list R) (x : R) : n_of (l ++ [x]) = n_of l + 1.
Proof. unfold n_of. rewrite length_app. simpl. rewrite Nat.add_1_r, S_INR. reflexivity. Qed.

Lemma n_of_pos (l : list R) : l <> [] -> 1 <= n_of l.
Proof.
  destruct l as [|x l]; [contradiction|]. intros _. unfold n_of.
  simpl length. rewrite S_INR. pose proof (pos_INR (length l)). lra.
Qed.

Lemma n_of_IZR (l : list R) : IZR (Z.of_nat (length l)) = n_of l.
Proof. unfold n_of. symmetry. apply INR_IZR_INZ. Qed.

Lemma dev_expand (mu : R) (rs : list R) :
  Rsum (map (fun x => (x - mu) * (x - mu)) rs) =
  Rsumsq rs - 2 * mu * Rsum rs + n_of rs * (mu * mu).
Proof.
  unfold Rsumsq, n_of. induction rs as [|x rs IH].
  - simpl. lra.
  - simpl map. simpl Rsum. simpl length. rewrite S_INR, IH. ring.
Qed.

Lemma dev_nonneg (mu : R) (rs : list R) :
  0 <= Rsum (map (fun x => (x - mu) * (x - mu)) rs).
Proof.
  induction rs as [|x rs IH]; simpl; [lra|].
  pose proof (Rle_0_sqr (x - mu)) as Hx. unfold Rsqr in Hx. lra.
Qed.

Lemma sum_sq_dev_nonneg (rs : list R) : 0 <= sum_sq_dev rs.
Proof. apply dev_nonneg. Qed.

Lemma sum_sq_dev_closed (rs : list R) :
  rs <> [] -> sum_sq_dev rs = Rsumsq rs - Rsum rs * Rsum rs / n_of rs.
Proof.
  intro Hne. unfold sum_sq_dev. rewrite dev_expand. unfold mean.
  pose proof (n_of_pos rs Hne). field. lra.
Qed.

End Stats_facts.

(* ------------------------------------------------------------------ *)
(** ** Histogram in exact arithmetic: Update *)

Ltac xr :=
  unfold f_gtb, f_zero;
  cbn [f_add f_sub f_mul f_div f_sqrt f_floor f_of_int f_ltb f_eqb f_nan f_const
       exact XR.lift2].

Section Welford_exact.
Import Histogram Stats.
Context {S : Type} {SO : Sample.ops xreal S}.
Local Open Scope R_scope.

Lemma updates_snoc (h : Histogram.t xreal S) (vs : list xreal) (v : xreal) :
  updates h (vs ++ [v]) = Update (updates h vs) v.
Proof. unfold updates. rewrite fold_left_app. reflexivity. Qed.

Lemma welford_first (h0 : Histogram.t xreal S) (x : R) :
  count h0 = 0%Z -> sum h0 = Xreal 0 -> varianceS h0 = Xreal 0 ->
  welford [x] (Update h0 (Xreal x)).
Proof.
  intros Ec Es ES. unfold welford, Update. rewrite Ec, Es, ES.
  change (wrap_int (0 + 1) =? 1)%Z with true. cbv iota. simpl. xr.
  repeat split.
  - f_equal. lra.
  - exists x. split; [reflexivity|]. split; [left; reflexivity|].
    intros y [->|[]]. lra.
  - exists x. split; [reflexivity|]. split; [left; reflexivity|].
    intros y [->|[]]. lra.
  - f_equal. unfold mean, n_of. simpl. field.
  - f_equal. unfold sum_sq_dev, mean, n_of. simpl. field.
Qed.

Lemma welford_step (rs : list R) (h : Histogram.t xreal S) (x : R) :
  rs <> [] -> (Z.of_nat (length rs) < max_int)%Z ->
  welford rs h -> welford (rs ++ [x]) (Update h (Xreal x)).
Proof.
  intros Hne Hlen (Ec & Es & (mn & Emn & Hmn1 & Hmn2) & (mx & Emx & Hmx1 & Hmx2) & EM & ES).
  pose proof (n_of_pos rs Hne) as Hn. pose proof (n_of_IZR rs) as HIZR.
  assert (Hc : wrap_int (count h + 1) = (Z.of_nat (length rs) + 1)%Z).
  { rewrite Ec. apply wrap_int_small. unfold min_int, max_int in *. lia. }
  assert (HN : IZR (Z.of_nat (length rs) + 1) = n_of rs + 1).
  { rewrite plus_IZR, HIZR. reflexivity. }
  unfold welford, Update. rewrite Hc, Es, Emn, Emx, EM, ES.
  destruct (Z.eqb_spec (Z.of_nat (length rs) + 1) 1) as [E1|_].
  { exfalso. rewrite <- HIZR in Hn. apply le_IZR in Hn. lia. }
  xr. rewrite HN, XR_div_real by lra. xr. simpl.
  split; [rewrite length_app; simpl; lia|].
  split; [rewrite Rsum_app; reflexivity|].
  split; [|split; [|split]].
  - unfold XR.ltb. destruct (Rlt_dec x mn) as [Hlt|Hge].
    + exists x. split; [reflexivity|]. split; [apply in_or_app; right; left; reflexivity|].
      intros y Hy. apply in_app_or in Hy. destruct Hy as [Hy|[<-|[]]]; [|lra].
      specialize (Hmn2 y Hy). lra.
    + exists mn. split; [reflexivity|]. split; [apply in_or_app; left; exact Hmn1|].
      intros y Hy. apply in_app_or in Hy. destruct Hy as [Hy|[<-|[]]]; [|lra].
      apply Hmn2; exact Hy.
  - unfold XR.ltb. destruct (Rlt_dec mx x) as [Hlt|Hge].
    + exists x. split; [reflexivity|]. split; [apply in_or_app; right; left; reflexivity|].
      intros y Hy. apply in_app_or in Hy. destruct Hy as [Hy|[<-|[]]]; [|lra].
      specialize (Hmx2 y Hy). lra.
    + exists mx. split; [reflexivity|]. split; [apply in_or_app; left; exact Hmx1|].
      intros y Hy. apply in_app_or in Hy. destruct Hy as [Hy|[<-|[]]]; [|lra].
      apply Hmx2; exact Hy.
  - f_equal. unfold mean. rewrite Rsum_app, n_of_app. field. lra.
  - f_equal. rewrite (sum_sq_dev_closed rs Hne).
    rewrite (sum_sq_dev_closed (rs ++ [x])) by (destruct rs; discriminate).
    rewrite Rsumsq_app, Rsum_app, n_of_app. unfold mean. field. lra.
Qed.

Lemma welford_updates (s : S) (rs : list R) :
  rs <> [] -> (Z.of_nat (length rs) <= max_int)%Z ->
  welford rs (updates (NewHistogram s) (map Xreal rs)).
Proof.
  induction rs as [|x rs IH] using rev_ind; [contradiction|].
  intros _ Hlen. rewrite length_app in Hlen. simpl length in Hlen.
  rewrite map_app. simpl map. rewrite updates_snoc.
  destruct rs as [|y rs'].
  - apply welford_first; reflexivity.
  - apply welford_step; [discriminate|lia|]. apply IH; [discriminate|lia].
Qed.

End Welford_exact.

(* ------------------------------------------------------------------ *)
(** ** Histogram in exact arithmetic: the accessors after Updates *)

Section Accessors_exact.
Import Histogram Stats.
Context {S : Type} {SO : Sample.ops xreal S}.
Local Open Scope R_scope.

Lemma welford_accessors (rs : list R) (h : Histogram.t xreal S) :
  rs <> [] -> (Z.of_nat (length rs) <= max_int)%Z -> welford rs h ->
  Count h = Z.of_nat (length rs) /\
  Sum h = Xreal (Rsum rs) /\
  (exists m, Min h = Xreal m /\ is_min rs m) /\
  (exists m, Max h = Xreal m /\ is_max rs m) /\
  Mean h = Xreal (mean rs) /\
  Variance h = Xreal (if (length rs =? 1)%nat then 0 else sample_variance rs) /\
  ((2 <= Count h)%Z -> StdDev h = Xreal (sqrt (sample_variance rs))).
Proof.
  intros Hne Hlen (Ec & Es & Hmin & Hmax & EM & ES).
  pose proof (n_of_pos rs Hne) as Hn. pose proof (n_of_IZR rs) as HIZR.
  assert (Hpos : (1 <= Z.of_nat (length rs))%Z).
  { rewrite <- HIZR in Hn. apply le_IZR in Hn. exact Hn. }
  assert (Hw : wrap_int (count h - 1) = (Z.of_nat (length rs) - 1)%Z).
  { rewrite Ec. apply wrap_int_small. unfold min_int, max_int in *. lia. }
  assert (HN1 : IZR (Z.of_nat (length rs) - 1) = n_of rs - 1).
  { rewrite minus_IZR, HIZR. reflexivity. }
  unfold Count, Sum, Min, Max, Mean, Variance, StdDev.
  rewrite Hw, Ec, Es, ES.
  destruct (Z.eqb_spec (Z.of_nat (length rs)) 0) as [E0|_]; [lia|].
  destruct (Z.ltb_spec 0 (Z.of_nat (length rs))) as [_|]; [|lia].
  split; [reflexivity|]. split; [reflexivity|].
  split; [exact Hmin|]. split; [exact Hmax|].
  split; [xr; rewrite HIZR, XR_div_real by lra; reflexivity|].
  split.
  - destruct (Z.leb_spec (Z.of_nat (length rs)) 1) as [H1|H1].
    + replace (length rs) with 1%nat by lia. reflexivity.
    + destruct (Nat.eqb_spec (length rs) 1) as [E1|_]; [lia|].
      assert (1 < n_of rs).
      { rewrite <- HIZR. apply IZR_lt. exact H1. }
      xr. rewrite HN1, XR_div_real by lra. reflexivity.
  - intro H2.
    assert (1 < n_of rs).
    { rewrite <- HIZR. apply IZR_lt. lia. }
    xr. rewrite HN1, XR_div_real by lra.
    apply XR_sqrt_real. unfold sample_variance.
    apply Rmult_le_pos; [apply sum_sq_dev_nonneg|].
    left. apply Rinv_0_lt_compat. lra.
Qed.

Lemma sample_variance_nonneg (rs : list R) :
  (2 <= length rs)%nat -> 0 <= sample_variance rs.
Proof.
  intro H2. unfold sample_variance.
  apply Rmult_le_pos; [apply sum_sq_dev_nonneg|].
  left. apply Rinv_0_lt_compat. unfold n_of.
  apply le_INR in H2. simpl in H2. lra.
Qed.

(** Welford's recurrences, for the [Update] after the real numbers [pre]. *)
Lemma welford_recurrence (s : S) (pre : list R) (v : R) :
  (Z.of_nat (length (pre ++ [v])) <= max_int)%Z ->
  let h0 := updates (NewHistogram s) (map Xreal pre) in
  let h1 := Update h0 (Xreal v) in
  exists M S0 M' S',
    varianceM h0 = Xreal M /\ varianceS h0 = Xreal S0 /\
    varianceM h1 = Xreal M' /\ varianceS h1 = Xreal S' /\
    M' = M + (v - M) / IZR (Count h1) /\
    S' = S0 + (v - M) * (v - M').
Proof.
  intros Hlen h0 h1. rewrite length_app in Hlen. simpl length in Hlen.
  destruct pre as [|y pre'].
  - exists 0, 0, v, 0. unfold h1, h0. simpl.
    change (wrap_int (0 + 1) =? 1)%Z with true. cbv iota. simpl.
    repeat split; try reflexivity.
    + change (wrap_int 1) with 1%Z. field.
    + ring.
  - assert (Hne : y :: pre' <> []) by discriminate.
    pose proof (welford_updates s (y :: pre') Hne ltac:(lia)) as Hw. fold h0 in Hw.
    destruct Hw as (Ec & Es & Hmn & Hmx & EM & ES).
    pose proof (n_of_pos _ Hne) as Hn. pose proof (n_of_IZR (y :: pre')) as HIZR.
    assert (Hc : wrap_int (count h0 + 1) = (Z.of_nat (length (y :: pre')) + 1)%Z).
    { rewrite Ec. apply wrap_int_small. unfold min_int, max_int in *. lia. }
    assert (HN : IZR (Z.of_nat (length (y :: pre')) + 1) = n_of (y :: pre') + 1).
    { rewrite plus_IZR, HIZR. reflexivity. }
    exists (mean (y :: pre')), (sum_sq_dev (y :: pre')).
    unfold h1, Update, Count. rewrite Hc.
    destruct (Z.eqb_spec (Z.of_nat (length (y :: pre')) + 1) 1) as [E1|_];
      [simpl length in E1; lia|].
    cbn [varianceM varianceS count]. rewrite EM, ES. xr.
    rewrite HN, XR_div_real by lra. xr.
    do 2 eexists. repeat split; try reflexivity; assumption.
Qed.

End Accessors_exact.

(* ------------------------------------------------------------------ *)
(** ** The numbers 1 to 100 *)

Section One_to_100.
Import Stats.
Local Open Scope R_scope.

Lemma Rsum_IZR (zs : list Z) : Rsum (map IZR zs) = IZR (fold_right Z.add 0%Z zs).
Proof. induction zs as [|z zs IH]; simpl; [reflexivity|]. rewrite IH, plus_IZR. reflexivity. Qed.

Lemma Rsumsq_IZR (zs : list Z) :
  Rsumsq (map IZR zs) = IZR (fold_right Z.add 0%Z (map (fun z => z * z)%Z zs)).
Proof.
  unfold Rsumsq. induction zs as [|z zs IH]; simpl; [reflexivity|].
  rewrite IH, plus_IZR, mult_IZR. reflexivity.
Qed.

Lemma one_to_IZR (n : nat) : one_to n = map IZR (map Z.of_nat (seq 1 n)).
Proof. unfold one_to. rewrite map_map. reflexivity. Qed.

Lemma one_to_100_sum : Rsum (one_to 100) = 5050.
Proof. rewrite one_to_IZR, Rsum_IZR. f_equal. Qed.

Lemma one_to_100_sumsq : Rsumsq (one_to 100) = 338350.
Proof. rewrite one_to_IZR, Rsumsq_IZR. f_equal. Qed.

Lemma one_to_100_n : n_of (one_to 100) = 100.
Proof. unfold n_of, one_to. rewrite length_map, length_seq, INR_IZR_INZ. reflexivity. Qed.

Lemma one_to_100_mean : mean (one_to 100) = 50.5.
Proof. unfold mean. rewrite one_to_100_sum, one_to_100_n. lra. Qed.

(** The sample variance of 1, ..., n is n(n+1)/12. *)
Lemma one_to_100_variance : sample_variance (one_to 100) = 2525 / 3.
Proof.
  unfold sample_variance. rewrite sum_sq_dev_closed by discriminate.
  rewrite one_to_100_sum, one_to_100_sumsq, one_to_100_n. lra.
Qed.

Lemma one_to_bounds (n : nat) (x : R) : In x (one_to n) -> 1 <= x <= INR n.
Proof.
  unfold one_to. intro Hx. apply in_map_iff in Hx. destruct Hx as (k & <- & Hk).
  apply in_seq in Hk. rewrite <- INR_IZR_INZ.
  split; [change 1 with (INR 1)|]; apply le_INR; lia.
Qed.

Lemma one_to_100_min (m : R) : is_min (one_to 100) m -> m = 1.
Proof.
  intros [Hin Hle]. apply one_to_bounds in Hin.
  assert (In 1 (one_to 100)) as H1 by (left; reflexivity).
  specialize (Hle 1 H1). lra.
Qed.

Lemma one_to_100_max (m : R) : is_max (one_to 100) m -> m = 100.
Proof.
  intros [Hin Hle]. apply one_to_bounds in Hin.
  assert (In 100 (one_to 100)) as H1.
  { unfold one_to. apply in_map_iff. exists 100%nat. split; [reflexivity|].
    apply in_seq. lia. }
  specialize (Hle 100 H1).
  replace (INR 100) with 100 in Hin by (rewrite INR_IZR_INZ; reflexivity). lra.
Qed.

End One_to_100.

(* ------------------------------------------------------------------ *)
(** ** Histogram: the claims on Update *)

Section Histogram_claims_Update.
Import Histogram Stats.
Local Open Scope R_scope.

Lemma reachable_updates {F : Type} {FO : Float64Ops F} {S : Type}
    {SO : Sample.ops F S} {SC : Sample.contract F S}
    (h : Histogram.t F S) (vs : list F) :
  reachable h -> reachable (updates h vs).
Proof.
  revert h; induction vs as [|v vs IH]; intros h Hh; [exact Hh|].
  simpl. apply IH. apply reach_Update. exact Hh.
Qed.

Lemma C6_Percentiles_one_per_request_witness :
  let h := updates (NewHistogram sample1028) [b64 3; b64 1; b64 2] in
  let ps := [b64 (1 # 2); b64 0] in
  Percentiles amd64 (NewHistogram sample1028) ps = Ok [S754_zero false; S754_zero false] /\
  exists scores, Percentiles amd64 h ps = Ok scores /\ length scores = 2%nat.
Proof.
  cbv zeta. split.
  - destruct (C6_Percentiles_one_per_request amd64 (NewHistogram sample1028)
                [b64 (1 # 2); b64 0]) as [P _].
    + apply reach_New. exact wf_sample1028.
    + destruct P as [E _]; [reflexivity|]. exact E.
  - destruct (C6_Percentiles_one_per_request amd64
                (updates (NewHistogram sample1028) [b64 3; b64 1; b64 2])
                [b64 (1 # 2); b64 0]) as [_ P].
    + apply reachable_updates. apply reach_New. exact wf_sample1028.
    + destruct P as (scores & E & L & _); [vm_compute; discriminate|].
      exists scores. split; [exact E|exact L].
Defined.

(** C10: in exact arithmetic, after any sequence of Updates of a new
    Histogram, Welford's accumulator [varianceS] is not negative, and
    neither is [Variance] nor, from the second value on, [StdDev]. *)
Theorem C10_varianceS_nonneg {S : Type} {SO : Sample.ops xreal S}
    (s : S) (rs : list R) :
  (Z.of_nat (length rs) <= max_int)%Z ->
  let h := updates (NewHistogram s) (map Xreal rs) in
  (exists S0, varianceS h = Xreal S0 /\ 0 <= S0) /\
  (exists v, Variance h = Xreal v /\ 0 <= v) /\
  ((2 <= Count h)%Z -> exists sd, StdDev h = Xreal sd /\ 0 <= sd).
Proof.
  intros Hlen h. destruct rs as [|x rs'].
  - unfold h. simpl. split; [exists 0; split; [reflexivity|lra]|].
    split; [exists 0; split; [reflexivity|lra]|].
    unfold Count. simpl. lia.
  - assert (Hne : x :: rs' <> []) by discriminate.
    pose proof (welford_updates s _ Hne Hlen) as Hw. fold h in Hw.
    destruct (welford_accessors _ h Hne Hlen Hw) as (Ec & _ & _ & _ & _ & EV & ESD).
    destruct Hw as (_ & _ & _ & _ & _ & ES).
    split; [exists (sum_sq_dev (x :: rs')); split; [exact ES|apply sum_sq_dev_nonneg]|].
    split.
    + eexists. split; [exact EV|].
      destruct (Nat.eqb_spec (length (x :: rs')) 1); [lra|].
      apply sample_variance_nonneg. simpl length in *. lia.
    + intro H2. eexists. split; [apply ESD; exact H2|]. apply sqrt_pos.
Qed.

Lemma C10_varianceS_nonneg_witness :
  let h := updates (NewHistogram sample1028x) (map Xreal [3; 1; 2]) in
  (exists S0, varianceS h = Xreal S0 /\ 0 <= S0) /\
  (exists v, Variance h = Xreal v /\ 0 <= v) /\
  (exists sd, StdDev h = Xreal sd /\ 0 <= sd).
Proof.
  destruct (C10_varianceS_nonneg sample1028x [3; 1; 2]) as (HS & HV & HSD).
  - apply Z.leb_le. reflexivity.
  - split; [exact HS|]. split; [exact HV|].
    apply HSD. apply Z.leb_le. reflexivity.
Defined.

(** C8: after the Updates with the values [v1..vn] of a new Histogram,
    [Count] is [n] and [Sum] is [v1 + ... + vn] (in every arithmetic, the sum
    taken in this order).  In exact arithmetic [Sum] is the sum, [Min] and
    [Max] are the smallest and the largest of them and [Mean] is the sum
    over [n]; the first Update sets [min] and [max] to its value; every
    Update follows Welford's recurrences; and after 1, ..., 100 [Count] is
    100, [Mean] 50.5, [Min] 1, [Max] 100 and [Variance] the sample variance
    100 * 101 / 12 of these numbers.  In binary64 the Histogram fed
    1, ..., 100 returns these very numbers, the variance rounded to the
    nearest double. *)
Theorem C8_Update_statistics :
  (forall (F : Type) (FO : Float64Ops F) (S : Type) (SO : Sample.ops F S)
          (s : S) (vs : list F),
     (Z.of_nat (length vs) <= max_int)%Z ->
     let h := updates (NewHistogram s) vs in
     Count h = Z.of_nat (length vs) /\ Sum h = fold_left f_add vs f_zero) /\
  (forall (S : Type) (SO : Sample.ops xreal S) (s : S) (rs : list R),
     rs <> [] -> (Z.of_nat (length rs) <= max_int)%Z ->
     let h := updates (NewHistogram s) (map Xreal rs) in
     Count h = Z.of_nat (length rs) /\
     Sum h = Xreal (Rsum rs) /\
     (exists m, Min h = Xreal m /\ is_min rs m) /\
     (exists m, Max h = Xreal m /\ is_max rs m) /\
     Mean h = Xreal (Rsum rs / INR (length rs))) /\
  (forall (S : Type) (SO : Sample.ops xreal S) (s : S) (v : xreal),
     let h := Update (NewHistogram s) v in
     Min h = v /\ Max h = v) /\
  (forall (S : Type) (SO : Sample.ops xreal S) (s : S) (pre : list R) (v : R),
     (Z.of_nat (length (pre ++ [v])) <= max_int)%Z ->
     let h0 := updates (NewHistogram s) (map Xreal pre) in
     let h1 := Update h0 (Xreal v) in
     exists M S0 M' S',
       varianceM h0 = Xreal M /\ varianceS h0 = Xreal S0 /\
       varianceM h1 = Xreal M' /\ varianceS h1 = Xreal S' /\
       M' = M + (v - M) / IZR (Count h1) /\
       S' = S0 + (v - M) * (v - M')) /\
  (forall (S : Type) (SO : Sample.ops xreal S) (s : S),
     let h := updates (NewHistogram s) (map Xreal (one_to 100)) in
     Count h = 100%Z /\ Mean h = Xreal 50.5 /\
     Min h = Xreal 1 /\ Max h = Xreal 100 /\
     Variance h = Xreal (sample_variance (one_to 100)) /\
     sample_variance (one_to 100) = 100 * 101 / 12) /\
  (Count h100 = 100%Z /\ Mean h100 = b64 (101 # 2) /\
   Min h100 = b64 1 /\ Max h100 = b64 100 /\
   Variance h100 = b64 (100 * 101 # 12)).
Proof.
  split; [|split; [|split; [|split; [|split]]]].
  - intros F FO S SO s vs Hlen h.
    apply (updates_count_sum vs (NewHistogram s)); simpl; lia.
  - intros S SO s rs Hne Hlen h.
    pose proof (welford_updates s rs Hne Hlen) as Hw. fold h in Hw.
    destruct (welford_accessors rs h Hne Hlen Hw) as (E1 & E2 & E3 & E4 & E5 & _).
    repeat split; assumption.
  - intros S SO s v h. unfold h, Update, Min, Max. simpl.
    change (wrap_int (0 + 1)) with 1%Z. simpl. split; reflexivity.
  - intros S SO s pre v Hlen. apply welford_recurrence. exact Hlen.
  - intros S SO s h.
    assert (Hne : one_to 100 <> []) by discriminate.
    assert (Hlen : (Z.of_nat (length (one_to 100)) <= max_int)%Z).
    { unfold one_to. rewrite length_map, length_seq. vm_compute. discriminate. }
    pose proof (welford_updates s _ Hne Hlen) as Hw. fold h in Hw.
    destruct (welford_accessors _ h Hne Hlen Hw)
      as (E1 & _ & (mn & Emn & Hmn) & (mx & Emx & Hmx) & E5 & E6 & _).
    split; [rewrite E1; unfold one_to; rewrite length_map, length_seq; reflexivity|].
    split; [rewrite E5, one_to_100_mean; reflexivity|].
    split; [rewrite Emn, (one_to_100_min mn Hmn); reflexivity|].
    split; [rewrite Emx, (one_to_100_max mx Hmx); reflexivity|].
    split; [exact E6|]. rewrite one_to_100_variance. lra.
  - vm_compute. repeat split; reflexivity.
Qed.

Lemma C8_Update_statistics_witness :
  (let h := updates (NewHistogram sample1028) [b64 3; b64 1; b64 2] in
   Count h = 3%Z /\ Sum h = fold_left f_add [b64 3; b64 1; b64 2] f_zero) /\
  (let h := updates (NewHistogram sample1028x) (map Xreal [3; 1; 2]) in
   Count h = 3%Z /\
   Sum h = Xreal (Rsum [3; 1; 2]) /\
   (exists m, Min h = Xreal m /\ is_min [3; 1; 2] m) /\
   (exists m, Max h = Xreal m /\ is_max [3; 1; 2] m) /\
   Mean h = Xreal (Rsum [3; 1; 2] / INR 3)) /\
  (let h0 := updates (NewHistogram sample1028x) (map Xreal [3; 1]) in
   let h1 := Update h0 (Xreal 2) in
   exists M S0 M' S',
     varianceM h0 = Xreal M /\ varianceS h0 = Xreal S0 /\
     varianceM h1 = Xreal M' /\ varianceS h1 = Xreal S' /\
     M' = M + (2 - M) / IZR (Count h1) /\
     S' = S0 + (2 - M) * (2 - M')).
Proof.
  destruct C8_Update_statistics as (P1 & P2 & _ & P4 & _).
  split; [|split].
  - apply (P1 _ _ _ _ sample1028 [b64 3; b64 1; b64 2]).
    apply Z.leb_le. reflexivity.
  - apply (P2 _ _ sample1028x [3; 1; 2]).
    + discriminate.
    + apply Z.leb_le. reflexivity.
  - apply (P4 _ _ sample1028x [3; 1] 2).
    apply Z.leb_le. reflexivity.
Defined.

End Histogram_claims_Update.

(* ------------------------------------------------------------------ *)
(** ** Sorting and ranks, in exact arithmetic *)

Section Sort_exact.
Import Histogram Stats.
Local Open Scope R_scope.

Lemma Less_real (a b : R) : Less (Xreal a) (Xreal b) = XR.ltb (Xreal a) (Xreal b).
Proof.
  unfold Less, f_isNaN. xr. rewrite XR_eqb_refl. simpl.
  apply orb_false_r.
Qed.

Lemma insert_real (x : R) (l : list R) :
  StronglySorted Rle l ->
  exists l', insert (Xreal x) (map Xreal l) = map Xreal l' /\
             Permutation l' (x :: l) /\ StronglySorted Rle l'.
Proof.
  induction l as [|y l IH]; intro Hs.
  - exists [x]. repeat split; [apply Permutation_refl|].
    constructor; constructor.
  - apply StronglySorted_inv in Hs. destruct Hs as [Hs Hy].
    simpl. rewrite Less_real. unfold XR.ltb.
    destruct (Rlt_dec y x) as [Hlt|Hge].
    + destruct (IH Hs) as (l' & E & P & S'). rewrite E.
      exists (y :: l'). split; [reflexivity|]. split.
      * apply perm_trans with (y :: x :: l); [apply perm_skip; exact P|apply perm_swap].
      * constructor; [exact S'|].
        apply (Permutation_Forall (Permutation_sym P)).
        constructor; [lra|exact Hy].
    + exists (x :: y :: l). split; [reflexivity|]. split; [apply Permutation_refl|].
      constructor; [constructor; assumption|].
      constructor; [lra|].
      eapply Forall_impl; [|exact Hy]. intros a Ha. simpl in Ha. lra.
Qed.

Lemma sort_real (rs : list R) :
  exists sorted, sort (map Xreal rs) = map Xreal sorted /\
                 Permutation sorted rs /\ StronglySorted Rle sorted.
Proof.
  induction rs as [|x rs (l & E & P & Hs)].
  - exists []. repeat split; constructor.
  - simpl. rewrite E. destruct (insert_real x l Hs) as (l' & E' & P' & Hs').
    exists l'. split; [exact E'|]. split; [|exact Hs'].
    apply perm_trans with (x :: l); [exact P'|apply perm_skip; exact P].
Qed.

Lemma sorted_nth_le (l : list R) :
  StronglySorted Rle l ->
  forall i j a b, (i <= j)%nat ->
  nth_error l i = Some a -> nth_error l j = Some b -> a <= b.
Proof.
  induction 1 as [|x l Hs IH Hx]; intros i j a b Hij Ea Eb.
  - destruct i; discriminate.
  - destruct i as [|i], j as [|j]; simpl in Ea, Eb.
    + inversion Ea; inversion Eb; subst. lra.
    + inversion Ea; subst. apply nth_error_In in Eb.
      rewrite Forall_forall in Hx. apply Hx. exact Eb.
    + lia.
    + apply (IH i j); [lia|assumption|assumption].
Qed.

Lemma sorted_first_is_min (l : list R) (a : R) :
  StronglySorted Rle l -> nth_error l 0 = Some a -> is_min l a.
Proof.
  intros Hs Ea. split; [eapply nth_error_In; exact Ea|].
  intros x Hx. apply In_nth_error in Hx. destruct Hx as [j Ej].
  apply (sorted_nth_le l Hs 0 j); [lia|assumption|assumption].
Qed.

Lemma sorted_last_is_max (l : list R) (b : R) :
  StronglySorted Rle l -> nth_error l (length l - 1) = Some b -> is_max l b.
Proof.
  intros Hs Eb. split; [eapply nth_error_In; exact Eb|].
  intros x Hx. apply In_nth_error in Hx. destruct Hx as [i Ei].
  assert (i < length l)%nat by (apply nth_error_Some; congruence).
  apply (sorted_nth_le l Hs i (length l - 1)); [lia|assumption|assumption].
Qed.

Lemma is_min_perm (l l' : list R) (m : R) :
  Permutation l l' -> is_min l m -> is_min l' m.
Proof.
  intros P [Hin Hle]. split; [eapply Permutation_in; eassumption|].
  intros x Hx. apply Hle. eapply Permutation_in; [apply Permutation_sym|]; eassumption.
Qed.

Lemma is_max_perm (l l' : list R) (m : R) :
  Permutation l l' -> is_max l m -> is_max l' m.
Proof.
  intros P [Hin Hle]. split; [eapply Permutation_in; eassumption|].
  intros x Hx. apply Hle. eapply Permutation_in; [apply Permutation_sym|]; eassumption.
Qed.

Lemma index_real (l : list R) (k : Z) (v : R) :
  (0 <= k)%Z -> nth_error l (Z.to_nat k) = Some v ->
  index (map Xreal l) k = Ok (Xreal v).
Proof.
  intros Hk E. unfold index. destruct (Z.ltb_spec k 0); [lia|].
  rewrite (map_nth_error Xreal _ _ E). reflexivity.
Qed.

Lemma nth_error_in_range (l : list R) (k : nat) :
  (k < length l)%nat -> exists v, nth_error l k = Some v.
Proof.
  intro Hk. destruct (nth_error l k) as [v|] eqn:E; [eauto|].
  apply nth_error_None in E. lia.
Qed.

End Sort_exact.

(* ------------------------------------------------------------------ *)
(** ** The integer part of a real number *)

Section Trunc_exact.
Local Open Scope R_scope.

Lemma Int_part_nonneg (r : R) : 0 <= r -> (0 <= Int_part r)%Z.
Proof.
  intro Hr. destruct (base_Int_part r) as [_ H2].
  assert (IZR (-1) < IZR (Int_part r)) as H3 by lra.
  apply lt_IZR in H3. lia.
Qed.

Lemma truncZ_nonneg (r : R) : 0 <= r -> XR.truncZ r = Int_part r.
Proof. intro Hr. unfold XR.truncZ. destruct (Rlt_dec r 0); [lra|reflexivity]. Qed.

Lemma truncZ_neg (r : R) : r < 0 -> (XR.truncZ r <= 0)%Z /\ - r <= IZR (- XR.truncZ r) + 1.
Proof.
  intro Hr. unfold XR.truncZ. destruct (Rlt_dec r 0); [|lra].
  pose proof (Int_part_nonneg (- r) ltac:(lra)).
  destruct (base_Int_part (- r)) as [H1 H2].
  split; [lia|]. rewrite Z.opp_involutive. lra.
Qed.

Lemma truncZ_lt_1 (r : R) : (XR.truncZ r < 1)%Z <-> r < 1.
Proof.
  destruct (Rlt_dec r 0) as [Hneg|Hpos].
  - pose proof (truncZ_neg r Hneg). split; intro; [lra|lia].
  - rewrite truncZ_nonneg by lra. destruct (base_Int_part r) as [H1 H2]. split; intro H.
    + assert (IZR (Int_part r) <= 0) by (apply (IZR_le _ 0); lia). lra.
    + apply lt_IZR. lra.
Qed.

Lemma truncZ_ge (n : Z) (r : R) : (1 <= n)%Z -> (n <= XR.truncZ r)%Z <-> IZR n <= r.
Proof.
  intro Hn. assert (1 <= IZR n) by (apply (IZR_le 1); exact Hn).
  destruct (Rlt_dec r 0) as [Hneg|Hpos].
  - pose proof (truncZ_neg r Hneg). split; intro; [lia|lra].
  - rewrite truncZ_nonneg by lra. destruct (base_Int_part r) as [H1 H2]. split; intro H3.
    + apply IZR_le in H3. lra.
    + assert (IZR n < IZR (Int_part r + 1)) by (rewrite plus_IZR; lra).
      apply lt_IZR in H0. lia.
Qed.

(** Where [pos] is in the range of [int], [int(pos)] is its integer part. *)
Lemma to_int_real (r : R) :
  IZR min_int <= r < IZR max_int + 1 ->
  XR.to_int (Xreal r) = Some (XR.truncZ r).
Proof.
  intros [Hlo Hhi]. unfold XR.to_int.
  assert (min_int <= XR.truncZ r <= max_int)%Z as [H1 H2].
  { destruct (Rlt_dec r 0) as [Hneg|Hpos].
    - destruct (truncZ_neg r Hneg) as [Ha Hb]. split; [|unfold max_int; lia].
      destruct (Z.le_gt_cases min_int (XR.truncZ r)) as [|Hlt]; [assumption|exfalso].
      assert (XR.truncZ r + 1 <= min_int)%Z as Hc by lia.
      apply IZR_le in Hc. rewrite plus_IZR in Hc. rewrite opp_IZR in Hb.
      unfold XR.truncZ in *. destruct (Rlt_dec r 0); [|lra].
      destruct (base_Int_part (- r)) as [H3 H4]. rewrite opp_IZR in *. lra.
    - rewrite truncZ_nonneg by lra. pose proof (Int_part_nonneg r ltac:(lra)).
      destruct (base_Int_part r) as [H3 H4]. split; [unfold min_int; lia|].
      assert (IZR (Int_part r) < IZR (max_int + 1)) by (rewrite plus_IZR; lra).
      apply lt_IZR in H0. lia. }
  apply Z.leb_le in H1, H2. rewrite H1, H2. reflexivity.
Qed.

End Trunc_exact.

(* ------------------------------------------------------------------ *)
(** ** Histogram in exact arithmetic: Percentiles *)

Section Percentiles_exact.
Import Histogram Stats.
Context {S : Type} {SO : Sample.ops xreal S} {SC : Sample.contract xreal S}.
Variable int_impl : xreal -> Z.
Local Open Scope R_scope.

Lemma score_exact (l : list R) (p : R) :
  StronglySorted Rle l -> l <> [] -> (Z.of_nat (length l) < max_int)%Z ->
  in_int_range (n_of l) p ->
  exists r, score int_impl (map Xreal l) (Xreal p) = Ok (Xreal r) /\ percentile l p r.
Proof.
  intros Hs Hne Hlen Hp.
  pose proof (n_of_pos l Hne) as Hn. pose proof (n_of_IZR l) as HIZR.
  assert (Hn1 : (1 <= Z.of_nat (length l))%Z).
  { rewrite <- HIZR in Hn. apply le_IZR in Hn. exact Hn. }
  unfold score, len. rewrite length_map.
  rewrite (wrap_int_small (Z.of_nat (length l) + 1)) by (unfold min_int, max_int in *; lia).
  xr. rewrite plus_IZR, HIZR.
  set (pos := p * (n_of l + 1)) in *.
  unfold int. cbn [f_to_int exact]. rewrite (to_int_real pos Hp).
  pose proof (truncZ_lt_1 pos) as Hlt1.
  pose proof (truncZ_ge (Z.of_nat (length l)) pos Hn1) as Hge. rewrite HIZR in Hge.
  unfold percentile. fold pos.
  destruct (Z.ltb_spec (XR.truncZ pos) 1) as [H1|H1].
  - destruct (nth_error_in_range l 0) as [a Ea]; [lia|].
    exists a. split; [apply index_real; [lia|exact Ea]|].
    apply Hlt1 in H1.
    split; [intros _; apply sorted_first_is_min; assumption|].
    split; intro; lra.
  - assert (Hpos1 : 1 <= pos).
    { destruct (Rle_dec 1 pos); [assumption|]. exfalso.
      assert (pos < 1) as Hc by lra. apply Hlt1 in Hc. lia. }
    destruct (Z.leb_spec (Z.of_nat (length l)) (XR.truncZ pos)) as [H2|H2].
    + rewrite wrap_int_small by (unfold min_int, max_int in *; lia).
      destruct (nth_error_in_range l (length l - 1)) as [b Eb]; [lia|].
      exists b. split.
      * apply index_real; [lia|]. replace (Z.to_nat (Z.of_nat (length l) - 1)) with (length l - 1)%nat by lia.
        exact Eb.
      * apply Hge in H2.
        split; [intro; lra|].
        split; [intros _; apply sorted_last_is_max; assumption|intro; lra].
    + assert (Hposn : pos < n_of l).
      { destruct (Rlt_dec pos (n_of l)); [assumption|]. exfalso.
        assert (n_of l <= pos) as Hc by lra. apply Hge in Hc. lia. }
      rewrite truncZ_nonneg in * by lra.
      set (k := Int_part pos) in *.
      rewrite wrap_int_small by (unfold min_int, max_int in *; lia).
      destruct (nth_error_in_range l (Z.to_nat (k - 1))) as [lower El]; [lia|].
      destruct (nth_error_in_range l (Z.to_nat k)) as [upper Eu]; [lia|].
      rewrite (index_real l (k - 1) lower) by (try lia; exact El).
      rewrite (index_real l k upper) by (try lia; exact Eu).
      simpl bind. xr. fold k.
      eexists. split; [reflexivity|].
      split; [intro; lra|]. split; [intro; lra|].
      intros _. exists lower, upper.
      split; [split; [lia|exact El]|].
      split; [|reflexivity].
      split; [lia|]. replace (k + 1 - 1)%Z with k by lia. exact Eu.
Qed.

Lemma scores_exact (l : list R) (ps : list R) :
  StronglySorted Rle l -> l <> [] -> (Z.of_nat (length l) < max_int)%Z ->
  Forall (in_int_range (n_of l)) ps ->
  exists scores, scores_of int_impl (map Xreal l) (map Xreal ps) = Ok (map Xreal scores) /\
                 Forall2 (percentile l) ps scores.
Proof.
  intros Hs Hne Hlen Hps. induction Hps as [|p ps Hp Hps (ss & Ess & Hss)]; simpl.
  - exists []. split; [reflexivity|constructor].
  - destruct (score_exact l p Hs Hne Hlen Hp) as (r & Er & Hr).
    rewrite Er, Ess. simpl.
    exists (r :: ss). split; [reflexivity|]. constructor; assumption.
Qed.

End Percentiles_exact.

(** The percentiles between 0 and 1 are in the range of [int], whatever the
    length of the snapshot. *)
Lemma unit_interval_in_int_range (rs : list R) (p : R) :
  (Z.of_nat (length rs) < max_int)%Z -> (0 <= p <= 1)%R ->
  Stats.in_int_range (Stats.n_of rs) p.
Proof.
  intros Hlen Hp. unfold Stats.in_int_range.
  apply IZR_lt in Hlen. rewrite n_of_IZR in Hlen.
  assert (0 <= Stats.n_of rs)%R by apply pos_INR.
  assert (IZR min_int <= 0)%R by (apply (IZR_le _ 0); unfold min_int; lia).
  split; nra.
Qed.

(** The Histogram fed 1, ..., 100, in binary64: the median, the minimum
    and the maximum. *)
Lemma Percentiles_h100 :
  Histogram.Percentiles amd64 h100 [b64 (1 # 2); b64 0; b64 1] =
  Ok [b64 (101 # 2); b64 1; b64 100].
Proof. vm_compute. reflexivity. Qed.

(** C5: in exact arithmetic, for a Histogram with a positive count, whose
    snapshot holds the numbers [rs], and percentiles [ps] whose positions
    are in the range of [int]: [Percentiles] sorts the snapshot ascending,
    and the score of each [p], with [n] the length of the snapshot and
    [pos = p * (n + 1)], is the minimum of the snapshot if [pos < 1], its
    maximum if [pos >= n], and otherwise the interpolation between the
    elements of ranks [floor(pos)] and [floor(pos) + 1], with the fractional
    part of [pos] as weight.  [Percentiles([0])] is the minimum and
    [Percentiles([1])] the maximum of the snapshot. *)
Theorem C5_Percentiles {S : Type} {SO : Sample.ops xreal S}
    {SC : Sample.contract xreal S}
    (int_impl : xreal -> Z) (h : Histogram.t xreal S) (rs ps : list R) :
  Histogram.reachable h ->
  (0 < Histogram.count h)%Z ->
  Sample.Values (Histogram.sample h) = map Xreal rs ->
  Forall (Stats.in_int_range (Stats.n_of rs)) ps ->
  exists sorted,
    Histogram.sort (Sample.Values (Histogram.sample h)) = map Xreal sorted /\
    Permutation sorted rs /\ StronglySorted Rle sorted /\
    (exists scores,
       Histogram.Percentiles int_impl h (map Xreal ps) = Ok (map Xreal scores) /\
       Forall2 (Stats.percentile sorted) ps scores) /\
    (exists m, Histogram.Percentiles int_impl h [Xreal 0] = Ok [Xreal m] /\
               Stats.is_min rs m) /\
    (exists m, Histogram.Percentiles int_impl h [Xreal 1] = Ok [Xreal m] /\
               Stats.is_max rs m).
Proof.
  intros Hh Hc Ev Hps.
  destruct (reachable_sample h Hh) as [Hw Hv].
  assert (Hne : rs <> []).
  { intro E. apply Hv; [lia|]. rewrite Ev, E. reflexivity. }
  pose proof (Sample.Values_len _ Hw) as Hlen. rewrite Ev, length_map in Hlen.
  destruct (sort_real rs) as (sorted & Es & P & Hs).
  assert (Hl : length sorted = length rs) by (apply Permutation_length; exact P).
  assert (Hn : Stats.n_of sorted = Stats.n_of rs) by (unfold Stats.n_of; rewrite Hl; reflexivity).
  assert (Hne' : sorted <> []).
  { intro E. rewrite E in Hl. destruct rs; [contradiction|discriminate]. }
  assert (Hlen' : (Z.of_nat (length sorted) < max_int)%Z) by (rewrite Hl; exact Hlen).
  assert (HP : forall qs, Histogram.Percentiles int_impl h (map Xreal qs) =
                          Histogram.scores_of int_impl (map Xreal sorted) (map Xreal qs)).
  { intro qs. unfold Histogram.Percentiles.
    destruct (Z.eqb_spec (Histogram.count h) 0); [lia|]. rewrite Ev, Es. reflexivity. }
  pose proof (n_of_pos rs Hne) as Hn1.
  exists sorted. split; [rewrite Ev; exact Es|]. split; [exact P|]. split; [exact Hs|].
  split; [|split].
  - rewrite HP. apply scores_exact; try assumption. rewrite Hn. exact Hps.
  - destruct (scores_exact int_impl sorted [0%R] Hs Hne' Hlen') as (ss & Ess & Hss).
    { constructor; [|constructor]. unfold Stats.in_int_range. rewrite Rmult_0_l.
      unfold min_int, max_int. split; [apply (IZR_le _ 0); lia|].
      assert (0 <= IZR (2 ^ 63 - 1))%R by (apply (IZR_le 0); lia). lra. }
    inversion Hss as [|p r ps' ss' Hr Hrest]; subst. inversion Hrest; subst.
    exists r. split; [exact (eq_trans (HP [0%R]) Ess)|].
    apply (is_min_perm sorted rs r P). apply Hr.
    rewrite Rmult_0_l. lra.
  - destruct (scores_exact int_impl sorted [1%R] Hs Hne' Hlen') as (ss & Ess & Hss).
    { constructor; [|constructor]. unfold Stats.in_int_range. rewrite Rmult_1_l, Hn.
      rewrite <- (n_of_IZR rs). apply IZR_lt in Hlen.
      assert (IZR min_int <= 0)%R by (apply (IZR_le _ 0); unfold min_int; lia).
      assert (0 <= IZR (Z.of_nat (length rs)))%R by (apply (IZR_le 0); lia).
      lra. }
    inversion Hss as [|p r ps' ss' Hr Hrest]; subst. inversion Hrest; subst.
    exists r. split; [exact (eq_trans (HP [1%R]) Ess)|].
    apply (is_max_perm sorted rs r P). apply Hr.
    rewrite Rmult_1_l. lra.
Qed.

Lemma C5_Percentiles_witness :
  let h := Histogram.updates (Histogram.NewHistogram sample1028x) (map Xreal [3; 1; 2]%R) in
  (exists m, Histogram.Percentiles (fun _ => min_int) h [Xreal 0] = Ok [Xreal m] /\
             Stats.is_min [3; 1; 2]%R m) /\
  (exists m, Histogram.Percentiles (fun _ => min_int) h [Xreal 1] = Ok [Xreal m] /\
             Stats.is_max [3; 1; 2]%R m).
Proof.
  cbv zeta.
  destruct (C5_Percentiles (fun _ => min_int)
              (Histogram.updates (Histogram.NewHistogram sample1028x) (map Xreal [3; 1; 2]%R))
              [3; 1; 2]%R [(1 / 2)%R])
    as (sorted & _ & _ & _ & _ & Hmin & Hmax).
  - apply reachable_updates. apply Histogram.reach_New.
    apply wf_NewUniformSample. reflexivity.
  - reflexivity.
  - reflexivity.
  - constructor; [|constructor].
    apply unit_interval_in_int_range; [reflexivity|lra].
  - split; assumption.
Defined.

(* ================================================================== *)
(** * Further properties of the code *)

(* ------------------------------------------------------------------ *)
(** ** EWMA: a constant input *)

Section EWMA_constant_input.
Import EWMA.
Local Open Scope R_scope.

Lemma period_exact (i : Z) (a v r : R) :
  (i <> 0)%Z ->
  EWMA_period (Xreal v) (mk i (Xreal a) (Xreal 0) (Xreal r)) =
  mk i (Xreal a) (Xreal 0)
     (Xreal (if Req_dec_T r 0 then v / IZR i
             else r + a * (v / IZR i - r))).
Proof.
  intro Hi. assert (IZR i <> 0) by (apply not_0_IZR; exact Hi).
  unfold EWMA_period, Update, Tick. cbn [interval alpha uncounted rate]. xr.
  rewrite XR_div_real by assumption. unfold XR.eqb.
  replace (0 + v) with v by lra.
  destruct (Req_dec_T r 0); xr; reflexivity.
Qed.

(** X1: in exact arithmetic, an EWMA whose periods all count the same
    amount [v] converges geometrically to [v / interval], whatever its rate
    was: after [k] ticks the distance to that rate is at most
    [(1 - alpha)^k] times the distance at the start. *)
Theorem EWMA_constant_input_converges (i : Z) (a v r0 : R) (k : nat) :
  (0 < i)%Z -> 0 <= a <= 1 ->
  exists rk,
    Nat.iter k (EWMA_period (Xreal v)) (mk i (Xreal a) (Xreal 0) (Xreal r0)) =
      mk i (Xreal a) (Xreal 0) (Xreal rk) /\
    Rabs (rk - v / IZR i) <= (1 - a) ^ k * Rabs (r0 - v / IZR i).
Proof.
  intros Hi Ha. induction k as [|k (rk & Ek & Hk)].
  - exists r0. split; [reflexivity|]. simpl. lra.
  - simpl Nat.iter. rewrite Ek, period_exact by lia.
    eexists. split; [reflexivity|].
    pose proof (Rabs_pos (r0 - v / IZR i)) as Hpos.
    assert (0 <= (1 - a) ^ k) as Hpow by (apply pow_le; lra).
    destruct (Req_dec_T rk 0) as [E0|N0].
    + replace (v / IZR i - v / IZR i) with 0 by lra. rewrite Rabs_R0.
      apply Rmult_le_pos; [apply pow_le; lra|exact Hpos].
    + replace (rk + a * (v / IZR i - rk) - v / IZR i)
        with ((1 - a) * (rk - v / IZR i)) by ring.
      rewrite Rabs_mult, (Rabs_pos_eq (1 - a)) by lra.
      simpl pow. rewrite Rmult_assoc.
      apply Rmult_le_compat_l; [lra|exact Hk].
Qed.

Lemma EWMA_constant_input_converges_witness :
  exists rk,
    Nat.iter 3 (EWMA_period (Xreal 10)) (mk 5 (Xreal (1 / 2)) (Xreal 0) (Xreal 1)) =
      mk 5 (Xreal (1 / 2)) (Xreal 0) (Xreal rk) /\
    Rabs (rk - 10 / IZR 5) <= (1 - 1 / 2) ^ 3 * Rabs (1 - 10 / IZR 5).
Proof.
  apply (EWMA_constant_input_converges 5 (1 / 2) 10 1 3).
  - reflexivity.
  - lra.
Defined.

(** X2: in exact arithmetic, a new EWMA whose periods all count the same
    amount [v] reports exactly [v / interval] after every tick, whatever its
    smoothing constant. *)
Theorem EWMA_new_constant_input (i : Z) (a v : R) (k : nat) :
  (0 < i)%Z ->
  Nat.iter (S k) (EWMA_period (Xreal v)) (NewEWMA i (Xreal a)) =
  mk i (Xreal a) (Xreal 0) (Xreal (v / IZR i)).
Proof.
  intro Hi. induction k as [|k IH].
  - simpl Nat.iter. change (NewEWMA i (Xreal a)) with (mk i (Xreal a) (Xreal 0) (Xreal 0)).
    rewrite period_exact by lia.
    destruct (Req_dec_T 0 0); [reflexivity|contradiction].
  - change (Nat.iter (S (S k)) (EWMA_period (Xreal v)) (NewEWMA i (Xreal a)))
      with (EWMA_period (Xreal v)
              (Nat.iter (S k) (EWMA_period (Xreal v)) (NewEWMA i (Xreal a)))).
    rewrite IH, period_exact by lia.
    destruct (Req_dec_T (v / IZR i) 0) as [E0|N0]; [reflexivity|].
    do 2 f_equal. ring.
Qed.

Lemma EWMA_new_constant_input_witness :
  Rate (Nat.iter 3 (EWMA_period (Xreal 10)) (NewEWMA 5 (Xreal (Q2R M1_ALPHA)))) =
  Xreal (10 / IZR 5).
Proof.
  rewrite (EWMA_new_constant_input 5 (Q2R M1_ALPHA) 10 2); reflexivity.
Defined.

(** X3: in binary64, an EWMA at its steady state stays there bit for bit:
    when the rate is a finite number other than zero and the instantaneous
    rate of the period is that same number, [Tick] leaves the rate as it is,
    for every smoothing constant that is a number. *)
Theorem EWMA_steady_state_binary64 (e : EWMA.t spec_float)
    (s : bool) (m : positive) (x : Z) :
  rate e = S754_finite s m x ->
  instantRate e = rate e ->
  is_number (alpha e) = true ->
  Rate (Tick e) = rate e.
Proof.
  intros Er Ei Ha. unfold Rate, Tick. fold (instantRate e). rewrite Ei, Er.
  change (@f_zero spec_float _) with (S754_zero false).
  cbn [f_eqb f_add f_sub f_mul binary64 rate].
  assert (Esub : SFsub B64.prec B64.emax (S754_finite s m x) (S754_finite s m x)
                 = S754_zero false).
  { unfold SFsub. rewrite Z.sub_diag. reflexivity. }
  rewrite Esub.
  replace (SFeqb (S754_finite s m x) (S754_zero false)) with false
    by (destruct s; reflexivity).
  cbn [rate]. destruct (alpha e) as [sa|sa| |sa ma xa]; try discriminate; reflexivity.
Qed.

Lemma EWMA_steady_state_binary64_witness :
  let e := mk 5 (b64 M1_ALPHA) (b64 10) (b64 2) in
  Rate (Tick e) = b64 2.
Proof.
  apply (EWMA_steady_state_binary64 (mk 5 (b64 M1_ALPHA) (b64 10) (b64 2))
           false 4503599627370496 (-51)); reflexivity.
Defined.

End EWMA_constant_input.

(* ------------------------------------------------------------------ *)
(** ** Meter: counts, rates and faults along a run *)

Section Meter_runs.
Import Meter.
Context {F : Type} {FO : Float64Ops F}.

Lemma Stop_keeps_meter (w w' : world F) :
  Stop w = Ok w' -> meter w' = meter w /\ watcher w' = watcher w.
Proof.
  unfold Stop. destruct (ticker (meter w)); [|intro E; inversion E; auto].
  simpl. destruct (tickerStopChan (meter w)); [|discriminate].
  destruct (chanClosed w); [discriminate|]. intro E; inversion E; auto.
Qed.

Lemma step_count (w w' : world F) (e : event) :
  step w e = Ok w' ->
  count (meter w') =
    match e with
    | CallUpdate delta => wrap_uint64 (count (meter w) + delta)
    | _ => count (meter w)
    end.
Proof.
  destruct e as [|delta| |]; simpl; intro E.
  - apply Stop_keeps_meter in E. destruct E as [-> _]. reflexivity.
  - inversion E; subst. reflexivity.
  - inversion E; subst. unfold tickWatcher_step.
    destruct (watcher w); try reflexivity. destruct (chanClosed w); reflexivity.
  - inversion E; subst. unfold ticker_fires.
    destruct (watcher w); try reflexivity. destruct (tickerStopped w); reflexivity.
Qed.

Lemma run_count (es : list event) :
  forall w w' : world F, run w es = Ok w' ->
  wrap_uint64 (count (meter w')) = wrap_uint64 (count (meter w) + deltas es).
Proof.
  unfold wrap_uint64.
  induction es as [|e es IH]; intros w w' E.
  - inversion E; subst. simpl. rewrite Z.add_0_r. reflexivity.
  - simpl in E. destruct (step w e) as [w1|p] eqn:E1; [|discriminate]. simpl in E.
    rewrite (IH _ _ E). rewrite (step_count _ _ _ E1).
    destruct e as [|delta| |]; simpl deltas; try reflexivity.
    unfold wrap_uint64. rewrite Zplus_mod_idemp_l. f_equal. lia.
Qed.

(** X4: the count of a Meter is the sum of the deltas of its [Update]s,
    modulo 2^64, whatever ticks, [Stop]s and steps of the goroutine come in
    between. *)
Theorem Meter_Count_along_run (es : list event) (w : world F) :
  run start es = Ok w -> Count (meter w) = wrap_uint64 (deltas es).
Proof.
  intro E. pose proof (run_count es _ _ E) as Hc. simpl in Hc.
  unfold Count. rewrite <- Hc. clear Hc.
  assert (Hr : forall es (w0 w1 : world F), run w0 es = Ok w1 ->
            0 <= count (meter w0) < 2 ^ 64 -> 0 <= count (meter w1) < 2 ^ 64).
  { clear. induction es as [|e es IH]; intros w0 w1 E H0.
    - inversion E; subst. exact H0.
    - simpl in E. destruct (step w0 e) as [w2|p] eqn:E1; [|discriminate]. simpl in E.
      apply (IH _ _ E). rewrite (step_count _ _ _ E1).
      destruct e; try exact H0. unfold wrap_uint64. apply Z.mod_pos_bound. lia. }
  specialize (Hr es _ _ E). unfold wrap_uint64. symmetry. apply Z.mod_small.
  apply Hr. simpl. lia.
Qed.

End Meter_runs.

Lemma Meter_Count_along_run_witness :
  exists w : Meter.world spec_float,
    Meter.run Meter.start
      [Meter.CallUpdate 5; Meter.TickerFires; Meter.CallUpdate 5; Meter.CallStop;
       Meter.Watcher; Meter.CallUpdate 5] = Ok w /\
    Meter.Count (Meter.meter w) = 15.
Proof.
  eexists. split; [vm_compute; reflexivity|].
  apply (Meter_Count_along_run
           [Meter.CallUpdate 5; Meter.TickerFires; Meter.CallUpdate 5; Meter.CallStop;
            Meter.Watcher; Meter.CallUpdate 5]).
  vm_compute. reflexivity.
Defined.

Section Meter_Stop_statements.
Import Statements.
Context {F : Type} {FO : Float64Ops F}.

Lemma step_pointers_set (w w' : world F) (e : event) :
  pointers_set w -> step w e = Done w' ->
  pointers_set w' /\
  (Stops_needed w + Stop_calls (program w') <=
   Stops_needed w' + Stop_calls (program w))%nat.
Proof.
  unfold pointers_set, Stops_needed. intros J E.
  destruct (Meter.chanClosed (shared w)) eqn:Ec.
  - (* the channel is closed, and stays so *)
    destruct e; simpl in E.
    + unfold caller_step in E. destruct (pc w) eqn:Epc.
      * destruct (program w) as [|[|delta] rest] eqn:Ep.
        -- injection E as <-. rewrite Ec, Epc, Ep. split; [discriminate|lia].
        -- destruct (Meter.ticker (Meter.meter (shared w))); injection E as <-; simpl;
             rewrite Ec; (split; [discriminate|lia]).
        -- injection E as <-. simpl. rewrite Ec. split; [discriminate|lia].
      * destruct (Meter.ticker (Meter.meter (shared w))); [|discriminate].
        injection E as <-. simpl. rewrite Ec. split; [discriminate|lia].
      * destruct (Meter.tickerStopChan (Meter.meter (shared w))); [|discriminate].
        rewrite Ec in E. discriminate.
    + injection E as <-. simpl. unfold Meter.tickWatcher_step.
      destruct (Meter.watcher (shared w)); simpl; rewrite ?Ec; simpl; rewrite ?Ec;
        (split; [discriminate|]); destruct (pc w); lia.
    + injection E as <-. simpl. unfold take_tick.
      destruct (Meter.watcher (shared w)); simpl; rewrite ?Ec;
        (split; [discriminate|]); destruct (pc w); lia.
  - (* the channel is open: the goroutine is in its loop *)
    destruct (J eq_refl) as (Hw & Hp & Hq).
    destruct e; simpl in E.
    + unfold caller_step in E. destruct (pc w) eqn:Epc.
      * destruct (program w) as [|[|delta] rest] eqn:Ep.
        -- injection E as <-. rewrite Ec, Epc, Ep. split; [intros _; auto|lia].
        -- destruct (Meter.ticker (Meter.meter (shared w))) eqn:Et; [|congruence].
           injection E as <-. simpl. rewrite Ec.
           split; [intros _; repeat split; [exact Hw|rewrite Et; discriminate|exact Hq]|lia].
        -- injection E as <-. simpl. rewrite Ec.
           split; [intros _; auto|lia].
      * destruct (Meter.ticker (Meter.meter (shared w))) eqn:Et; [|discriminate].
        injection E as <-. simpl.
        split; [intros _; repeat split; [exact Hw|rewrite Et; discriminate|exact Hq]|].
        rewrite Ec. lia.
      * destruct (Meter.tickerStopChan (Meter.meter (shared w))) eqn:Eq; [|discriminate].
        rewrite Ec in E. injection E as <-. simpl.
        split; [discriminate|lia].
    + injection E as <-. simpl. unfold Meter.tickWatcher_step. rewrite Hw, Ec, Ec.
      split; [intros _; auto|]. destruct (pc w); lia.
    + injection E as <-. simpl. unfold take_tick. rewrite Hw. simpl. rewrite Ec.
      split; [intros _; auto|]. destruct (pc w); lia.
Qed.

Lemma run_fault (es : list event) :
  forall (w : world F) (f : fault),
  pointers_set w -> run w es = Fault f ->
  (f = Panics CloseOfClosedChannel \/ f = Panics CloseOfNilChannel \/ f = NilDereference) /\
  (Stops_needed w <= Stop_calls (program w))%nat.
Proof.
  induction es as [|e es IH]; intros w f J E; [discriminate|].
  simpl in E. destruct (step w e) as [w1|g] eqn:E1.
  - destruct (step_pointers_set _ _ _ J E1) as (J1 & Hn).
    destruct (IH _ _ J1 E) as [Hf Hn1]. split; [exact Hf|]. lia.
  - inversion E; subst g. clear E.
    destruct e; simpl in E1; try discriminate.
    unfold caller_step in E1. unfold pointers_set in J. unfold Stops_needed.
    destruct (pc w) eqn:Epc.
    + destruct (program w) as [|[|delta] rest]; try discriminate.
      destruct (Meter.ticker (Meter.meter (shared w))); discriminate.
    + destruct (Meter.ticker (Meter.meter (shared w))) eqn:Et; [discriminate|].
      inversion E1; subst f. split; [auto|].
      destruct (Meter.chanClosed (shared w)) eqn:Ec; [lia|].
      destruct (J eq_refl) as (_ & Hp & _). congruence.
    + destruct (Meter.tickerStopChan (Meter.meter (shared w))) eqn:Eq.
      * destruct (Meter.chanClosed (shared w)) eqn:Ec; [|discriminate].
        inversion E1; subst f. split; [auto|lia].
      * inversion E1; subst f. split; [auto|].
        destruct (Meter.chanClosed (shared w)) eqn:Ec; [lia|].
        destruct (J eq_refl) as (_ & _ & Hq). congruence.
Qed.

(** X5: what can go wrong in a Meter, with [Stop] run statement by
    statement against the goroutine.  A run ends in one of three faults
    only: the close of the closed channel, the close of the nil channel,
    or the dereference of the nil ticker in [m.ticker.Stop()]; and only in
    a program that calls [Stop] twice or more: a program with at most one
    [Stop] never fails, whatever the schedule.  Each of the three faults
    does happen in a program that calls [Stop] twice. *)
Theorem Meter_Stop_faults (prog : list call) (es : list event) :
  (forall f, run (F := F) (start prog) es = Fault f ->
     (f = Panics CloseOfClosedChannel \/ f = Panics CloseOfNilChannel \/
      f = NilDereference) /\
     (2 <= Stop_calls prog)%nat) /\
  ((Stop_calls prog <= 1)%nat -> exists w, run (F := F) (start prog) es = Done w) /\
  run (F := F) (start [CallStop; CallStop])
      [Caller; Caller; Caller; Caller; Caller; Caller]
    = Fault (Panics CloseOfClosedChannel) /\
  run (F := F) (start [CallStop; CallStop])
      [Caller; Caller; Caller; Caller; Caller; Goroutine; Goroutine; Goroutine; Caller]
    = Fault (Panics CloseOfNilChannel) /\
  run (F := F) (start [CallStop; CallStop])
      [Caller; Caller; Caller; Caller; Goroutine; Goroutine; Caller]
    = Fault NilDereference.
Proof.
  assert (J0 : pointers_set (start (F := F) prog)).
  { unfold pointers_set. simpl. intros _. repeat split; discriminate. }
  split; [|split].
  - intros f E. apply (run_fault es _ f J0 E).
  - intro Hs. destruct (run (start prog) es) as [w|f] eqn:E; [eauto|].
    destruct (run_fault es _ f J0 E) as [_ H2].
    change (2 <= Stop_calls prog)%nat in H2. lia.
  - repeat split; reflexivity.
Qed.

End Meter_Stop_statements.

Lemma Meter_Stop_faults_witness :
  exists w, Statements.run (F := spec_float)
              (Statements.start
                 [Statements.CallUpdate 3; Statements.CallStop; Statements.CallUpdate 4])
              [Statements.Caller; Statements.Tick; Statements.Caller; Statements.Goroutine;
               Statements.Caller; Statements.Goroutine; Statements.Caller;
               Statements.Goroutine; Statements.Caller; Statements.Goroutine]
            = Statements.Done w.
Proof.
  apply (proj1 (proj2 (Meter_Stop_faults (F := spec_float)
                  [Statements.CallUpdate 3; Statements.CallStop; Statements.CallUpdate 4]
                  [Statements.Caller; Statements.Tick; Statements.Caller;
                   Statements.Goroutine; Statements.Caller; Statements.Goroutine;
                   Statements.Caller; Statements.Goroutine; Statements.Caller;
                   Statements.Goroutine]))).
  simpl. lia.
Defined.

Section Meter_goroutine.
Import Meter.
Context {F : Type} {FO : Float64Ops F}.

Lemma step_stopped (w w' : world F) (e : event) (n : nat) :
  stopped w n -> step w e = Ok w' ->
  stopped w' (match e with Watcher => Datatypes.S n | _ => n end).
Proof.
  unfold stopped. intros (Ht & Hc & Hw & Hp & Hq) E.
  destruct e as [|delta| |]; simpl in E.
  - unfold Stop in E. destruct (ticker (meter w)) eqn:Et.
    + simpl in E. destruct (tickerStopChan (meter w)) eqn:Eq.
      * rewrite Hc in E. discriminate.
      * discriminate.
    + inversion E; subst. rewrite Et. tauto.
  - inversion E; subst. simpl. tauto.
  - inversion E; subst. unfold tickWatcher_step. rewrite Hw.
    destruct n as [|[|[|n]]]; simpl; rewrite ?Hc, ?Hw; simpl;
      (split; [assumption|]); (split; [reflexivity|]); (split; [reflexivity|]);
      split; split; intro A;
      first [ lia | reflexivity | discriminate | assumption
            | apply Hp; lia | apply Hq; lia
            | apply Hp in A; lia | apply Hq in A; lia ].
  - inversion E; subst. unfold ticker_fires. rewrite Ht.
    destruct (watcher w) eqn:Ew; rewrite ?Ew; tauto.
Qed.

Lemma run_stopped (es : list event) :
  forall (w w' : world F) (n : nat),
  stopped w n -> run w es = Ok w' -> stopped w' (n + watcher_steps es).
Proof.
  induction es as [|e es IH]; intros w w' n Hs E.
  - inversion E; subst. simpl. rewrite Nat.add_0_r. exact Hs.
  - simpl in E. destruct (step w e) as [w1|p] eqn:E1; [|discriminate]. simpl in E.
    pose proof (step_stopped _ _ _ _ Hs E1) as H1.
    specialize (IH _ _ _ H1 E).
    destruct e; simpl watcher_steps; try exact IH.
    rewrite Nat.add_succ_r. exact IH.
Qed.

Lemma run_not_stopped (es : list event) :
  forall w w' : world F,
  not_stopped w -> run w es = Ok w' ->
  (stops es = 0%nat -> not_stopped w') /\
  ((1 <= stops es)%nat -> stopped w' (watcher_steps_after_Stop es)).
Proof.
  induction es as [|e es IH]; intros w w' Hn E.
  - inversion E; subst. simpl. split; [intros _; exact Hn|lia].
  - simpl in E. destruct (step w e) as [w1|p] eqn:E1; [|discriminate]. simpl in E.
    pose proof Hn as (Hw & Hp & Hq & Ht & Hc).
    destruct e as [|delta| |]; simpl in E1.
    + simpl. split; [discriminate|intros _].
      unfold Stop in E1. destruct (ticker (meter w)) eqn:Et; [|contradiction].
      simpl in E1. destruct (tickerStopChan (meter w)) eqn:Eq; [|discriminate].
      rewrite Hc in E1. inversion E1; subst. clear E1.
      refine (run_stopped es _ w' 0%nat _ E).
      unfold stopped. simpl. rewrite Et, Eq, Hw.
      (split; [reflexivity|]); (split; [reflexivity|]); (split; [reflexivity|]);
        split; split; intro A; first [discriminate | lia].
    + inversion E1; subst. refine (IH _ w' _ E).
      unfold not_stopped. simpl. tauto.
    + inversion E1; subst. refine (IH _ w' _ E).
      unfold tickWatcher_step. rewrite Hw, Hc. exact Hn.
    + inversion E1; subst. refine (IH _ w' _ E).
      unfold ticker_fires. rewrite Hw, Ht. unfold not_stopped. simpl. tauto.
Qed.

(** X21: the goroutine of a Meter lives until [Stop].  While [Stop] was
    not called, the goroutine is in its loop, the ticker runs and the
    channel is open, whatever else happens.  After a [Stop] the ticker is
    stopped and the channel closed, and the goroutine leaves the loop at
    its next step, then sets [m.ticker] and then [m.tickerStopChan] to
    nil: three of its steps after [Stop] it has ended and both fields are
    nil. *)
Theorem Meter_goroutine_lifecycle (es : list event) (w : world F) :
  run start es = Ok w ->
  (stops es = 0%nat ->
   watcher w = AtSelect /\ ticker (meter w) <> None /\
   tickerStopped w = false /\ chanClosed w = false) /\
  ((1 <= stops es)%nat ->
   tickerStopped w = true /\ chanClosed w = true /\
   watcher w = pc_after (watcher_steps_after_Stop es) /\
   ((3 <= watcher_steps_after_Stop es)%nat ->
    watcher w = Exited /\
    ticker (meter w) = None /\ tickerStopChan (meter w) = None)).
Proof.
  intro E.
  assert (I0 : not_stopped (start (F := F))).
  { unfold not_stopped. simpl. repeat split; try reflexivity; discriminate. }
  destruct (run_not_stopped es _ _ I0 E) as [H0 H1]. split; intro Hs.
  - destruct (H0 Hs) as (Hw & Hp & _ & Ht & Hc). auto.
  - destruct (H1 Hs) as (Ht & Hc & Hw & Hp & Hq).
    repeat split; try assumption.
    + rewrite Hw. destruct (watcher_steps_after_Stop es) as [|[|[|n]]]; [lia..|reflexivity].
    + apply Hp. lia.
    + apply Hq. assumption.
Qed.

End Meter_goroutine.

Lemma Meter_goroutine_lifecycle_witness :
  exists w : Meter.world spec_float,
    Meter.run Meter.start
      [Meter.CallUpdate 5; Meter.TickerFires; Meter.CallStop; Meter.Watcher;
       Meter.CallUpdate 5; Meter.Watcher; Meter.TickerFires; Meter.Watcher;
       Meter.CallStop] = Ok w /\
    Meter.watcher w = Meter.Exited /\
    Meter.ticker (Meter.meter w) = None /\ Meter.tickerStopChan (Meter.meter w) = None.
Proof.
  eexists. split; [vm_compute; reflexivity|].
  apply (Meter_goroutine_lifecycle
           [Meter.CallUpdate 5; Meter.TickerFires; Meter.CallStop; Meter.Watcher;
            Meter.CallUpdate 5; Meter.Watcher; Meter.TickerFires; Meter.Watcher;
            Meter.CallStop]).
  - vm_compute. reflexivity.
  - simpl. lia.
  - simpl. lia.
Defined.

Section Meter_rates.
Import Meter.
Context {F : Type} {FO : Float64Ops F}.

Lemma step_rates (w w' : world F) (e : event) :
  watcher w <> AtSelect \/ e <> TickerFires ->
  step w e = Ok w' ->
  rates (meter w') = rates (meter w) /\
  (watcher w <> AtSelect -> watcher w' <> AtSelect).
Proof.
  intros H E. destruct e as [|delta| |]; simpl in E.
  - destruct (Stop_keeps_meter _ _ E) as [Em Ew]. rewrite Em, Ew. split; [reflexivity|tauto].
  - inversion E; subst. split; [reflexivity|tauto].
  - inversion E; subst. unfold tickWatcher_step.
    destruct (watcher w) eqn:Ew; simpl.
    + destruct (chanClosed w); simpl; (split; [reflexivity|]); intro N; contradiction.
    + split; [reflexivity|discriminate].
    + split; [reflexivity|discriminate].
    + rewrite Ew. split; [reflexivity|discriminate].
  - inversion E; subst. destruct H as [H|H]; [|contradiction].
    unfold ticker_fires. destruct (watcher w) eqn:Ew; [contradiction| | |];
      (split; [reflexivity|rewrite Ew; discriminate]).
Qed.

(** X6: the rates of a Meter change only when the ticker fires while the
    goroutine is in its loop.  Once the goroutine has left the loop, which
    it does after a [Stop], no call and no tick changes the three rates any
    more, while [Update] still adds to the count. *)
Theorem Meter_rates_change_only_at_ticks (es : list event) :
  forall w w' : world F,
  watcher w <> AtSelect \/ fires es = false ->
  run w es = Ok w' ->
  rates (meter w') = rates (meter w) /\
  wrap_uint64 (Count (meter w')) = wrap_uint64 (Count (meter w) + deltas es).
Proof.
  intros w w' H E. split; [|apply run_count; exact E].
  revert w w' H E. induction es as [|e es IH]; intros w w' H E.
  - inversion E; subst. reflexivity.
  - simpl in E. destruct (step w e) as [w1|p] eqn:E1; [|discriminate]. simpl in E.
    assert (H1 : watcher w <> AtSelect \/ e <> TickerFires).
    { destruct H as [H|H]; [left; exact H|]. right. intros ->. discriminate. }
    destruct (step_rates _ _ _ H1 E1) as [Er Hw].
    rewrite <- Er. apply (IH _ _ ) ; [|exact E].
    destruct H as [H|H]; [left; apply Hw; exact H|].
    right. destruct e; simpl in H; try exact H. discriminate.
Qed.

End Meter_rates.

Lemma Meter_rates_change_only_at_ticks_witness :
  exists w w' : Meter.world spec_float,
    Meter.run Meter.start
      [Meter.CallUpdate 10; Meter.TickerFires; Meter.CallStop; Meter.Watcher] = Ok w /\
    Meter.run w [Meter.CallUpdate 7; Meter.TickerFires; Meter.CallUpdate 1] = Ok w' /\
    rates (Meter.meter w') = rates (Meter.meter w) /\
    Meter.OneMinuteRate (Meter.meter w') = b64 2 /\
    Meter.Count (Meter.meter w) = 10 /\ Meter.Count (Meter.meter w') = 18.
Proof.
  eexists. eexists. split; [vm_compute; reflexivity|].
  split; [vm_compute; reflexivity|].
  split.
  - eapply (Meter_rates_change_only_at_ticks
              [Meter.CallUpdate 7; Meter.TickerFires; Meter.CallUpdate 1]).
    + left. simpl. discriminate.
    + vm_compute. reflexivity.
  - vm_compute. repeat split; reflexivity.
Defined.

(* ------------------------------------------------------------------ *)
(** ** Histogram: what the accumulators hold, in exact arithmetic *)

Section Histogram_welford.
Import Histogram Stats.
Context {S : Type} {SO : Sample.ops xreal S}.
Local Open Scope R_scope.

(** X8: in exact arithmetic, after [n >= 2] Updates with real values,
    [Variance] is the sample variance of the values (the sum of the squared
    deviations from their mean, over [n - 1]), [StdDev] is its square root,
    and Welford's running mean [varianceM] is the mean that [Mean]
    returns. *)
Theorem Histogram_Variance_is_sample_variance (s : S) (rs : list R) :
  (2 <= length rs)%nat -> (Z.of_nat (length rs) <= max_int)%Z ->
  let h := updates (NewHistogram s) (map Xreal rs) in
  Variance h = Xreal (sample_variance rs) /\
  StdDev h = Xreal (sqrt (sample_variance rs)) /\
  varianceM h = Xreal (mean rs) /\
  Mean h = Xreal (mean rs).
Proof.
  intros H2 Hlen h.
  assert (Hne : rs <> []) by (destruct rs; [simpl in H2; lia|discriminate]).
  pose proof (welford_updates s rs Hne Hlen) as Hw. fold h in Hw.
  destruct (welford_accessors rs h Hne Hlen Hw) as (Ec & _ & _ & _ & EM & EV & ESD).
  destruct Hw as (_ & _ & _ & _ & EvM & _).
  destruct (Nat.eqb_spec (length rs) 1) as [E1|_]; [lia|].
  repeat split; try assumption. apply ESD. rewrite Ec. lia.
Qed.

Lemma Rsum_lower (rs : list R) (m : R) :
  (forall x, In x rs -> m <= x) -> n_of rs * m <= Rsum rs.
Proof.
  unfold n_of. induction rs as [|x rs IH]; intro Hm.
  - simpl. lra.
  - simpl length. rewrite S_INR. simpl Rsum.
    assert (m <= x) by (apply Hm; left; reflexivity).
    assert (INR (length rs) * m <= Rsum rs) by (apply IH; intros y Hy; apply Hm; right; exact Hy).
    lra.
Qed.

Lemma Rsum_upper (rs : list R) (m : R) :
  (forall x, In x rs -> x <= m) -> Rsum rs <= n_of rs * m.
Proof.
  unfold n_of. induction rs as [|x rs IH]; intro Hm.
  - simpl. lra.
  - simpl length. rewrite S_INR. simpl Rsum.
    assert (x <= m) by (apply Hm; left; reflexivity).
    assert (Rsum rs <= INR (length rs) * m) by (apply IH; intros y Hy; apply Hm; right; exact Hy).
    lra.
Qed.

(** X9: in exact arithmetic, after Updates with real values, [Mean] lies
    between [Min] and [Max]. *)
Theorem Histogram_Min_Mean_Max (s : S) (rs : list R) :
  rs <> [] -> (Z.of_nat (length rs) <= max_int)%Z ->
  let h := updates (NewHistogram s) (map Xreal rs) in
  exists mn mu mx,
    Min h = Xreal mn /\ Mean h = Xreal mu /\ Max h = Xreal mx /\
    mn <= mu <= mx.
Proof.
  intros Hne Hlen h.
  pose proof (welford_updates s rs Hne Hlen) as Hw. fold h in Hw.
  destruct (welford_accessors rs h Hne Hlen Hw)
    as (_ & _ & (mn & Emn & Hmn) & (mx & Emx & Hmx) & EM & _).
  exists mn, (mean rs), mx. repeat split; try assumption.
  - pose proof (Rsum_lower rs mn (proj2 Hmn)). pose proof (n_of_pos rs Hne).
    unfold mean. apply Rmult_le_reg_r with (n_of rs); [lra|].
    replace (Rsum rs / n_of rs * n_of rs) with (Rsum rs) by (field; lra). lra.
  - pose proof (Rsum_upper rs mx (proj2 Hmx)). pose proof (n_of_pos rs Hne).
    unfold mean. apply Rmult_le_reg_r with (n_of rs); [lra|].
    replace (Rsum rs / n_of rs * n_of rs) with (Rsum rs) by (field; lra). lra.
Qed.

End Histogram_welford.

Lemma Histogram_Variance_is_sample_variance_witness :
  let h := Histogram.updates (Histogram.NewHistogram sample1028x) (map Xreal [3; 1; 2]%R) in
  Histogram.Variance h = Xreal (Stats.sample_variance [3; 1; 2]%R) /\
  Histogram.StdDev h = Xreal (sqrt (Stats.sample_variance [3; 1; 2]%R)) /\
  Histogram.varianceM h = Xreal (Stats.mean [3; 1; 2]%R) /\
  Histogram.Mean h = Xreal (Stats.mean [3; 1; 2]%R).
Proof.
  apply (Histogram_Variance_is_sample_variance sample1028x [3; 1; 2]%R).
  - simpl. lia.
  - apply Z.leb_le. reflexivity.
Defined.

Lemma Histogram_Min_Mean_Max_witness :
  let h := Histogram.updates (Histogram.NewHistogram sample1028x) (map Xreal [3; 1; 2]%R) in
  exists mn mu mx,
    Histogram.Min h = Xreal mn /\ Histogram.Mean h = Xreal mu /\ Histogram.Max h = Xreal mx /\
    (mn <= mu <= mx)%R.
Proof.
  apply (Histogram_Min_Mean_Max sample1028x [3; 1; 2]%R).
  - discriminate.
  - apply Z.leb_le. reflexivity.
Defined.

(* ------------------------------------------------------------------ *)
(** ** binary64: the order of the doubles *)

Ltac cmp_cases :=
  repeat match goal with
  | |- context [Z.compare ?a ?b] => destruct (Z.compare_spec a b); subst
  | H : context [Z.compare ?a ?b] |- _ => destruct (Z.compare_spec a b); subst
  | |- context [Pos.compare_cont Eq ?a ?b] =>
      change (Pos.compare_cont Eq a b) with (Pos.compare a b);
      destruct (Pos.compare_spec a b); subst
  | H : context [Pos.compare_cont Eq ?a ?b] |- _ =>
      change (Pos.compare_cont Eq a b) with (Pos.compare a b) in H;
      destruct (Pos.compare_spec a b); subst
  end.

Ltac float_cases :=
  repeat match goal with s : bool |- _ => destruct s end;
  try discriminate; try reflexivity;
  cmp_cases; simpl; intros; try discriminate; try reflexivity; try lia.

Lemma SFltb_trans (x y z : spec_float) :
  SFltb x y = true -> SFltb y z = true -> SFltb x z = true.
Proof.
  unfold SFltb, SFcompare.
  destruct x as [sx|sx| |sx mx ex], y as [sy|sy| |sy my ey], z as [sz|sz| |sz mz ez];
    try discriminate; float_cases.
Qed.

Lemma SFltb_irrefl (x : spec_float) : SFltb x x = false.
Proof.
  unfold SFltb, SFcompare. destruct x as [sx|sx| |sx mx ex]; float_cases.
Qed.

(** For two doubles that are not NaN, [x < y] fails only if [y <= x]. *)
Lemma SFltb_false_leb (x y : spec_float) :
  f_isNaN x = false -> f_isNaN y = false -> SFltb x y = false -> SFleb y x = true.
Proof.
  unfold f_isNaN. cbn [f_eqb binary64]. unfold SFltb, SFleb, SFeqb, SFcompare.
  destruct x as [sx|sx| |sx mx ex], y as [sy|sy| |sy my ey];
    try discriminate; float_cases.
Qed.

(* ------------------------------------------------------------------ *)
(** ** Histogram in binary64: Min and Max *)

Section Histogram_min_max.
Import Histogram.
Context {S : Type} {SO : Sample.ops spec_float S}.

Lemma extremes_first (h0 : Histogram.t spec_float S) (v : spec_float) :
  count h0 = 0 -> extremes [v] (Update h0 v).
Proof.
  intro E0. unfold extremes, Update. rewrite E0.
  change (wrap_int (0 + 1) =? 1) with true. cbv iota. simpl.
  repeat split; auto.
  - destruct H as [<-|[]]. apply SFltb_irrefl.
  - destruct H as [<-|[]]. apply SFltb_irrefl.
Qed.

Lemma extremes_step (vs : list spec_float) (h : Histogram.t spec_float S) (v : spec_float) :
  vs <> [] -> Z.of_nat (length vs) < max_int ->
  extremes vs h -> extremes (vs ++ [v]) (Update h v).
Proof.
  intros Hne Hlen (Ec & Hmin & Hmax & Hall).
  assert (Hn : 1 <= Z.of_nat (length vs)) by (destruct vs; [contradiction|simpl length; lia]).
  assert (Hc : wrap_int (count h + 1) = Z.of_nat (length vs) + 1).
  { rewrite Ec. apply wrap_int_small. unfold min_int, max_int in *. lia. }
  unfold extremes, Update. rewrite Hc.
  destruct (Z.eqb_spec (Z.of_nat (length vs) + 1) 1) as [E1|_]; [lia|].
  cbn [count min max]. unfold f_gtb. cbn [f_ltb binary64].
  split; [rewrite length_app; simpl; lia|].
  split; [|split].
  - destruct (SFltb v (min h)); apply in_or_app; [right; left; reflexivity|left; exact Hmin].
  - destruct (SFltb (max h) v); apply in_or_app; [right; left; reflexivity|left; exact Hmax].
  - intros x Hx. apply in_app_or in Hx. split.
    + destruct (SFltb v (min h)) eqn:Ev.
      * destruct Hx as [Hx|[<-|[]]]; [|apply SFltb_irrefl].
        destruct (SFltb x v) eqn:Exv; [|reflexivity].
        pose proof (SFltb_trans x v (min h) Exv Ev) as Ht.
        destruct (Hall x Hx) as [Hf _]. congruence.
      * destruct Hx as [Hx|[<-|[]]]; [apply (Hall x Hx)|exact Ev].
    + destruct (SFltb (max h) v) eqn:Ev.
      * destruct Hx as [Hx|[<-|[]]]; [|apply SFltb_irrefl].
        destruct (SFltb v x) eqn:Evx; [|reflexivity].
        pose proof (SFltb_trans (max h) v x Ev Evx) as Ht.
        destruct (Hall x Hx) as [_ Hf]. congruence.
      * destruct Hx as [Hx|[<-|[]]]; [apply (Hall x Hx)|exact Ev].
Qed.

Lemma extremes_updates (s : S) (vs : list spec_float) :
  vs <> [] -> Z.of_nat (length vs) <= max_int ->
  extremes vs (updates (NewHistogram s) vs).
Proof.
  induction vs as [|v vs IH] using rev_ind; [contradiction|].
  intros _ Hlen. rewrite length_app in Hlen. simpl length in Hlen.
  unfold updates. rewrite fold_left_app. simpl fold_left. fold (updates (NewHistogram s) vs).
  destruct vs as [|y vs'].
  - apply extremes_first. reflexivity.
  - apply extremes_step; [discriminate|lia|]. apply IH; [discriminate|lia].
Qed.

(** X10: in binary64, after Updates with any doubles, [Min] and [Max] are
    two of the values, no value compares less than [Min] and none greater
    than [Max]; when no value is NaN, [Min <= v <= Max] for every value
    [v]. *)
Theorem Histogram_Min_Max_binary64 (s : S) (vs : list spec_float) :
  vs <> [] -> Z.of_nat (length vs) <= max_int ->
  let h := updates (NewHistogram s) vs in
  In (Min h) vs /\ In (Max h) vs /\
  (forall v, In v vs -> SFltb v (Min h) = false /\ SFltb (Max h) v = false) /\
  (Forall (fun v => f_isNaN v = false) vs ->
   forall v, In v vs -> SFleb (Min h) v = true /\ SFleb v (Max h) = true).
Proof.
  intros Hne Hlen h.
  destruct (extremes_updates s vs Hne Hlen) as (Ec & Hmin & Hmax & Hall). fold h in Ec, Hmin, Hmax, Hall.
  assert (Hc0 : (count h =? 0) = false).
  { apply Z.eqb_neq. rewrite Ec. destruct vs; [contradiction|simpl length; lia]. }
  unfold Min, Max. rewrite Hc0.
  split; [exact Hmin|]. split; [exact Hmax|]. split; [exact Hall|].
  intros Hnan v Hv. rewrite Forall_forall in Hnan.
  destruct (Hall v Hv) as [H1 H2].
  split; apply SFltb_false_leb; auto.
Qed.

End Histogram_min_max.

Lemma Histogram_Min_Max_binary64_witness :
  let vs := [b64 3; b64 (-1 # 2); b64 2] in
  let h := Histogram.updates (Histogram.NewHistogram sample1028) vs in
  Histogram.Min h = b64 (-1 # 2) /\ Histogram.Max h = b64 3 /\
  forall v, In v vs ->
    SFleb (Histogram.Min h) v = true /\ SFleb v (Histogram.Max h) = true.
Proof.
  cbv zeta.
  destruct (Histogram_Min_Max_binary64 sample1028 [b64 3; b64 (-1 # 2); b64 2])
    as (_ & _ & _ & H).
  - discriminate.
  - apply Z.leb_le. reflexivity.
  - split; [vm_compute; reflexivity|]. split; [vm_compute; reflexivity|].
    apply H. repeat constructor.
Defined.

(* ------------------------------------------------------------------ *)
(** ** Histogram: further properties of Percentiles *)

Section Percentile_facts.
Import Stats.
Local Open Scope R_scope.

Lemma Int_part_mono (a b : R) : a <= b -> (Int_part a <= Int_part b)%Z.
Proof.
  intro Hab. destruct (base_Int_part a) as [A1 A2], (base_Int_part b) as [B1 B2].
  assert (IZR (Int_part a) < IZR (Int_part b + 1)) as H by (rewrite plus_IZR; lra).
  apply lt_IZR in H. lia.
Qed.

Lemma Int_part_IZR (k : Z) : Int_part (IZR k) = k.
Proof.
  destruct (base_Int_part (IZR k)) as [A1 A2].
  assert (IZR k < IZR (Int_part (IZR k) + 1)) as H by (rewrite plus_IZR; lra).
  apply lt_IZR in H. apply le_IZR in A1. lia.
Qed.

Lemma at_rank_In (l : list R) (k : Z) (v : R) : at_rank l k v -> In v l.
Proof. intros [_ E]. eapply nth_error_In. exact E. Qed.

Lemma at_rank_le (l : list R) (j k : Z) (a b : R) :
  StronglySorted Rle l -> (j <= k)%Z -> at_rank l j a -> at_rank l k b -> a <= b.
Proof.
  intros Hs Hjk [Hj Ea] [Hk Eb].
  apply (sorted_nth_le l Hs (Z.to_nat (j - 1)) (Z.to_nat (k - 1))); [lia|assumption|assumption].
Qed.

Lemma at_rank_fun (l : list R) (k : Z) (a b : R) : at_rank l k a -> at_rank l k b -> a = b.
Proof. intros [_ Ea] [_ Eb]. congruence. Qed.

(** The score of a percentile between two ranks lies between the elements
    of these ranks. *)
Lemma interpolation_bounds (l : list R) (pos lower upper : R) :
  StronglySorted Rle l ->
  at_rank l (Int_part pos) lower -> at_rank l (Int_part pos + 1) upper ->
  lower <= lower + (pos - IZR (Int_part pos)) * (upper - lower) <= upper.
Proof.
  intros Hs Hl Hu.
  assert (Hlu : lower <= upper).
  { apply (at_rank_le l (Int_part pos) (Int_part pos + 1)%Z); [assumption|lia|assumption|assumption]. }
  destruct (base_Int_part pos) as [A1 A2]. nra.
Qed.

Lemma percentile_bounds (l : list R) (p r mn mx : R) :
  StronglySorted Rle l -> percentile l p r ->
  is_min l mn -> is_max l mx -> mn <= r <= mx.
Proof.
  intros Hs (H1 & H2 & H3) [_ Hmn] [_ Hmx].
  set (pos := p * (n_of l + 1)) in *.
  assert (Hin : In r l -> mn <= r <= mx) by (intro Hr; split; auto).
  destruct (Rlt_dec pos 1) as [Hlt|Hge].
  - apply Hin. apply (H1 Hlt).
  - destruct (Rle_dec (n_of l) pos) as [Hn|Hn].
    + apply Hin. apply (H2 Hn).
    + destruct H3 as (lower & upper & Hl & Hu & ->); [lra|].
      pose proof (interpolation_bounds l pos lower upper Hs Hl Hu).
      pose proof (Hmn lower (at_rank_In _ _ _ Hl)).
      pose proof (Hmx upper (at_rank_In _ _ _ Hu)). lra.
Qed.

Lemma percentile_mono (l : list R) (p q r r' : R) :
  StronglySorted Rle l -> l <> [] ->
  percentile l p r -> percentile l q r' -> p <= q -> r <= r'.
Proof.
  intros Hs Hne Hp Hq Hpq.
  pose proof (n_of_pos l Hne) as Hn.
  assert (Hpos : p * (n_of l + 1) <= q * (n_of l + 1)) by nra.
  pose proof Hp as (P1 & P2 & P3). pose proof Hq as (Q1 & Q2 & Q3).
  set (pos := p * (n_of l + 1)) in *. set (pos' := q * (n_of l + 1)) in *.
  destruct (Rlt_dec pos 1) as [Hlt|Hge].
  - (* r is the minimum *)
    specialize (P1 Hlt).
    assert (exists mx, is_max l mx) as [mx Hmx].
    { destruct (Rle_dec (n_of l) pos') as [Hn'|Hn'].
      - exists r'. apply Q2. exact Hn'.
      - destruct l as [|a l']; [contradiction|].
        destruct (nth_error_in_range (a :: l') (length (a :: l') - 1)) as [b Eb]; [simpl; lia|].
        exists b. apply sorted_last_is_max; assumption. }
    apply (percentile_bounds l q r' r mx Hs Hq P1 Hmx).
  - destruct (Rle_dec (n_of l) pos') as [Hn'|Hn'].
    + (* r' is the maximum *)
      specialize (Q2 Hn').
      assert (exists mn, is_min l mn) as [mn Hmn].
      { destruct l as [|a l']; [contradiction|]. exists a.
        apply sorted_first_is_min; [assumption|reflexivity]. }
      apply (percentile_bounds l p r mn r' Hs Hp Hmn Q2).
    + destruct P3 as (lo & up & Hlo & Hup & ->); [lra|].
      destruct Q3 as (lo' & up' & Hlo' & Hup' & ->); [lra|].
      pose proof (Int_part_mono pos pos' Hpos) as Hk.
      pose proof (interpolation_bounds l pos lo up Hs Hlo Hup).
      pose proof (interpolation_bounds l pos' lo' up' Hs Hlo' Hup').
      destruct (Z.eq_dec (Int_part pos) (Int_part pos')) as [Ek|Nk].
      * rewrite <- Ek in *.
        rewrite (at_rank_fun _ _ _ _ Hlo' Hlo), (at_rank_fun _ _ _ _ Hup' Hup) in *.
        assert (lo <= up).
        { apply (at_rank_le l (Int_part pos) (Int_part pos + 1)%Z); [assumption|lia|assumption|assumption]. }
        nra.
      * assert (up <= lo').
        { apply (at_rank_le l (Int_part pos + 1)%Z (Int_part pos')); [assumption|lia|assumption|assumption]. }
        lra.
Qed.

Lemma sorted_unique (l1 : list R) :
  forall l2, StronglySorted Rle l1 -> StronglySorted Rle l2 ->
  Permutation l1 l2 -> l1 = l2.
Proof.
  induction l1 as [|a l1 IH]; intros l2 H1 H2 P.
  - apply Permutation_nil in P. congruence.
  - destruct l2 as [|b l2]; [apply Permutation_sym, Permutation_nil in P; discriminate|].
    apply StronglySorted_inv in H1, H2. destruct H1 as [H1 Ha], H2 as [H2 Hb].
    rewrite Forall_forall in Ha, Hb.
    assert (a = b).
    { assert (In b (a :: l1)) as Hb1 by (eapply Permutation_in; [apply Permutation_sym; exact P|left; reflexivity]).
      assert (In a (b :: l2)) as Ha2 by (eapply Permutation_in; [exact P|left; reflexivity]).
      destruct Hb1 as [E|Hb1]; [congruence|]. destruct Ha2 as [E|Ha2]; [congruence|].
      specialize (Ha b Hb1). specialize (Hb a Ha2). simpl in *. lra. }
    subst b. f_equal. apply IH; try assumption. eapply Permutation_cons_inv. exact P.
Qed.

End Percentile_facts.

Section Percentiles_more.
Import Histogram Stats.
Context {S : Type} {SO : Sample.ops xreal S} {SC : Sample.contract xreal S}.
Variable int_impl : xreal -> Z.
Local Open Scope R_scope.

(** What [Percentiles] computes, in exact arithmetic, on a snapshot of
    numbers. *)
Lemma Percentiles_exact (h : Histogram.t xreal S) (rs ps : list R) :
  reachable h -> (count h <> 0)%Z ->
  Sample.Values (sample h) = map Xreal rs ->
  Forall (in_int_range (n_of rs)) ps ->
  exists sorted scores,
    Permutation sorted rs /\ StronglySorted Rle sorted /\ sorted <> [] /\
    Percentiles int_impl h (map Xreal ps) = Ok (map Xreal scores) /\
    Forall2 (percentile sorted) ps scores.
Proof.
  intros Hh Hc Ev Hps.
  destruct (reachable_sample h Hh) as [Hw Hv].
  assert (Hne : rs <> []).
  { intro E. apply Hv; [exact Hc|]. rewrite Ev, E. reflexivity. }
  pose proof (Sample.Values_len _ Hw) as Hlen. rewrite Ev, length_map in Hlen.
  destruct (sort_real rs) as (sorted & Es & P & Hs).
  assert (Hl : length sorted = length rs) by (apply Permutation_length; exact P).
  assert (Hn : n_of sorted = n_of rs) by (unfold n_of; rewrite Hl; reflexivity).
  assert (Hne' : sorted <> []).
  { intro E. rewrite E in Hl. destruct rs; [contradiction|discriminate]. }
  destruct (scores_exact int_impl sorted ps Hs Hne') as (scores & Ess & Hss).
  { rewrite Hl. exact Hlen. }
  { rewrite Hn. exact Hps. }
  exists sorted, scores. repeat split; try assumption.
  unfold Percentiles. destruct (Z.eqb_spec (count h) 0); [contradiction|].
  rewrite Ev, Es. exact Ess.
Qed.

End Percentiles_more.

(** X11: in exact arithmetic, every score that [Percentiles] returns lies
    between the smallest and the largest value of the snapshot. *)
Theorem Percentiles_between_min_and_max {S : Type} {SO : Sample.ops xreal S}
    {SC : Sample.contract xreal S}
    (int_impl : xreal -> Z) (h : Histogram.t xreal S) (rs ps : list R) (mn mx : R) :
  Histogram.reachable h -> Histogram.count h <> 0 ->
  Sample.Values (Histogram.sample h) = map Xreal rs ->
  Forall (Stats.in_int_range (Stats.n_of rs)) ps ->
  Stats.is_min rs mn -> Stats.is_max rs mx ->
  exists scores,
    Histogram.Percentiles int_impl h (map Xreal ps) = Ok (map Xreal scores) /\
    Forall (fun r => mn <= r <= mx)%R scores.
Proof.
  intros Hh Hc Ev Hps Hmn Hmx.
  destruct (Percentiles_exact int_impl h rs ps Hh Hc Ev Hps)
    as (sorted & scores & P & Hs & Hne & E & H2).
  exists scores. split; [exact E|].
  apply (is_min_perm rs sorted mn (Permutation_sym P)) in Hmn.
  apply (is_max_perm rs sorted mx (Permutation_sym P)) in Hmx.
  clear E. induction H2 as [|p r ps' ss Hr _ IH]; constructor.
  - apply (percentile_bounds sorted p r mn mx Hs Hr Hmn Hmx).
  - apply IH. inversion Hps; assumption.
Qed.

(** X12: in exact arithmetic, [Percentiles] is monotone: the score of a
    larger percentile is not smaller. *)
Theorem Percentiles_monotone {S : Type} {SO : Sample.ops xreal S}
    {SC : Sample.contract xreal S}
    (int_impl : xreal -> Z) (h : Histogram.t xreal S) (rs : list R) (p q : R) :
  Histogram.reachable h -> Histogram.count h <> 0 ->
  Sample.Values (Histogram.sample h) = map Xreal rs ->
  Stats.in_int_range (Stats.n_of rs) p -> Stats.in_int_range (Stats.n_of rs) q ->
  (p <= q)%R ->
  exists r r',
    Histogram.Percentiles int_impl h [Xreal p; Xreal q] = Ok [Xreal r; Xreal r'] /\
    (r <= r')%R.
Proof.
  intros Hh Hc Ev Hp Hq Hpq.
  destruct (Percentiles_exact int_impl h rs [p; q] Hh Hc Ev)
    as (sorted & scores & P & Hs & Hne & E & H2).
  { constructor; [exact Hp|]. constructor; [exact Hq|constructor]. }
  inversion H2 as [|p0 r ps0 ss0 Hr H2']; subst.
  inversion H2' as [|q0 r' ps1 ss1 Hr' H2'']; subst. inversion H2''; subst.
  exists r, r'. split; [exact E|].
  apply (percentile_mono sorted p q r r' Hs Hne Hr Hr' Hpq).
Qed.

(** X13: in exact arithmetic, [Percentiles] does not depend on the order in
    which the Sample returns its values: two Histograms whose snapshots are
    permutations of each other return the same scores. *)
Theorem Percentiles_order_irrelevant {S : Type} {SO : Sample.ops xreal S}
    (int_impl : xreal -> Z) (h1 h2 : Histogram.t xreal S) (rs1 rs2 : list R)
    (ps : list xreal) :
  Histogram.count h1 <> 0 -> Histogram.count h2 <> 0 ->
  Sample.Values (Histogram.sample h1) = map Xreal rs1 ->
  Sample.Values (Histogram.sample h2) = map Xreal rs2 ->
  Permutation rs1 rs2 ->
  Histogram.Percentiles int_impl h1 ps = Histogram.Percentiles int_impl h2 ps.
Proof.
  intros Hc1 Hc2 E1 E2 P. unfold Histogram.Percentiles.
  destruct (Z.eqb_spec (Histogram.count h1) 0); [contradiction|].
  destruct (Z.eqb_spec (Histogram.count h2) 0); [contradiction|].
  rewrite E1, E2.
  destruct (sort_real rs1) as (l1 & -> & P1 & S1).
  destruct (sort_real rs2) as (l2 & -> & P2 & S2).
  rewrite (sorted_unique l1 l2 S1 S2); [reflexivity|].
  apply perm_trans with rs1; [exact P1|].
  apply perm_trans with rs2; [exact P|apply Permutation_sym; exact P2].
Qed.

(** X14: in exact arithmetic, a percentile whose position [p * (n + 1)] is
    the integer [k], with [1 <= k < n], has the element of rank [k] of the
    sorted snapshot as its score; so for an odd number of values
    [Percentiles([0.5])] is the middle one. *)
Theorem Percentiles_at_a_rank {S : Type} {SO : Sample.ops xreal S}
    {SC : Sample.contract xreal S}
    (int_impl : xreal -> Z) (h : Histogram.t xreal S) (rs : list R) (p : R) (k : Z) :
  Histogram.reachable h -> Histogram.count h <> 0 ->
  Sample.Values (Histogram.sample h) = map Xreal rs ->
  (p * (Stats.n_of rs + 1) = IZR k)%R -> 1 <= k < Z.of_nat (length rs) ->
  exists sorted v,
    Permutation sorted rs /\ StronglySorted Rle sorted /\
    Stats.at_rank sorted k v /\
    Histogram.Percentiles int_impl h [Xreal p] = Ok [Xreal v].
Proof.
  intros Hh Hc Ev Hpos Hk.
  destruct (reachable_sample h Hh) as [Hw _].
  pose proof (Sample.Values_len _ Hw) as Hlen. rewrite Ev, length_map in Hlen.
  destruct (Percentiles_exact int_impl h rs [p] Hh Hc Ev)
    as (sorted & scores & P & Hs & Hne & E & H2).
  { constructor; [|constructor]. unfold Stats.in_int_range. rewrite Hpos.
    split; [apply IZR_le; unfold min_int; lia|].
    rewrite <- (plus_IZR max_int 1). apply IZR_lt. lia. }
  inversion H2 as [|p0 r ps0 ss0 Hr H2']; subst. inversion H2'; subst.
  assert (Hn : Stats.n_of sorted = Stats.n_of rs).
  { unfold Stats.n_of. rewrite (Permutation_length P). reflexivity. }
  destruct Hr as (_ & _ & H3). rewrite Hn, Hpos in H3.
  destruct H3 as (lower & upper & Hl & Hu & ->).
  { rewrite <- (n_of_IZR rs). split; [apply (IZR_le 1); lia|apply IZR_lt; lia]. }
  rewrite Int_part_IZR in *.
  exists sorted, lower. repeat split; try assumption; try apply Hl.
  replace (lower + (IZR k - IZR k) * (upper - lower))%R with lower in E by ring.
  exact E.
Qed.

Lemma h312_facts :
  Histogram.reachable h312 /\ Histogram.count h312 <> 0 /\
  Sample.Values (Histogram.sample h312) = map Xreal [3; 1; 2]%R.
Proof.
  split; [|split].
  - apply reachable_updates. apply Histogram.reach_New.
    apply wf_NewUniformSample. reflexivity.
  - apply Z.eqb_neq. reflexivity.
  - reflexivity.
Qed.

Lemma min_max_312 : Stats.is_min [3; 1; 2]%R 1%R /\ Stats.is_max [3; 1; 2]%R 3%R.
Proof.
  split; (split; [simpl; auto|]); intros x [<-|[<-|[<-|[]]]]; lra.
Qed.

Lemma Percentiles_between_min_and_max_witness :
  exists scores,
    Histogram.Percentiles (fun _ => min_int) h312 (map Xreal [(1 / 2)%R]) =
      Ok (map Xreal scores) /\
    Forall (fun r => 1 <= r <= 3)%R scores.
Proof.
  destruct h312_facts as (Hr & Hc & Ev).
  apply (Percentiles_between_min_and_max (fun _ => min_int) h312 [3; 1; 2]%R
           [(1 / 2)%R] 1%R 3%R Hr Hc Ev).
  - constructor; [|constructor]. apply unit_interval_in_int_range; [reflexivity|lra].
  - apply min_max_312.
  - apply min_max_312.
Defined.

Lemma Percentiles_monotone_witness :
  exists r r',
    Histogram.Percentiles (fun _ => min_int) h312 [Xreal (1 / 4); Xreal (3 / 4)] =
      Ok [Xreal r; Xreal r'] /\
    (r <= r')%R.
Proof.
  destruct h312_facts as (Hr & Hc & Ev).
  apply (Percentiles_monotone (fun _ => min_int) h312 [3; 1; 2]%R
           (1 / 4)%R (3 / 4)%R Hr Hc Ev).
  - apply unit_interval_in_int_range; [reflexivity|lra].
  - apply unit_interval_in_int_range; [reflexivity|lra].
  - lra.
Defined.

Lemma Percentiles_order_irrelevant_witness :
  let h123 := Histogram.updates (Histogram.NewHistogram sample1028x)
                (map Xreal [1; 2; 3]%R) in
  Histogram.Percentiles (fun _ => min_int) h312 [Xreal (1 / 2)] =
  Histogram.Percentiles (fun _ => min_int) h123 [Xreal (1 / 2)].
Proof.
  cbv zeta.
  apply (Percentiles_order_irrelevant (fun _ => min_int) h312 _
           [3; 1; 2]%R [1; 2; 3]%R).
  - apply Z.eqb_neq. reflexivity.
  - apply Z.eqb_neq. reflexivity.
  - reflexivity.
  - reflexivity.
  - apply perm_trans with [1; 3; 2]%R; [apply perm_swap|].
    apply perm_skip. apply perm_swap.
Defined.

Lemma Percentiles_at_a_rank_witness :
  exists sorted v,
    Permutation sorted [3; 1; 2]%R /\ StronglySorted Rle sorted /\
    Stats.at_rank sorted 2 v /\
    Histogram.Percentiles (fun _ => min_int) h312 [Xreal (1 / 2)] = Ok [Xreal v].
Proof.
  destruct h312_facts as (Hr & Hc & Ev).
  apply (Percentiles_at_a_rank (fun _ => min_int) h312 [3; 1; 2]%R (1 / 2)%R 2 Hr Hc Ev).
  - unfold Stats.n_of. simpl. lra.
  - simpl. lia.
Defined.

(** X15: whatever the arithmetic, when the count is not 0 and the Sample
    returns no value, [Percentiles] panics with an index out of range for
    every request that is not empty; for the empty request it returns the
    empty list. *)
Theorem Percentiles_of_empty_snapshot
    {F : Type} {FO : Float64Ops F} {S : Type} {SO : Sample.ops F S}
    (int_impl : F -> Z) (h : Histogram.t F S) (p : F) (ps : list F) :
  Histogram.count h <> 0 -> Sample.Values (Histogram.sample h) = [] ->
  Histogram.Percentiles int_impl h (p :: ps) = Panic IndexOutOfRange /\
  Histogram.Percentiles int_impl h [] = Ok [].
Proof.
  intros Hc Ev. unfold Histogram.Percentiles.
  destruct (Z.eqb_spec (Histogram.count h) 0); [contradiction|].
  rewrite Ev. simpl Histogram.sort. split; [|reflexivity].
  simpl Histogram.scores_of. unfold Histogram.score.
  set (ipos := Histogram.int int_impl _).
  unfold Histogram.len, Histogram.index. simpl length.
  change (wrap_int (Z.of_nat 0 - 1)) with (-1).
  destruct (Z.ltb_spec ipos 1) as [H1|H1]; [reflexivity|].
  destruct (Z.leb_spec (Z.of_nat 0) ipos) as [_|H0]; [reflexivity|simpl in H0; lia].
Qed.

Lemma Percentiles_of_empty_snapshot_witness :
  let h := Histogram.mk sample1028 (b64 7) (b64 7) (b64 7) 1 (b64 7) (b64 0) in
  Histogram.Percentiles amd64 h [b64 (1 # 2)] = Panic IndexOutOfRange /\
  Histogram.Percentiles amd64 h [] = Ok [].
Proof.
  apply (Percentiles_of_empty_snapshot amd64
           (Histogram.mk sample1028 (b64 7) (b64 7) (b64 7) 1 (b64 7) (b64 0))
           (b64 (1 # 2)) []).
  - discriminate.
  - reflexivity.
Defined.

(* ------------------------------------------------------------------ *)
(** ** The StatHat reporter: Start and Stop *)

Section Reporter_lifecycle.
Import StatHatReporter.
Context {F : Type}.

Lemma mark_last (l : list bool) (b : bool) : mark (l ++ [b]) (length l) = l ++ [true].
Proof. induction l as [|x l IH]; simpl; [reflexivity|]. rewrite IH. reflexivity. Qed.

Lemma nth_last (l : list bool) (b d : bool) : nth (length l) (l ++ [b]) d = b.
Proof. rewrite app_nth2 by lia. rewrite Nat.sub_diag. reflexivity. Qed.

Lemma filter_all_true (l : list bool) : Forall (eq true) l -> filter negb l = [].
Proof. induction 1 as [|x l <- _ IH]; simpl; [reflexivity|exact IH]. Qed.

Lemma lifecycle_call (w : world F) (b : bool) (c : call) :
  0 < interval (reporter w) -> lifecycle w b ->
  exists w', do_call w c = Done w' /\
             interval (reporter w') = interval (reporter w) /\
             lifecycle w' (match c with CallStart => true | CallStop => false end).
Proof.
  intros Hi L. destruct L as [w Et Ht Hc|w tl cl Et Ec Ht Hc Htl Hcl]; destruct c; simpl.
  - unfold Start. rewrite Et. destruct (Z.leb_spec (interval (reporter w)) 0); [lia|].
    eexists. split; [reflexivity|]. split; [reflexivity|].
    apply (life_running _ (tickers w) (chans w)); try reflexivity; assumption.
  - unfold Stop. rewrite Et. exists w. split; [reflexivity|]. split; [reflexivity|].
    apply life_stopped; assumption.
  - unfold Start. rewrite Et. exists w. split; [reflexivity|]. split; [reflexivity|].
    apply (life_running _ tl cl); assumption.
  - unfold Stop. rewrite Et, Ec, Hc, Ht, nth_last, !mark_last.
    eexists. split; [reflexivity|]. split; [reflexivity|].
    apply life_stopped; simpl; try reflexivity.
    + apply Forall_app. split; [exact Htl|repeat constructor].
    + apply Forall_app. split; [exact Hcl|repeat constructor].
Qed.

Lemma lifecycle_run (cs : list call) :
  forall (w : world F) (b : bool),
  0 < interval (reporter w) -> lifecycle w b ->
  exists w', run w cs = Done w' /\
             lifecycle w' (match last cs (if b then CallStart else CallStop) with
                           | CallStart => true | CallStop => false end).
Proof.
  induction cs as [|c cs IH]; intros w b Hi L.
  - exists w. split; [reflexivity|]. simpl. destruct b; exact L.
  - destruct (lifecycle_call w b c Hi L) as (w1 & E1 & Ei & L1).
    destruct (IH w1 _ ltac:(lia) L1) as (w2 & E2 & L2).
    exists w2. split; [simpl; rewrite E1; exact E2|].
    destruct cs as [|c' cs']; [simpl in *; destruct c; exact L2|].
    replace (last (c :: c' :: cs') (if b then CallStart else CallStop))
      with (last (c' :: cs') (if match c with CallStart => true | CallStop => false end
                              then CallStart else CallStop)); [exact L2|].
    simpl. clear. revert c'. induction cs' as [|c'' cs'' IH']; intro c'; [reflexivity|].
    apply IH'.
Qed.

Lemma lifecycle_counts (w : world F) (b : bool) :
  lifecycle w b ->
  (ticker (reporter w) <> None <-> b = true) /\
  open_channels w = (if b then 1 else 0)%nat /\
  running_tickers w = (if b then 1 else 0)%nat.
Proof.
  unfold open_channels, running_tickers.
  intros [w' Et Ht Hc|w' tl cl Et Ec Ht Hc Htl Hcl].
  - rewrite Et, (filter_all_true _ Ht), (filter_all_true _ Hc).
    split; [|split; reflexivity].
    split; [intro N; exfalso; apply N; reflexivity|discriminate].
  - rewrite Et, Ht, Hc, !filter_app, (filter_all_true tl Htl), (filter_all_true cl Hcl).
    split; [|split; reflexivity].
    split; [reflexivity|intros _; discriminate].
Qed.

(** X16: with a positive interval, no sequence of [Start] and [Stop] calls
    on a new StatHat reporter panics, whatever their order and number.
    After it the reporter runs exactly if the last call was [Start], and of
    all the tickers and channels made only those of a running reporter are
    not stopped and not closed: every [Stop] releases what the [Start]
    before it made. *)
Theorem StatHatReporter_Start_Stop (defaults : list F) (names : list String.string)
    (interval : time.Duration) (email source : String.string)
    (percentiles : option (list (String.string * F))) (cs : list call) :
  0 < interval ->
  exists w,
    run (start (NewStatHatReporter defaults names interval email source percentiles)) cs
      = Done w /\
    let running := match last cs CallStop with CallStart => true | CallStop => false end in
    (ticker (reporter w) <> None <-> running = true) /\
    open_channels w = (if running then 1 else 0)%nat /\
    running_tickers w = (if running then 1 else 0)%nat.
Proof.
  intro Hi.
  destruct (lifecycle_run cs
              (start (NewStatHatReporter defaults names interval email source percentiles))
              false Hi) as (w & E & L).
  { apply life_stopped; simpl; constructor. }
  exists w. split; [exact E|]. apply lifecycle_counts. exact L.
Qed.

(** X17: with an interval that is not positive, the first [Start] of a
    StatHat reporter panics, in [time.NewTicker]; the [Stop]s before it do
    nothing. *)
Theorem StatHatReporter_Start_bad_interval (defaults : list F) (names : list String.string)
    (interval : time.Duration) (email source : String.string)
    (percentiles : option (list (String.string * F))) (cs : list call) :
  interval <= 0 -> In CallStart cs ->
  run (start (NewStatHatReporter defaults names interval email source percentiles)) cs
    = Fault NewTickerPanics.
Proof.
  intros Hi Hin. induction cs as [|c cs IH]; [contradiction|].
  destruct c; simpl.
  - unfold Start. simpl. destruct (Z.leb_spec interval 0); [reflexivity|lia].
  - apply IH. destruct Hin as [E|Hin]; [discriminate|exact Hin].
Qed.

End Reporter_lifecycle.

Lemma StatHatReporter_Start_Stop_witness :
  exists w : StatHatReporter.world spec_float,
    StatHatReporter.run
      (StatHatReporter.start
         (StatHatReporter.NewStatHatReporter [] [] (60 * time.Second)
            String.EmptyString String.EmptyString None))
      [StatHatReporter.CallStop; StatHatReporter.CallStart; StatHatReporter.CallStart;
       StatHatReporter.CallStop; StatHatReporter.CallStop; StatHatReporter.CallStart]
      = StatHatReporter.Done w /\
    open_channels w = 1%nat /\ running_tickers w = 1%nat.
Proof.
  destruct (StatHatReporter_Start_Stop (F := spec_float) [] [] (60 * time.Second)
              String.EmptyString String.EmptyString None
              [StatHatReporter.CallStop; StatHatReporter.CallStart; StatHatReporter.CallStart;
               StatHatReporter.CallStop; StatHatReporter.CallStop; StatHatReporter.CallStart])
    as (w & E & _ & Ho & Ht).
  - reflexivity.
  - exists w. split; [exact E|]. split; [exact Ho|exact Ht].
Defined.

Lemma StatHatReporter_Start_bad_interval_witness :
  StatHatReporter.run
    (StatHatReporter.start
       (StatHatReporter.NewStatHatReporter (F := spec_float) [] [] 0
          String.EmptyString String.EmptyString None))
    [StatHatReporter.CallStop; StatHatReporter.CallStart]
  = StatHatReporter.Fault StatHatReporter.NewTickerPanics.
Proof.
  apply (StatHatReporter_Start_bad_interval (F := spec_float)).
  - apply Z.leb_le. reflexivity.
  - right. left. reflexivity.
Defined.

(* ------------------------------------------------------------------ *)
(** ** The StatHat reporter: what is posted *)

Lemma wrap_int_idem (z : Z) : wrap_int (wrap_int z) = wrap_int z.
Proof.
  unfold wrap_int. replace (_ mod _ - _ + 2 ^ 63) with ((z + 2 ^ 63) mod 2 ^ 64) by lia.
  rewrite Z.mod_mod by lia. reflexivity.
Qed.

Lemma wrap_int_add_l (a b : Z) : wrap_int (wrap_int a + b) = wrap_int (a + b).
Proof.
  unfold wrap_int.
  replace ((a + 2 ^ 63) mod 2 ^ 64 - 2 ^ 63 + b + 2 ^ 63)
    with ((a + 2 ^ 63) mod 2 ^ 64 + b) by lia.
  rewrite Zplus_mod_idemp_l. do 2 f_equal. lia.
Qed.

Lemma wrap_int_add_r (a b : Z) : wrap_int (a + wrap_int b) = wrap_int (a + b).
Proof. rewrite Z.add_comm, wrap_int_add_l. f_equal. lia. Qed.

Section Reporter_posts.
Import StatHatReporter.
Context {F : Type} {FO : Float64Ops F}.
Context {S : Type} {SO : Sample.ops F S}.
Variable int_impl : F -> Z.

Lemma sumZ_app (l1 l2 : list Z) : sumZ (l1 ++ l2) = sumZ l1 + sumZ l2.
Proof. induction l1 as [|x l1 IH]; simpl; [reflexivity|]. rewrite IH. lia. Qed.

Lemma counts_posted_app (n : String.string) (p1 p2 : list (post F)) :
  counts_posted n (p1 ++ p2) = counts_posted n p1 ++ counts_posted n p2.
Proof.
  induction p1 as [|[m e c|m e v] p1 IH]; simpl; [reflexivity| |exact IH].
  destruct (String.eqb m n); simpl; rewrite IH; reflexivity.
Qed.

Lemma post_percentiles_no_counts (n name email : String.string)
    (names : list String.string) (scores : list F) :
  counts_posted n (fst (post_percentiles name email names scores)) = [].
Proof.
  revert names; induction scores as [|s scores IH]; intros [|nm names]; simpl;
    try reflexivity.
  specialize (IH names). destruct (post_percentiles name email names scores).
  simpl in *. exact IH.
Qed.

Lemma get_set (m : counters) (k k' : String.string) (v : Z) :
  get (set m k v) k' = if String.eqb k k' then v else get m k'.
Proof. unfold get, set. simpl. destruct (String.eqb k k'); reflexivity. Qed.

Lemma report_counts (r r' : t F) (name : String.string) (m : metric F S)
    (posts : list (post F)) (p : option panic) :
  report int_impl r name m = (r', posts, p) ->
  all_int (previousCounters r) ->
  all_int (previousCounters r') /\
  forall n,
    wrap_int (get (previousCounters r) n + sumZ (counts_posted n posts)) =
      get (previousCounters r') n /\
    (p = None ->
     get (previousCounters r') n =
       last_count n [(name, m)] (get (previousCounters r) n)).
Proof.
  intros E Hint.
  assert (Hcount : forall c, report_count r (dots name) (wrap_int c) = (r', posts) ->
            all_int (previousCounters r') /\
            forall n,
              wrap_int (get (previousCounters r) n + sumZ (counts_posted n posts)) =
                get (previousCounters r') n /\
              get (previousCounters r') n =
                (if String.eqb (dots name) n then wrap_int c
                 else get (previousCounters r) n)).
  { intros c Ec. unfold report_count in Ec. inversion Ec; subst; clear Ec. simpl.
    split.
    - intro k. rewrite get_set. destruct (String.eqb (dots name) k);
        [apply wrap_int_idem|apply Hint].
    - intro n. rewrite get_set. destruct (String.eqb_spec (dots name) n) as [<-|Hn]; simpl.
      + split; [|reflexivity]. rewrite Z.add_0_r, wrap_int_add_r.
        replace (get (previousCounters r) (dots name) +
                 (wrap_int c - get (previousCounters r) (dots name)))
          with (wrap_int c) by lia.
        apply wrap_int_idem.
      + split; [|reflexivity]. rewrite Z.add_0_r. apply Hint. }
  assert (Hsame : r' = r -> (forall n, counts_posted n posts = []) ->
            (forall n b, last_count n [(name, m)] b = b) ->
            all_int (previousCounters r') /\
            forall n,
              wrap_int (get (previousCounters r) n + sumZ (counts_posted n posts)) =
                get (previousCounters r') n /\
              (p = None ->
               get (previousCounters r') n =
                 last_count n [(name, m)] (get (previousCounters r) n))).
  { intros -> Hno Hl. split; [exact Hint|]. intro n. rewrite Hno, Hl. simpl.
    rewrite Z.add_0_r. split; [apply Hint|reflexivity]. }
  unfold report in E. destruct m as [c|v|c|e|me|h|].
  - destruct (report_count r (dots name) (wrap_int c)) as [r1 posts1] eqn:Ec.
    inversion E; subst. destruct (Hcount c Ec) as [H1 H2].
    split; [exact H1|]. intro n. destruct (H2 n) as [H3 H4].
    split; [exact H3|]. intros _. simpl. exact H4.
  - inversion E; subst. apply Hsame; reflexivity.
  - destruct (report_count r (dots name) (wrap_int c)) as [r1 posts1] eqn:Ec.
    inversion E; subst. destruct (Hcount c Ec) as [H1 H2].
    split; [exact H1|]. intro n. destruct (H2 n) as [H3 H4].
    split; [exact H3|]. intros _. simpl. exact H4.
  - inversion E; subst. apply Hsame; reflexivity.
  - inversion E; subst. apply Hsame; reflexivity.
  - destruct (0 <? Histogram.Count h).
    + destruct (Histogram.Percentiles int_impl h (percentiles r)) as [scores|q].
      * pose proof (fun n => post_percentiles_no_counts n (dots name) (email r)
                               (percentileNames r) scores) as Hno.
        destruct (post_percentiles (dots name) (email r) (percentileNames r) scores)
          as [posts1 p1].
        inversion E; subst. apply Hsame; try reflexivity.
        intro n. simpl. apply Hno.
      * inversion E; subst. apply Hsame; reflexivity.
    + inversion E; subst. apply Hsame; reflexivity.
  - inversion E; subst. apply Hsame; reflexivity.
Qed.

Lemma last_count_cons (n : String.string) (item : String.string * metric F S)
    (items : list (String.string * metric F S)) (b : Z) :
  last_count n (item :: items) b = last_count n items (last_count n [item] b).
Proof. destruct item as [name [c|v|c|e|me|h|]]; reflexivity. Qed.

Lemma report_all_counts (items : list (String.string * metric F S)) :
  forall (r r' : t F) (posts : list (post F)) (p : option panic),
  report_all int_impl r items = (r', posts, p) ->
  all_int (previousCounters r) ->
  forall n,
    wrap_int (get (previousCounters r) n + sumZ (counts_posted n posts)) =
      get (previousCounters r') n /\
    (p = None ->
     get (previousCounters r') n = last_count n items (get (previousCounters r) n)).
Proof.
  induction items as [|[name m] items IH]; intros r r' posts p E Hint n.
  - inversion E; subst. simpl. rewrite Z.add_0_r. split; [apply Hint|reflexivity].
  - simpl in E.
    destruct (report int_impl r name m) as [[r1 posts1] [q|]] eqn:E1.
    + inversion E; subst. destruct (report_counts _ _ _ _ _ _ E1 Hint) as [_ H2].
      destruct (H2 n) as [H3 _]. split; [exact H3|discriminate].
    + destruct (report_all int_impl r1 items) as [[r2 posts2] p2] eqn:E2.
      inversion E; subst.
      destruct (report_counts _ _ _ _ _ _ E1 Hint) as [Hint1 H2].
      destruct (H2 n) as [H3 H4]. destruct (IH _ _ _ _ E2 Hint1 n) as [H5 H6].
      rewrite counts_posted_app, sumZ_app, last_count_cons.
      split.
      * rewrite <- H5, <- H3. rewrite wrap_int_add_l. f_equal. lia.
      * intro Ep. rewrite (H6 Ep), (H4 eq_refl). reflexivity.
Qed.

(** X18: the counts that a StatHat reporter posts for a counter add up to
    the counter: after a new reporter has reported any metrics, without
    panic, the sum of the counts posted under a stat name is, as an [int],
    the count that the last counter reported under that name had (0 if
    there was none). *)
Theorem StatHatReporter_counts_add_up (defaults : list F) (names : list String.string)
    (interval : time.Duration) (email source : String.string)
    (percentiles : option (list (String.string * F)))
    (items : list (String.string * metric F S))
    (r' : t F) (posts : list (post F)) (statName : String.string) :
  report_all int_impl
    (NewStatHatReporter defaults names interval email source percentiles) items
    = (r', posts, None) ->
  wrap_int (sumZ (counts_posted statName posts)) = last_count statName items 0 /\
  get (previousCounters r') statName = last_count statName items 0.
Proof.
  intro E.
  destruct (report_all_counts items _ _ _ _ E (fun k => eq_refl) statName) as [H1 H2].
  simpl in H1, H2. rewrite H1. split; apply H2; reflexivity.
Qed.

End Reporter_posts.

(* ------------------------------------------------------------------ *)
(** ** NaN in binary64 *)

Lemma SFadd_nan_l (y : spec_float) : SFadd B64.prec B64.emax S754_nan y = S754_nan.
Proof. destruct y; reflexivity. Qed.

Lemma SFadd_nan_r (x : spec_float) : SFadd B64.prec B64.emax x S754_nan = S754_nan.
Proof. destruct x; reflexivity. Qed.

Lemma SFsub_nan_l (y : spec_float) : SFsub B64.prec B64.emax S754_nan y = S754_nan.
Proof. destruct y; reflexivity. Qed.

Lemma SFmul_nan_r (x : spec_float) : SFmul B64.prec B64.emax x S754_nan = S754_nan.
Proof. destruct x; reflexivity. Qed.

Lemma SFdiv_nan_l (y : spec_float) : SFdiv B64.prec B64.emax S754_nan y = S754_nan.
Proof. destruct y; reflexivity. Qed.

Lemma SFltb_nan_l (y : spec_float) : SFltb S754_nan y = false.
Proof. destruct y; reflexivity. Qed.

Lemma SFltb_nan_r (x : spec_float) : SFltb x S754_nan = false.
Proof. destruct x; reflexivity. Qed.

Section EWMA_NaN.
Import EWMA.

Lemma Update_nan (vs : list spec_float) :
  forall e : EWMA.t spec_float,
  uncounted e = S754_nan \/ In S754_nan vs ->
  uncounted (fold_left Update vs e) = S754_nan.
Proof.
  induction vs as [|v vs IH]; intros e H; simpl.
  - destruct H as [H|[]]. exact H.
  - apply IH. unfold Update at 1. simpl.
    destruct H as [H|[H|H]].
    + left. rewrite H. apply SFadd_nan_l.
    + left. rewrite H. apply SFadd_nan_r.
    + right. exact H.
Qed.

Lemma Tick_nan_uncounted (e : EWMA.t spec_float) :
  uncounted e = S754_nan -> rate (Tick e) = S754_nan.
Proof.
  intro H. unfold Tick. rewrite H. cbn [f_div binary64]. rewrite SFdiv_nan_l.
  destruct (rate e .== f_zero)%flt; cbn [rate]; [reflexivity|].
  cbn [f_add f_mul f_sub binary64]. rewrite SFsub_nan_l, SFmul_nan_r, SFadd_nan_r.
  reflexivity.
Qed.

Lemma calls_nan_rate (cs : list (EWMA_call spec_float)) :
  forall e : EWMA.t spec_float,
  rate e = S754_nan -> rate (EWMA_calls e cs) = S754_nan.
Proof.
  induction cs as [|c cs IH]; intros e H; [exact H|].
  unfold EWMA_calls. simpl. apply IH. destruct c as [v|]; simpl; [exact H|].
  unfold Tick. rewrite H. change (S754_nan .== f_zero)%flt with false. cbn iota.
  cbn [rate f_add binary64]. apply SFadd_nan_l.
Qed.

(** X22: in binary64, a NaN among the values of a period spoils an EWMA
    for good: from the tick that ends the period on, [Rate] is NaN,
    whatever [Update]s and [Tick]s come later, and whatever the EWMA was
    before. *)
Theorem EWMA_NaN_spoils_rate (e : EWMA.t spec_float) (vs : list spec_float)
    (cs : list (EWMA_call spec_float)) :
  In S754_nan vs ->
  Rate (EWMA_calls (Tick (fold_left Update vs e)) cs) = S754_nan.
Proof.
  intro H. unfold Rate. apply calls_nan_rate. apply Tick_nan_uncounted.
  apply Update_nan. right. exact H.
Qed.

End EWMA_NaN.

Lemma EWMA_NaN_spoils_rate_witness :
  EWMA.Rate
    (EWMA_calls
       (EWMA.Tick
          (fold_left EWMA.Update [b64 1; S754_nan; b64 2]
             (EWMA.NewEWMA 5 (b64 EWMA.M1_ALPHA))))
       [EWMA_Update (b64 10); EWMA_Tick; EWMA_Tick]) = S754_nan.
Proof.
  apply EWMA_NaN_spoils_rate. right. left. reflexivity.
Defined.

Section Histogram_NaN.
Import Histogram.
Context {S : Type} {SO : Sample.ops spec_float S}.

Lemma Update_nan_fields (h : Histogram.t spec_float S) (v : spec_float) :
  1 <= count h < max_int ->
  count (Update h v) = count h + 1 /\
  (sum h = S754_nan \/ v = S754_nan -> sum (Update h v) = S754_nan) /\
  (min h = S754_nan -> min (Update h v) = S754_nan) /\
  (max h = S754_nan -> max (Update h v) = S754_nan).
Proof.
  intro Hc.
  assert (Hw : wrap_int (count h + 1) = count h + 1).
  { apply wrap_int_small. unfold min_int, max_int in *. lia. }
  unfold Update. rewrite Hw.
  destruct (Z.eqb_spec (count h + 1) 1) as [E1|_]; [lia|].
  cbn [count sum min max]. unfold f_gtb. cbn [f_ltb f_add binary64].
  split; [reflexivity|]. split; [|split].
  - intros [H| ->]; [rewrite H; apply SFadd_nan_l|apply SFadd_nan_r].
  - intro H. rewrite H, SFltb_nan_r. reflexivity.
  - intro H. rewrite H, SFltb_nan_l. reflexivity.
Qed.

Lemma updates_nan_fields (vs : list spec_float) :
  forall h : Histogram.t spec_float S,
  1 <= count h -> count h + Z.of_nat (length vs) <= max_int ->
  count (updates h vs) = count h + Z.of_nat (length vs) /\
  (sum h = S754_nan \/ In S754_nan vs -> sum (updates h vs) = S754_nan) /\
  (min h = S754_nan -> min (updates h vs) = S754_nan) /\
  (max h = S754_nan -> max (updates h vs) = S754_nan).
Proof.
  induction vs as [|v vs IH]; intros h H1 Hl.
  - simpl. rewrite Z.add_0_r. split; [reflexivity|].
    split; [intros [H|[]]; exact H|]. split; auto.
  - simpl length in Hl. rewrite Nat2Z.inj_succ in Hl.
    destruct (Update_nan_fields h v) as (Ec & Hs & Hmin & Hmax); [lia|].
    unfold updates. simpl fold_left. fold (updates (Update h v) vs).
    destruct (IH (Update h v)) as (Ec' & Hs' & Hmin' & Hmax'); [lia|lia|].
    split; [rewrite Ec', Ec; simpl length; lia|].
    split; [|split].
    + intros [H|[H|H]]; apply Hs'; [left; apply Hs; left; exact H
                                   |left; apply Hs; right; exact H
                                   |right; exact H].
    + intro H. apply Hmin', Hmin, H.
    + intro H. apply Hmax', Hmax, H.
Qed.

(** X23: in binary64, NaN values spoil a Histogram.  After Updates of a
    new Histogram with values of which one is NaN, [Sum] and [Mean] are
    NaN; and when the first value is NaN, [Min] and [Max] are NaN whatever
    the later values are, because no value compares less or greater than
    NaN. *)
Theorem Histogram_NaN_binary64 (s : S) (v0 : spec_float) (vs : list spec_float) :
  Z.of_nat (length (v0 :: vs)) <= max_int ->
  let h := updates (NewHistogram s) (v0 :: vs) in
  (In S754_nan (v0 :: vs) -> Sum h = S754_nan /\ Mean h = S754_nan) /\
  (v0 = S754_nan -> Min h = S754_nan /\ Max h = S754_nan).
Proof.
  intros Hl h. simpl length in Hl. rewrite Nat2Z.inj_succ in Hl.
  set (h1 := Update (NewHistogram s) v0).
  assert (E1 : count h1 = 1) by reflexivity.
  destruct (updates_nan_fields vs h1) as (Ec & Hs & Hmin & Hmax); [lia|lia|].
  change h with (updates h1 vs).
  assert (Hpos : 1 <= count (updates h1 vs)) by lia.
  split.
  - intro Hin. assert (Es : sum (updates h1 vs) = S754_nan).
    { apply Hs. destruct Hin as [H|H]; [|right; exact H].
      left. subst v0. unfold h1, Update. simpl. reflexivity. }
    unfold Sum, Mean. rewrite Es. split; [reflexivity|].
    destruct (Z.ltb_spec 0 (count (updates h1 vs))); [|lia].
    cbn [f_div binary64]. apply SFdiv_nan_l.
  - intros ->. unfold Min, Max.
    destruct (Z.eqb_spec (count (updates h1 vs)) 0); [lia|].
    split; [apply Hmin|apply Hmax]; reflexivity.
Qed.

End Histogram_NaN.

Lemma Histogram_NaN_binary64_witness :
  let h := Histogram.updates (Histogram.NewHistogram sample1028)
             [S754_nan; b64 3; b64 1; b64 2] in
  Histogram.Sum h = S754_nan /\ Histogram.Mean h = S754_nan /\
  Histogram.Min h = S754_nan /\ Histogram.Max h = S754_nan.
Proof.
  cbv zeta.
  destruct (Histogram_NaN_binary64 sample1028 S754_nan [b64 3; b64 1; b64 2]) as [H1 H2].
  - apply Z.leb_le. reflexivity.
  - destruct H1 as [Hs Hm]; [left; reflexivity|].
    destruct H2 as [Hmin Hmax]; [reflexivity|].
    repeat split; assumption.
Defined.

(* ------------------------------------------------------------------ *)
(** ** The StatHat reporter: Histograms *)

Section Reporter_histograms.
Import Ascii String.
Import StatHatReporter.
Context {F : Type} {FO : Float64Ops F}.
Context {S : Type} {SO : Sample.ops F S} {SC : Sample.contract F S}.
Variable int_impl : F -> Z.

(** With a name for every score, the loop over the scores posts one value
    for each, under its name, and does not panic. *)
Lemma post_percentiles_paired (name email : String.string)
    (names : list String.string) (scores : list F) :
  (List.length scores <= List.length names)%nat ->
  post_percentiles name email names scores =
    (map (percentile_post name email) (combine names scores), None).
Proof.
  revert names; induction scores as [|s scores IH]; intros [|n names] Hl; simpl in *;
    try reflexivity; try lia.
  rewrite IH by lia. reflexivity.
Qed.

(** The scores of a Histogram that has counted something, one for each
    percentile of the request. *)
Lemma Percentiles_scores (h : Histogram.t F S) (ps : list F) :
  Histogram.reachable h -> Histogram.count h <> 0 ->
  exists scores,
    Histogram.Percentiles int_impl h ps = Ok scores /\
    Forall2 (fun p s =>
               Histogram.score int_impl
                 (Histogram.sort (Sample.Values (Histogram.sample h))) p = Ok s)
            ps scores.
Proof.
  intros Hh Hc. pose proof (reachable_snapshot h Hh Hc) as Hv.
  destruct (scores_of_total int_impl _ ps (conj (proj1 Hv) (Z.lt_le_incl _ _ (proj2 Hv))))
    as (scores & Es & Hs).
  exists scores. split; [|exact Hs].
  unfold Histogram.Percentiles. destruct (Z.eqb_spec (Histogram.count h) 0); [contradiction|].
  exact Es.
Qed.

(** A report changes neither the percentiles nor their names, and does
    not panic when the metric is no Histogram, or one that [NewHistogram],
    [Update] and [Clear] produce, if every percentile has a name. *)
Lemma report_no_panic (r : t F) (name : String.string) (m : metric F S) :
  (List.length (percentiles r) <= List.length (percentileNames r))%nat ->
  match m with AHistogram h => Histogram.reachable h | _ => True end ->
  exists r' posts,
    report int_impl r name m = (r', posts, None) /\
    percentiles r' = percentiles r /\ percentileNames r' = percentileNames r.
Proof.
  intros Hl Hm. destruct m as [c|g|c|e|mt|h|]; simpl;
    try (eexists; eexists; split; [reflexivity|split; reflexivity]).
  destruct (Z.ltb_spec 0 (Histogram.Count h)) as [Hc|Hc].
  - destruct (Percentiles_scores h (percentiles r) Hm) as (scores & E & Hs).
    { unfold Histogram.Count in Hc. lia. }
    rewrite E. rewrite post_percentiles_paired.
    + eexists; eexists; split; [reflexivity|split; reflexivity].
    + rewrite <- (Forall2_length Hs). exact Hl.
  - eexists; eexists; split; [reflexivity|split; reflexivity].
Qed.

Lemma report_all_no_panic (items : list (String.string * metric F S)) :
  forall r : t F,
  (List.length (percentiles r) <= List.length (percentileNames r))%nat ->
  histograms_reachable items ->
  exists r' posts, report_all int_impl r items = (r', posts, None).
Proof.
  induction items as [|[name m] items IH]; intros r Hl Hi; simpl.
  - eexists; eexists; reflexivity.
  - inversion Hi as [|x l Hm Hi']; subst. simpl in Hm.
    destruct (report_no_panic r name m Hl Hm) as (r1 & posts1 & E1 & Ep & En).
    rewrite E1.
    destruct (IH r1) as (r2 & posts2 & E2); [rewrite Ep, En; exact Hl|exact Hi'|].
    rewrite E2. eexists; eexists; reflexivity.
Qed.

(** X19: a round of reports of a new StatHat reporter does not panic, if
    every percentile has a name (as is the case when the percentiles are
    given as a map) and every Histogram reported is one that
    [NewHistogram], [Update] and [Clear] produce: all the metrics are
    reported. *)
Theorem StatHatReporter_round_never_panics (defaults : list F) (names : list String.string)
    (interval : time.Duration) (email source : String.string)
    (percentiles : option (list (String.string * F)))
    (items : list (String.string * metric F S)) :
  (percentiles = None -> (List.length defaults <= List.length names)%nat) ->
  histograms_reachable items ->
  exists r' posts,
    report_all int_impl
      (NewStatHatReporter defaults names interval email source percentiles) items
    = (r', posts, None).
Proof.
  intros Hd Hi. apply report_all_no_panic; [|exact Hi].
  destruct percentiles as [pm|]; simpl.
  - rewrite !length_map. apply Nat.le_refl.
  - apply Hd. reflexivity.
Qed.

(** X20: what a StatHat reporter made with a map of percentiles posts for
    a Histogram.  For one whose count is not positive, nothing; for
    another one, its mean under [name.mean] and then, for each entry of the map
    in the order of the reporter, the score of the percentile of the entry
    under [name.key]: every score goes under the name of its own
    percentile. *)
Theorem StatHatReporter_posts_Histogram (defaults : list F) (names : list String.string)
    (interval : time.Duration) (email source : String.string)
    (pm : list (String.string * F)) (name : String.string) (h : Histogram.t F S) :
  Histogram.reachable h ->
  let r := NewStatHatReporter defaults names interval email source (Some pm) in
  (Histogram.Count h <= 0 -> report int_impl r name (AHistogram h) = (r, [], None)) /\
  (0 < Histogram.Count h ->
   exists scores,
     Forall2 (fun entry s =>
                Histogram.score int_impl
                  (Histogram.sort (Sample.Values (Histogram.sample h))) (snd entry) = Ok s)
             pm scores /\
     report int_impl r name (AHistogram h) =
       (r,
        PostEZValue (dots name ++ ".mean") email (Histogram.Mean h)
        :: map (percentile_post (dots name) email) (combine (map fst pm) scores),
        None)).
Proof.
  intros Hh r. unfold Histogram.Count. split; intro Hc.
  - simpl. unfold Histogram.Count.
    destruct (Z.ltb_spec 0 (Histogram.count h)); [lia|reflexivity].
  - destruct (Percentiles_scores h (map snd pm) Hh) as (scores & E & Hs); [lia|].
    exists scores. split.
    + clear E. revert scores Hs. induction pm as [|e pm IH]; intros scores Hs;
        inversion Hs; subst; constructor; auto.
    + simpl. unfold Histogram.Count.
      destruct (Z.ltb_spec 0 (Histogram.count h)); [|lia].
      rewrite E. rewrite post_percentiles_paired.
      * reflexivity.
      * rewrite <- (Forall2_length Hs), !length_map. apply Nat.le_refl.
Qed.

End Reporter_histograms.

Section Reporter_examples.
Import Ascii String.

Lemma StatHatReporter_counts_add_up_witness :
  let items : list (string * StatHatReporter.metric spec_float (UniformSample.t spec_float)) :=
    [("a/b"%string, StatHatReporter.Counter 5);
     ("b"%string, StatHatReporter.GaugeValue (b64 (3 # 2)));
     ("a.b"%string, StatHatReporter.CounterValue 12);
     ("b"%string, StatHatReporter.Counter 2);
     ("a/b"%string, StatHatReporter.Counter 9)] in
  exists r' posts,
    StatHatReporter.report_all amd64
      (StatHatReporter.NewStatHatReporter [] [] (60 * time.Second)
         "me@example.com"%string "host"%string None) items
      = (r', posts, None) /\
    StatHatReporter.counts_posted "a.b"%string posts = [5; 7; -3] /\
    wrap_int (sumZ (StatHatReporter.counts_posted "a.b"%string posts)) = 9 /\
    StatHatReporter.get (StatHatReporter.previousCounters r') "a.b"%string = 9.
Proof.
  cbv zeta.
  match goal with
  | |- exists r' posts, StatHatReporter.report_all _ _ ?items = _ /\ _ =>
      pose proof (fun r' posts =>
                    StatHatReporter_counts_add_up (F := spec_float)
                      (S := UniformSample.t spec_float)
                      amd64 [] [] (60 * time.Second) "me@example.com"%string
                      "host"%string None items r' posts "a.b"%string) as T
  end.
  eexists. eexists. split; [vm_compute; reflexivity|].
  split; [reflexivity|]. apply T. vm_compute. reflexivity.
Defined.

Lemma StatHatReporter_round_never_panics_witness :
  let h := Histogram.updates (Histogram.NewHistogram sample1028) [b64 3; b64 1; b64 2] in
  let items : list (string * StatHatReporter.metric spec_float (UniformSample.t spec_float)) :=
    [("requests"%string, StatHatReporter.Counter 5);
     ("request/time"%string, StatHatReporter.AHistogram h);
     ("idle"%string, StatHatReporter.AHistogram (Histogram.Clear h));
     ("other"%string, StatHatReporter.Unrecognized)] in
  exists r' posts,
    StatHatReporter.report_all amd64
      (StatHatReporter.NewStatHatReporter [b64 (1 # 2); b64 (99 # 100)]
         ["median"%string; "p99"%string; "p999"%string] (60 * time.Second)
         "me@example.com"%string "host"%string None) items
    = (r', posts, None).
Proof.
  cbv zeta.
  apply (StatHatReporter_round_never_panics (F := spec_float)
           (S := UniformSample.t spec_float) amd64).
  - intros _. simpl. lia.
  - assert (Hh : Histogram.reachable
                   (Histogram.updates (Histogram.NewHistogram sample1028)
                      [b64 3; b64 1; b64 2])).
    { apply reachable_updates. apply Histogram.reach_New. exact wf_sample1028. }
    unfold histograms_reachable.
    apply Forall_cons; [exact I|]. apply Forall_cons; [exact Hh|].
    apply Forall_cons; [apply Histogram.reach_Clear; exact Hh|].
    apply Forall_cons; [exact I|]. apply Forall_nil.
Defined.

Lemma StatHatReporter_posts_Histogram_witness :
  let h := Histogram.updates (Histogram.NewHistogram sample1028) [b64 3; b64 1; b64 2] in
  let pm := [("median"%string, b64 (1 # 2)); ("max"%string, b64 1)] in
  let r := StatHatReporter.NewStatHatReporter [] [] (60 * time.Second)
             "me@example.com"%string "host"%string (Some pm) in
  StatHatReporter.report amd64 r "request/time"%string
    (StatHatReporter.AHistogram (Histogram.Clear h)) = (r, [], None) /\
  exists scores,
    Forall2 (fun entry s =>
               Histogram.score amd64
                 (Histogram.sort (Sample.Values (Histogram.sample h))) (snd entry) = Ok s)
            pm scores /\
    StatHatReporter.report amd64 r "request/time"%string (StatHatReporter.AHistogram h) =
      (r,
       StatHatReporter.PostEZValue "request.time.mean"%string "me@example.com"%string
         (Histogram.Mean h)
       :: map (StatHatReporter.percentile_post "request.time"%string "me@example.com"%string)
              (combine ["median"%string; "max"%string] scores),
       None).
Proof.
  cbv zeta. split.
  - apply (StatHatReporter_posts_Histogram (F := spec_float)
             (S := UniformSample.t spec_float) amd64).
    + apply Histogram.reach_Clear. apply reachable_updates.
      apply Histogram.reach_New. exact wf_sample1028.
    + apply Z.leb_le. reflexivity.
  - apply (StatHatReporter_posts_Histogram (F := spec_float)
             (S := UniformSample.t spec_float) amd64 [] [] (60 * time.Second)
             "me@example.com"%string "host"%string
             [("median"%string, b64 (1 # 2)); ("max"%string, b64 1)]
             "request/time"%string).
    + apply reachable_updates. apply Histogram.reach_New. exact wf_sample1028.
    + reflexivity.
Defined.

End Reporter_examples.
